(** * adsb_server.py: the fan-out relay, as cooperating coroutines

    The program is a set of asyncio coroutines sharing two globals,
    [CONNECTED_CLIENTS] and [shutdown_event].  A coroutine runs without
    interruption from one [await] to the next, so every coroutine is embedded
    as a program counter (one constructor per [await] of the source, named
    after its line) together with state-passing functions, one per segment
    of code between two awaits.  What the libraries and the peers answer at
    an [await] (a result, an exception, a cancellation) is an input of the
    resuming function.  Calls that leave the process (send, close, connect,
    serve, ...) and emitted log records are appended to a trace.  The
    handler of OS signals is a step of its own: [sys_step] takes it between
    two segments of the coroutines, and [fine_step] also inside a segment,
    where the segment has tested the event and goes on to act on the
    answer.  [asyncio.CancelledError] is taken not to be an [Exception], as
    since Python 3.8. *)

From Stdlib Require Import ZArith Lia.
From stdpp Require Import base gmap sets list strings.

Local Open Scope Z_scope.
Local Set Warnings "-clear-no-such-hyp".

(** ** Configuration (lines 8-10) *)

Definition EXTERNAL_WS_URI : string := "ws://192.87.172.71:1338"%string.
Definition LOCAL_WS_HOST : string := "0.0.0.0"%string.
Definition LOCAL_WS_PORT : Z := 9000.

(** ** Data model *)

(** A websocket connection object of a local client; [remote_address] is
    the attribute used in log records and task names. *)
Definition client := nat.
Definition remote_address (websocket_client : client) : nat := websocket_client.

Definition message := string.

(** Modelled from the spec: the lifecycle state of a subscriber connection
    (the connection class belongs to the websockets library, which is not
    part of the repository).  The attribute [open] of the source holds in
    state [Active], the attribute [closed] in state [Closed]. *)
Inductive conn_state := Active | Closing | Closed.

#[global] Instance conn_state_eq_dec : EqDecision conn_state.
Proof. solve_decision. Defined.

(** Exceptions (subclasses of [Exception]) the source distinguishes. *)
Inductive exn :=
| ConnectionClosedOK
| ConnectionClosedError
| WebSocketException          (* any other websockets.exceptions.WebSocketException *)
| ConnectionRefusedError
| OSError (errno : Z)
| TimeoutError                (* asyncio.TimeoutError *)
| OtherException (name : string).

#[global] Instance exn_eq_dec : EqDecision exn.
Proof. solve_decision. Defined.

Definition isinstance_ConnectionClosed (e : exn) : bool :=
  match e with ConnectionClosedOK | ConnectionClosedError => true | _ => false end.

Definition isinstance_WebSocketException (e : exn) : bool :=
  match e with
  | ConnectionClosedOK | ConnectionClosedError | WebSocketException => true
  | _ => false
  end.

Definition isinstance_OSError (e : exn) : bool :=
  match e with ConnectionRefusedError | OSError _ => true | _ => false end.

(** What an [await] hands back to the coroutine: a value, an exception, or
    [asyncio.CancelledError] (a [BaseException], which no [except Exception]
    clause catches). *)
Inductive outcome (A : Type) :=
| Returned (a : A)
| Raised (e : exn)
| Cancelled.
Arguments Returned {A} a.
Arguments Raised {A} e.
Arguments Cancelled {A}.

#[global] Instance outcome_eq_dec {A} `{EqDecision A} : EqDecision (outcome A).
Proof. solve_decision. Defined.

(** Names given to the tasks the program creates. *)
Inductive task_name :=
| ClientWait (addr : nat)              (* line 39 *)
| ClientShutdownListen (addr : nat)    (* line 40 *)
| SendTo (addr : nat)                  (* line 86 *)
| ExternalDataReceiver                 (* line 156 *)
| ShutdownEventWatcher.                (* line 157 *)

#[global] Instance task_name_eq_dec : EqDecision task_name.
Proof. solve_decision. Defined.

(** ** Logging (lines 13-19) *)

Inductive log_level := DEBUG | INFO | WARNING | ERROR | CRITICAL.

#[global] Instance log_level_eq_dec : EqDecision log_level.
Proof. solve_decision. Defined.

Definition level_no (l : log_level) : Z :=
  match l with
  | DEBUG => 10 | INFO => 20 | WARNING => 30 | ERROR => 40 | CRITICAL => 50
  end.

(** [logging.basicConfig(level=logging.INFO)]. *)
Definition configured_level : log_level := INFO.

Definition isEnabledFor (l : log_level) : bool :=
  Z.leb (level_no configured_level) (level_no l).

(** One constructor per log call of the source, with the values it formats. *)
Inductive log_msg :=
| Log_rejecting_new_client (addr : nat)                      (* 30 *)
| Log_client_connected (addr : nat) (total : nat)            (* 38 *)
| Log_closing_client (addr : nat)                            (* 49 *)
| Log_client_closed_ok (addr : nat)                          (* 63 *)
| Log_client_closed_error (addr : nat) (e : exn)             (* 65 *)
| Log_client_handler_error (addr : nat) (e : exn)            (* 67 *)
| Log_client_session_ended (addr : nat) (total : nat)        (* 71 *)
| Log_broadcast_empty                                        (* 77 *)
| Log_broadcasting (total : nat) (m : message)               (* 81 *)
| Log_client_was_closed (addr : nat)                         (* 88 *)
| Log_error_sending (t : task_name) (result : exn)           (* 96 *)
| Log_no_clients                                             (* 98 *)
| Log_receiver_started                                       (* 103 *)
| Log_attempting_connect (uri : string)                      (* 106 *)
| Log_connected (uri : string)                               (* 108 *)
| Log_closed_during_receive                                  (* 117 *)
| Log_error_receiving (e : exn)                              (* 120 *)
| Log_connection_issue (e : exn)                             (* 123 *)
| Log_unexpected_connection_error (e : exn)                  (* 125 *)
| Log_receiver_stopped                                       (* 132 *)
| Log_port_in_use (port : Z)                                 (* 145 *)
| Log_oserror_startup (e : exn)                              (* 148 *)
| Log_failed_to_start (e : exn)                              (* 151 *)
| Log_server_started (host : string) (port : Z)              (* 154 *)
| Log_main_running                                           (* 159 *)
| Log_external_task_finished                                 (* 166 *)
| Log_external_task_exception (e : exn)                      (* 168 *)
| Log_shutdown_triggered                                     (* 170 *)
| Log_wait_returned_unexpectedly                             (* 172 *)
| Log_initiating_shutdown                                    (* 175 *)
| Log_closing_server                                         (* 184 *)
| Log_server_closed                                          (* 188 *)
| Log_timeout_server_close                                   (* 190 *)
| Log_waiting_main_tasks (ts : list task_name)               (* 202 *)
| Log_timeout_main_tasks                                     (* 206 *)
| Log_task_did_not_finish (t : task_name)                    (* 209 *)
| Log_task_cancelled (t : task_name)                         (* 214 *)
| Log_error_awaiting_cancelled (t : task_name) (e : exn)     (* 216 *)
| Log_shutdown_complete                                      (* 218 *)
| Log_received_signal (sig : Z)                              (* 223 *)
| Log_shutdown_already.                                      (* 229 *)

#[global] Instance log_msg_eq_dec : EqDecision log_msg.
Proof. solve_decision. Defined.

(** ** Trace of calls that leave the coroutine *)

Inductive event :=
| EvLog (l : log_level) (m : log_msg)
| EvSend (c : client) (m : message)                (* client.send(message_str) *)
| EvClose (c : client) (code : Z) (reason : string)(* websocket_client.close(code, reason) *)
| EvCreateTask (t : task_name)                     (* asyncio.create_task(..., name) *)
| EvCancel (t : task_name)                         (* task.cancel() *)
| EvConnect (uri : string)                         (* websockets.connect(uri) entered *)
| EvUpstreamClose                                  (* leaving the async with block *)
| EvCallBroadcast (m : message)                    (* call site of line 113 *)
| EvWaitShutdown (timeout : Z)                     (* wait_for(shutdown_event.wait(), timeout) *)
| EvServe (host : string) (port : Z)               (* websockets.serve(...) *)
| EvServerClose                                    (* server.close() *)
| EvServerWaitClosed (timeout : Z)                 (* wait_for(server.wait_closed(), timeout) *)
| EvWaitTasks (ts : list task_name) (timeout : Z). (* asyncio.wait(tasks_to_await, timeout) *)

#[global] Instance event_eq_dec : EqDecision event.
Proof. solve_decision. Defined.

(** ** Program counters of the coroutines other than the receiver *)

(** [register_client]: one coroutine per accepted connection. *)
Inductive rc_pc :=
| RC_accepted                                 (* handler task created, body not yet run *)
| RC_reject_close                             (* line 32, awaiting close *)
| RC_wait                                     (* line 43, awaiting asyncio.wait *)
| RC_shutdown_close (pending : list task_name)(* line 51, awaiting close *)
| RC_cancel (rest : list task_name)           (* line 58, awaiting a cancelled task *)
| RC_returned                                 (* returned None *)
| RC_raised (r : outcome unit).               (* an exception left the handler *)

(** [main_server_logic]. *)
Inductive main_pc :=
| M_not_started
| M_serve                                     (* line 138 *)
| M_wait                                      (* line 160 *)
| M_server_wait_closed                        (* line 187 *)
| M_join (tasks_to_await : list task_name)    (* line 204 *)
| M_cancel (t : task_name) (rest : list task_name)   (* line 212 *)
| M_returned
| M_raised (r : outcome unit).

(** ** The shared state *)

Record world := mkWorld {
  CONNECTED_CLIENTS : gset client;        (* line 22 *)
  shutdown_event : bool;                  (* line 24, asyncio.Event *)
  conn : gmap client conn_state;          (* the connection objects *)
  handlers : gmap client rc_pc;           (* the register_client coroutines *)
  main_task : main_pc;                    (* the main_server_logic coroutine *)
  trace : list event                      (* oldest first *)
}.

Definition emit (e : event) (w : world) : world :=
  mkWorld (CONNECTED_CLIENTS w) (shutdown_event w) (conn w) (handlers w)
          (main_task w) (trace w ++ [e]).

(** [logger.<level>(...)]: dropped below the configured level. *)
Definition logger (l : log_level) (m : log_msg) (w : world) : world :=
  if isEnabledFor l then emit (EvLog l m) w else w.

Definition clients_add (c : client) (w : world) : world :=
  mkWorld ({[c]} ∪ CONNECTED_CLIENTS w) (shutdown_event w) (conn w) (handlers w)
          (main_task w) (trace w).

Definition clients_remove (c : client) (w : world) : world :=
  mkWorld (CONNECTED_CLIENTS w ∖ {[c]}) (shutdown_event w) (conn w) (handlers w)
          (main_task w) (trace w).

(** [shutdown_event.set()]. *)
Definition event_set (w : world) : world :=
  mkWorld (CONNECTED_CLIENTS w) true (conn w) (handlers w) (main_task w) (trace w).

Definition set_conn (c : client) (s : conn_state) (w : world) : world :=
  mkWorld (CONNECTED_CLIENTS w) (shutdown_event w) (<[c := s]> (conn w)) (handlers w)
          (main_task w) (trace w).

Definition set_handler (c : client) (pc : rc_pc) (w : world) : world :=
  mkWorld (CONNECTED_CLIENTS w) (shutdown_event w) (conn w) (<[c := pc]> (handlers w))
          (main_task w) (trace w).

Definition set_main (pc : main_pc) (w : world) : world :=
  mkWorld (CONNECTED_CLIENTS w) (shutdown_event w) (conn w) (handlers w) pc (trace w).

(** [client.open] and [websocket_client.closed]. *)
Definition is_open (c : client) (w : world) : bool :=
  bool_decide (conn w !! c = Some Active).
Definition is_closed (c : client) (w : world) : bool :=
  bool_decide (conn w !! c = Some Closed).

(** ** register_client (lines 27-71) *)

Definition SHUTDOWN_CODE : Z := 1012.
Definition SHUTDOWN_REASON : string := "Server shutting down"%string.

(** Lines 68-71, the [finally] block. *)
Definition rc_finally (c : client) (w : world) : world :=
  let w := if bool_decide (c ∈ CONNECTED_CLIENTS w) then clients_remove c w else w in
  logger INFO (Log_client_session_ended (remote_address c) (size (CONNECTED_CLIENTS w))) w.

(** Lines 29-46: from the call to the first [await]. *)
Definition register_client (c : client) (w : world) : rc_pc * world :=
  if shutdown_event w then
    let w := logger WARNING (Log_rejecting_new_client (remote_address c)) w in
    (RC_reject_close, emit (EvClose c SHUTDOWN_CODE SHUTDOWN_REASON) w)
  else
    let w := clients_add c w in
    let w := logger INFO (Log_client_connected (remote_address c)
                                               (size (CONNECTED_CLIENTS w))) w in
    let w := emit (EvCreateTask (ClientWait (remote_address c))) w in
    let w := emit (EvCreateTask (ClientShutdownListen (remote_address c))) w in
    (RC_wait, w).

(** Lines 33-35: the close of a rejected client has finished. *)
Definition rc_after_reject_close (r : outcome unit) (w : world) : rc_pc * world :=
  match r with
  | Returned _ => (RC_returned, w)
  | Raised e =>
      if isinstance_ConnectionClosed e then (RC_returned, w)
      else (RC_raised (Raised e), w)
  | Cancelled => (RC_raised Cancelled, w)
  end.

(** Lines 62-71: an exception reached the [except] clauses of the [try]. *)
Definition rc_except (c : client) (e : exn) (w : world) : rc_pc * world :=
  let w :=
    match e with
    | ConnectionClosedOK => logger INFO (Log_client_closed_ok (remote_address c)) w
    | ConnectionClosedError =>
        logger WARNING (Log_client_closed_error (remote_address c) e) w
    | _ => logger ERROR (Log_client_handler_error (remote_address c) e) w
    end in
  (RC_returned, rc_finally c w).

(** A [CancelledError] passes the [except] clauses; the [finally] block
    runs and the exception leaves the handler. *)
Definition rc_cancelled (c : client) (w : world) : rc_pc * world :=
  (RC_raised Cancelled, rc_finally c w).

(** Lines 55-60: cancel the next pending task and await it, or fall
    through to the [finally] block. *)
Definition rc_cancel_pending (c : client) (pending : list task_name) (w : world)
  : rc_pc * world :=
  match pending with
  | [] => (RC_returned, rc_finally c w)
  | task :: rest => (RC_cancel rest, emit (EvCancel task) w)
  end.

(** Lines 47-56: [asyncio.wait] returned; the two flags say which of
    [client_wait_task] and [shutdown_listen_task] are in [done]. *)
Definition rc_after_wait (c : client) (client_wait_done shutdown_listen_done : bool)
    (w : world) : rc_pc * world :=
  let pending :=
    (if client_wait_done then [] else [ClientWait (remote_address c)]) ++
    (if shutdown_listen_done then [] else [ClientShutdownListen (remote_address c)]) in
  if shutdown_listen_done then
    let w := logger INFO (Log_closing_client (remote_address c)) w in
    if negb (is_closed c w) then
      (RC_shutdown_close pending, emit (EvClose c SHUTDOWN_CODE SHUTDOWN_REASON) w)
    else rc_cancel_pending c pending w
  else rc_cancel_pending c pending w.

Inductive rc_input :=
| RC_in_start                                   (* the handler body starts to run *)
| RC_in_wait_done (client_wait_done shutdown_listen_done : bool)
| RC_in (r : outcome unit).                     (* the awaited call has finished *)

(** [wait_closed()] completes once the connection is closed and
    [shutdown_event.wait()] once the event is set; [FIRST_COMPLETED] returns
    with at least one task done. *)
Definition wait_done_possible (c : client) (d1 d2 : bool) (w : world) : bool :=
  (d1 || d2) && implb d1 (is_closed c w) && implb d2 (shutdown_event w).

Definition rc_resume (c : client) (i : rc_input) (pc : rc_pc) (w : world)
  : option (rc_pc * world) :=
  match pc, i with
  | RC_accepted, RC_in_start => Some (register_client c w)
  | RC_reject_close, RC_in r => Some (rc_after_reject_close r w)
  | RC_wait, RC_in_wait_done d1 d2 =>
      if wait_done_possible c d1 d2 w then Some (rc_after_wait c d1 d2 w) else None
  | RC_wait, RC_in (Raised e) => Some (rc_except c e w)
  | RC_wait, RC_in Cancelled => Some (rc_cancelled c w)
  | RC_shutdown_close pending, RC_in (Returned _) => Some (rc_cancel_pending c pending w)
  | RC_shutdown_close _, RC_in (Raised e) => Some (rc_except c e w)
  | RC_shutdown_close _, RC_in Cancelled => Some (rc_cancelled c w)
  | RC_cancel _, RC_in (Raised e) => Some (rc_except c e w)
  | RC_cancel rest, RC_in _ => Some (rc_cancel_pending c rest w)
  | _, _ => None
  end.

(** ** os_signal_handler (lines 221-229) *)

Definition os_signal_handler (sig : Z) (w : world) : world :=
  let w := logger INFO (Log_received_signal sig) w in
  if negb (shutdown_event w) then event_set w
  else logger WARNING Log_shutdown_already w.

(** ** main_server_logic (lines 135-218) *)

Definition errno_is (e : exn) (n : Z) : bool :=
  match e with OSError k => Z.eqb k n | _ => false end.

(** Line 138: the call of [websockets.serve]. *)
Definition main_server_logic (w : world) : main_pc * world :=
  (M_serve, emit (EvServe LOCAL_WS_HOST LOCAL_WS_PORT) w).

(** Lines 143-160. *)
Definition main_after_serve (r : outcome unit) (w : world) : main_pc * world :=
  match r with
  | Raised e =>
      if isinstance_OSError e then
        if errno_is e 10048 then
          (M_returned, logger CRITICAL (Log_port_in_use LOCAL_WS_PORT) w)
        else (M_returned, logger CRITICAL (Log_oserror_startup e) w)
      else (M_returned, logger CRITICAL (Log_failed_to_start e) w)
  | Cancelled => (M_raised Cancelled, w)
  | Returned _ =>
      let w := logger INFO (Log_server_started LOCAL_WS_HOST LOCAL_WS_PORT) w in
      let w := emit (EvCreateTask ExternalDataReceiver) w in
      let w := emit (EvCreateTask ShutdownEventWatcher) w in
      let w := logger INFO Log_main_running w in
      (M_wait, w)
  end.

(** Lines 175-187: set the event, cancel the pending tasks (none of them is
    done when [asyncio.wait] has just returned), close the listener. *)
Definition main_shutdown_sequence (pending : list task_name) (w : world)
  : main_pc * world :=
  let w := logger INFO Log_initiating_shutdown w in
  let w := if negb (shutdown_event w) then event_set w else w in
  let w := foldl (fun w task => emit (EvCancel task) w) w pending in
  let w := logger INFO Log_closing_server w in
  let w := emit EvServerClose w in
  (M_server_wait_closed, emit (EvServerWaitClosed 5) w).

(** Lines 165-172, then the shutdown sequence.  [external_data_task] is
    [Some r] when the receiver task is in [done], with its result. *)
Definition main_after_wait (external_data_task : option (outcome unit))
    (shutdown_wait_done : bool) (w : world) : main_pc * world :=
  let pending :=
    (if shutdown_wait_done then [] else [ShutdownEventWatcher]) ++
    (match external_data_task with Some _ => [] | None => [ExternalDataReceiver] end) in
  match external_data_task with
  | Some r =>
      let w := logger WARNING Log_external_task_finished w in
      match r with
      | Returned _ => main_shutdown_sequence pending w
      | Raised e =>
          main_shutdown_sequence pending (logger ERROR (Log_external_task_exception e) w)
      | Cancelled => (M_raised Cancelled, w)   (* task.exception() raises *)
      end
  | None =>
      if shutdown_wait_done then
        main_shutdown_sequence pending (logger INFO Log_shutdown_triggered w)
      else
        main_shutdown_sequence pending (logger WARNING Log_wait_returned_unexpectedly w)
  end.

(** Line 218. *)
Definition main_finish (w : world) : main_pc * world :=
  (M_returned, logger INFO Log_shutdown_complete w).

(** Lines 194-204. *)
Definition main_await_tasks (external_done shutdown_done : bool) (w : world)
  : main_pc * world :=
  let tasks_to_await :=
    (if external_done then [] else [ExternalDataReceiver]) ++
    (if shutdown_done then [] else [ShutdownEventWatcher]) in
  match tasks_to_await with
  | [] => main_finish w
  | _ =>
      let w := logger INFO (Log_waiting_main_tasks tasks_to_await) w in
      (M_join tasks_to_await, emit (EvWaitTasks tasks_to_await 10) w)
  end.

(** Lines 188-190: the bounded wait for the listener has finished. *)
Definition main_after_server_closed (r : outcome unit)
    (external_done shutdown_done : bool) (w : world) : main_pc * world :=
  match r with
  | Returned _ =>
      main_await_tasks external_done shutdown_done (logger INFO Log_server_closed w)
  | Raised TimeoutError =>
      main_await_tasks external_done shutdown_done
                       (logger WARNING Log_timeout_server_close w)
  | Raised e => (M_raised (Raised e), w)
  | Cancelled => (M_raised Cancelled, w)
  end.

(** Lines 207-212: skip the tasks that are done, cancel and await the next. *)
Fixpoint main_cancel_loop (todo : list task_name) (is_done : task_name -> bool)
    (w : world) : main_pc * world :=
  match todo with
  | [] => main_finish w
  | task :: rest =>
      if negb (is_done task) then
        let w := logger WARNING (Log_task_did_not_finish task) w in
        (M_cancel task rest, emit (EvCancel task) w)
      else main_cancel_loop rest is_done w
  end.

(** Lines 205-206. *)
Definition main_after_join (tasks_to_await : list task_name) (r : outcome unit)
    (is_done : task_name -> bool) (w : world) : main_pc * world :=
  match r with
  | Returned _ => main_finish w
  | Raised TimeoutError =>
      main_cancel_loop tasks_to_await is_done (logger WARNING Log_timeout_main_tasks w)
  | Raised e => (M_raised (Raised e), w)
  | Cancelled => (M_raised Cancelled, w)
  end.

(** Lines 213-216. *)
Definition main_after_cancelled_task (task : task_name) (rest : list task_name)
    (r : outcome unit) (is_done : task_name -> bool) (w : world) : main_pc * world :=
  match r with
  | Cancelled => main_cancel_loop rest is_done (logger INFO (Log_task_cancelled task) w)
  | Raised e =>
      main_cancel_loop rest is_done (logger ERROR (Log_error_awaiting_cancelled task e) w)
  | Returned _ => main_cancel_loop rest is_done w
  end.

Inductive main_input :=
| M_in_start
| M_in_serve (r : outcome unit)
| M_in_wait (external_data_task : option (outcome unit)) (shutdown_wait_done : bool)
| M_in_server_closed (r : outcome unit) (external_done shutdown_done : bool)
| M_in_join (r : outcome unit) (is_done : task_name -> bool)
| M_in_cancelled_task (r : outcome unit) (is_done : task_name -> bool).

(** The watcher task is done only once the event is set. *)
Definition main_resume (i : main_input) (pc : main_pc) (w : world)
  : option (main_pc * world) :=
  match pc, i with
  | M_not_started, M_in_start => Some (main_server_logic w)
  | M_serve, M_in_serve r => Some (main_after_serve r w)
  | M_wait, M_in_wait ext sd =>
      if implb sd (shutdown_event w) then Some (main_after_wait ext sd w) else None
  | M_server_wait_closed, M_in_server_closed r ed sd =>
      Some (main_after_server_closed r ed sd w)
  | M_join ts, M_in_join r is_done => Some (main_after_join ts r is_done w)
  | M_cancel t rest, M_in_cancelled_task r is_done =>
      Some (main_after_cancelled_task t rest r is_done w)
  | _, _ => None
  end.

(** ** Schedules *)

(** A schedule is a list of steps; it is run from a state as long as each
    step is enabled. *)
Fixpoint run {A S : Type} (step : A → S → option S) (acts : list A) (s : S) : option S :=
  match acts with
  | [] => Some s
  | a :: rest =>
      match step a s with
      | Some s' => run step rest s'
      | None => None
      end
  end.

(** ** Everything that runs beside the receiver task *)

Inductive action :=
| A_accept (c : client)                   (* the listener hands a new connection to a handler task *)
| A_conn (c : client) (s : conn_state)    (* the transport or the peer changes a connection's state *)
| A_handler (c : client) (i : rc_input)   (* the handler coroutine of c runs its next segment *)
| A_signal (sig : Z)                      (* the OS delivers a signal *)
| A_main (i : main_input).                (* main_server_logic runs its next segment *)

Definition conn_may_change (old new : conn_state) : bool :=
  match old, new with
  | Active, Closing | Active, Closed | Closing, Closed => true
  | _, _ => false
  end.

(** The listener accepts connections from the return of [websockets.serve]
    (line 138) to [server.close()] (line 185): while [main_server_logic]
    is suspended at line 160. *)
Definition listening (w : world) : bool :=
  match main_task w with M_wait => true | _ => false end.

Definition world_step (a : action) (w : world) : option world :=
  match a with
  | A_accept c =>
      if listening w && bool_decide (handlers w !! c = None ∧ conn w !! c = None)
      then Some (set_handler c RC_accepted (set_conn c Active w))
      else None
  | A_conn c s =>
      match conn w !! c with
      | Some old => if conn_may_change old s then Some (set_conn c s w) else None
      | None => None
      end
  | A_handler c i =>
      match handlers w !! c with
      | Some pc =>
          match rc_resume c i pc w with
          | Some (pc', w') => Some (set_handler c pc' w')
          | None => None
          end
      | None => None
      end
  | A_signal sig => Some (os_signal_handler sig w)
  | A_main i =>
      match main_resume i (main_task w) w with
      | Some (pc', w') => Some (set_main pc' w')
      | None => None
      end
  end.

(** ** broadcast_message (lines 74-98) *)

(** A task created at line 86, with its result once it has run. *)
Record send_task := mkTask {
  task_client : client;
  task_result : option (outcome unit)
}.

Definition task_get_name (t : send_task) : task_name :=
  SendTo (remote_address (task_client t)).

Inductive bc_pc :=
| BC_gather (message_str : message) (tasks : list send_task)   (* line 91 *)
| BC_returned.                                                 (* returned None *)

(** Lines 84-88: the loop over the snapshot. *)
Fixpoint create_send_tasks (clients_to_send : list client) (tasks : list send_task)
    (w : world) : list send_task * world :=
  match clients_to_send with
  | [] => (tasks, w)
  | client :: rest =>
      if is_open client w then
        create_send_tasks rest (tasks ++ [mkTask client None])
          (emit (EvCreateTask (SendTo (remote_address client))) w)
      else
        create_send_tasks rest tasks
          (logger WARNING (Log_client_was_closed (remote_address client)) w)
  end.

(** Lines 76-91: from the call to the [await] of [asyncio.gather], or to
    the return when there is nothing to await. *)
Definition broadcast_message (message_str : message) (w : world) : bc_pc * world :=
  if bool_decide (message_str = ""%string) then
    (BC_returned, logger DEBUG Log_broadcast_empty w)
  else if bool_decide (CONNECTED_CLIENTS w ≠ ∅) then
    let w := logger DEBUG (Log_broadcasting (size (CONNECTED_CLIENTS w))
                                            (String.substring 0 100 message_str)) w in
    let clients_to_send := elements (CONNECTED_CLIENTS w) in
    let '(tasks, w) := create_send_tasks clients_to_send [] w in
    match tasks with
    | [] => (BC_returned, w)
    | _ => (BC_gather message_str tasks, w)
    end
  else (BC_returned, logger DEBUG Log_no_clients w).

(** The event loop runs the body of task [i]: [client.send(message_str)]
    is called and finishes with [r]. *)
Definition run_send_task (i : nat) (r : outcome unit) (message_str : message)
    (tasks : list send_task) (w : world) : option (list send_task * world) :=
  match tasks !! i with
  | Some (mkTask client None) =>
      Some (<[i := mkTask client (Some r)]> tasks, emit (EvSend client message_str) w)
  | _ => None
  end.

(** Lines 92-96: the loop over the results, in task order. *)
Fixpoint log_send_errors (tasks : list send_task) (w : world) : world :=
  match tasks with
  | [] => w
  | original_task :: rest =>
      match task_result original_task with
      | Some (Raised result) =>
          log_send_errors rest
            (logger ERROR (Log_error_sending (task_get_name original_task) result) w)
      | _ => log_send_errors rest w
      end
  end.

Definition task_done (t : send_task) : bool :=
  match task_result t with Some _ => true | None => false end.

Inductive bc_input :=
| BC_in_task (i : nat) (r : outcome unit)   (* one send task runs *)
| BC_in_gather_done.                        (* gather returns the results *)

Definition bc_resume (i : bc_input) (pc : bc_pc) (w : world) : option (bc_pc * world) :=
  match pc, i with
  | BC_gather message_str tasks, BC_in_task k r =>
      match run_send_task k r message_str tasks w with
      | Some (tasks', w') => Some (BC_gather message_str tasks', w')
      | None => None
      end
  | BC_gather message_str tasks, BC_in_gather_done =>
      if forallb task_done tasks then Some (BC_returned, log_send_errors tasks w)
      else None
  | BC_returned, _ => None
  end.

(** A broadcast call interleaved with the rest of the program. *)
Inductive bc_action :=
| B_world (a : action)
| B_own (i : bc_input).

Definition bc_step (a : bc_action) (s : bc_pc * world) : option (bc_pc * world) :=
  match a with
  | B_world a =>
      match world_step a (snd s) with
      | Some w' => Some (fst s, w')
      | None => None
      end
  | B_own i => bc_resume i (fst s) (snd s)
  end.

Definition bc_run : list bc_action → bc_pc * world → option (bc_pc * world) :=
  run bc_step.

(** ** receive_from_external_adsb (lines 101-132) *)

Inductive conn_pc :=
| C_created                                   (* task created, body not yet run *)
| C_connecting                                (* line 107, entering the async with *)
| C_recv                                      (* line 111 *)
| C_gather (message_str : message) (tasks : list send_task)  (* line 113, inside line 91 *)
| C_aexit (cancelled : bool)                  (* leaving the async with block *)
| C_retry_wait                                (* line 129 *)
| C_returned                                  (* returned None *)
| C_raised (r : outcome unit).                (* an exception left the coroutine *)

Definition RETRY_INTERVAL : Z := 5.

(** Lines 104-107 and 132: the head of the outer loop. *)
Definition rx_outer_loop (w : world) : conn_pc * world :=
  if negb (shutdown_event w) then
    let w := logger INFO (Log_attempting_connect EXTERNAL_WS_URI) w in
    (C_connecting, emit (EvConnect EXTERNAL_WS_URI) w)
  else (C_returned, logger INFO Log_receiver_stopped w).

(** Lines 103-107. *)
Definition receive_from_external_adsb (w : world) : conn_pc * world :=
  rx_outer_loop (logger INFO Log_receiver_started w).

(** Lines 127-131, then back to the head of the outer loop. *)
Definition rx_after_try (w : world) : conn_pc * world :=
  if negb (shutdown_event w) then (C_retry_wait, emit (EvWaitShutdown RETRY_INTERVAL) w)
  else rx_outer_loop w.

(** Lines 122-125. *)
Definition rx_outer_except (e : exn) (w : world) : world :=
  if isinstance_WebSocketException e || isinstance_OSError e
  then logger WARNING (Log_connection_issue e) w
  else logger ERROR (Log_unexpected_connection_error e) w.

(** Control leaves the [async with] block: the upstream connection is closed. *)
Definition rx_leave_with (cancelled : bool) (w : world) : conn_pc * world :=
  (C_aexit cancelled, emit EvUpstreamClose w).

(** Lines 109-111: the head of the inner loop. *)
Definition rx_inner_loop (w : world) : conn_pc * world :=
  if negb (shutdown_event w) then (C_recv, w) else rx_leave_with false w.

(** Line 108, or lines 122-125 when the connection attempt failed. *)
Definition rx_after_connect (r : outcome unit) (w : world) : conn_pc * world :=
  match r with
  | Returned _ => rx_inner_loop (logger INFO (Log_connected EXTERNAL_WS_URI) w)
  | Raised e => rx_after_try (rx_outer_except e w)
  | Cancelled => (C_raised Cancelled, w)
  end.

(** Lines 112-121. *)
Definition rx_after_recv (r : outcome message) (w : world) : conn_pc * world :=
  match r with
  | Returned message_str =>
      if bool_decide (message_str ≠ ""%string) then
        match broadcast_message message_str (emit (EvCallBroadcast message_str) w) with
        | (BC_returned, w) => rx_inner_loop w
        | (BC_gather m tasks, w) => (C_gather m tasks, w)
        end
      else rx_inner_loop w
  | Raised TimeoutError => rx_inner_loop w
  | Raised e =>
      if isinstance_ConnectionClosed e
      then rx_leave_with false (logger WARNING Log_closed_during_receive w)
      else rx_leave_with false (logger ERROR (Log_error_receiving e) w)
  | Cancelled => rx_leave_with true w
  end.

(** The connection has been closed on the way out of the [async with]. *)
Definition rx_after_aexit (cancelled : bool) (r : outcome unit) (w : world)
  : conn_pc * world :=
  match r with
  | Returned _ => if cancelled then (C_raised Cancelled, w) else rx_after_try w
  | Raised e => rx_after_try (rx_outer_except e w)
  | Cancelled => (C_raised Cancelled, w)
  end.

(** Lines 130-131. *)
Definition rx_after_retry_wait (r : outcome unit) (w : world) : conn_pc * world :=
  match r with
  | Returned _ => rx_outer_loop w
  | Raised TimeoutError => rx_outer_loop w
  | Raised e => (C_raised (Raised e), w)
  | Cancelled => (C_raised Cancelled, w)
  end.

Inductive conn_input :=
| C_in_start
| C_in_connect (r : outcome unit)
| C_in_recv (r : outcome message)
| C_in_broadcast (i : bc_input)
| C_in_broadcast_cancelled
| C_in_aexit (r : outcome unit)
| C_in_retry_wait (r : outcome unit).

(** The event loop runs a task only once line 156 has created it. *)
Definition task_created (t : task_name) (w : world) : bool :=
  bool_decide (EvCreateTask t ∈ trace w).

(** [shutdown_event.wait()] returns only once the event is set. *)
Definition rx_resume (i : conn_input) (pc : conn_pc) (w : world)
  : option (conn_pc * world) :=
  match pc, i with
  | C_created, C_in_start =>
      if task_created ExternalDataReceiver w then Some (receive_from_external_adsb w)
      else None
  | C_connecting, C_in_connect r => Some (rx_after_connect r w)
  | C_recv, C_in_recv r => Some (rx_after_recv r w)
  | C_gather m tasks, C_in_broadcast i =>
      match bc_resume i (BC_gather m tasks) w with
      | Some (BC_gather m' tasks', w') => Some (C_gather m' tasks', w')
      | Some (BC_returned, w') => Some (rx_inner_loop w')
      | None => None
      end
  | C_gather _ _, C_in_broadcast_cancelled => Some (rx_leave_with true w)
  | C_aexit cancelled, C_in_aexit r => Some (rx_after_aexit cancelled r w)
  | C_retry_wait, C_in_retry_wait (Returned tt) =>
      if shutdown_event w then Some (rx_after_retry_wait (Returned tt) w) else None
  | C_retry_wait, C_in_retry_wait r => Some (rx_after_retry_wait r w)
  | _, _ => None
  end.

(** ** The whole program *)

Inductive sys_action :=
| S_world (a : action)
| S_receiver (i : conn_input).

Definition system := (conn_pc * world)%type.

Definition sys_step (a : sys_action) (s : system) : option system :=
  match a with
  | S_world a =>
      match world_step a (snd s) with
      | Some w' => Some (fst s, w')
      | None => None
      end
  | S_receiver i => rx_resume i (fst s) (snd s)
  end.

Definition sys_run : list sys_action → system → option system := run sys_step.

Definition initial_world : world := mkWorld ∅ false ∅ ∅ M_not_started [].
Definition initial_system : system := (C_created, initial_world).

(** ** Observations on traces and states, used in the statements *)

(** The send attempts recorded in a trace, in order. *)
Definition sends (tr : list event) : list (client * message) :=
  omap (fun ev => match ev with EvSend c m => Some (c, m) | _ => None end) tr.

(** The messages handed to [broadcast_message] by the receiver, in order. *)
Definition broadcast_calls (tr : list event) : list message :=
  omap (fun ev => match ev with EvCallBroadcast m => Some m | _ => None end) tr.

(** The connection attempts to the upstream source, in order. *)
Definition connect_attempts (tr : list event) : list string :=
  omap (fun ev => match ev with EvConnect uri => Some uri | _ => None end) tr.

(** The events [world_step] can add to the trace: everything but the
    sends, the upstream connection and the call of the broadcast, which
    belong to the receiver task. *)
Definition world_event (ev : event) : Prop :=
  match ev with
  | EvSend _ _ | EvConnect _ | EvUpstreamClose | EvCallBroadcast _
  | EvWaitShutdown _ => False
  | EvCreateTask (SendTo _) => False
  | _ => True
  end.

(** [w'] carries the trace of [w] followed by events that satisfy [P]. *)
Definition extends (P : event → Prop) (w w' : world) : Prop :=
  ∃ evs, trace w' = trace w ++ evs ∧ Forall P evs.

(** [w] and [w'] differ in their traces only. *)
Definition same_shared (w w' : world) : Prop :=
  CONNECTED_CLIENTS w' = CONNECTED_CLIENTS w ∧
  shutdown_event w' = shutdown_event w ∧
  conn w' = conn w ∧
  handlers w' = handlers w ∧
  main_task w' = main_task w.

(** The clients of the snapshot of line 82 that pass the test of line 85. *)
Definition open_snapshot (w : world) : list client :=
  filter (fun c => is_open c w = true) (elements (CONNECTED_CLIENTS w)).

(** The program counters of [register_client] between line 37 and the
    [finally] block. *)
Definition rc_registered (pc : rc_pc) : bool :=
  match pc with
  | RC_wait | RC_shutdown_close _ | RC_cancel _ => true
  | _ => false
  end.

(** The claim that membership in the registry coincides with state [Active]. *)
Definition registry_iff_active (w : world) : Prop :=
  ∀ c, c ∈ CONNECTED_CLIENTS w ↔ conn w !! c = Some Active.

(** Membership in the registry coincides with a session between its
    registration and its [finally] block. *)
Definition registry_iff_session (w : world) : Prop :=
  ∀ c, c ∈ CONNECTED_CLIENTS w ↔ ∃ pc, handlers w !! c = Some pc ∧ rc_registered pc = true.

(** Scanning a trace for a connection attempt that follows another one
    without a retry wait in between.  The state says whether a wait is
    owed; [None] reports a violation. *)
Definition wait_scan_step (owed : option bool) (ev : event) : option bool :=
  match owed, ev with
  | None, _ => None
  | Some true, EvConnect _ => None
  | Some false, EvConnect _ => Some true
  | Some _, EvWaitShutdown t => if bool_decide (t = RETRY_INTERVAL) then Some false else owed
  | Some b, _ => Some b
  end.

Definition wait_scan (tr : list event) : option bool :=
  foldl wait_scan_step (Some false) tr.

(** Every connection attempt but the first comes after a wait of
    [RETRY_INTERVAL] issued since the previous attempt. *)
Definition waits_before_reconnect (tr : list event) : Prop :=
  is_Some (wait_scan tr).

Definition main_run : list main_input → main_pc * world → option (main_pc * world) :=
  run (fun i s => main_resume i (fst s) (snd s)).

(** What line 84-88 adds to the trace for one client of the snapshot. *)
Definition snapshot_event (w : world) (c : client) : event :=
  if is_open c w then EvCreateTask (SendTo (remote_address c))
  else EvLog WARNING (Log_client_was_closed (remote_address c)).

(** The send attempts made so far by the tasks of a broadcast. *)
Definition attempted (message_str : message) (tasks : list send_task)
  : list (client * message) :=
  map (fun t => (task_client t, message_str)) (filter (fun t => task_done t = true) tasks).

(** Everything but the registry and the trace is left as it was. *)
Definition keeps_control (w w' : world) : Prop :=
  shutdown_event w' = shutdown_event w ∧ conn w' = conn w ∧
  handlers w' = handlers w ∧ main_task w' = main_task w.

(** Only the event, which can only become set, and the trace, to which
    events satisfying [P] are added, differ from [w] to [w']. *)
Definition keeps_clients (P : event → Prop) (w w' : world) : Prop :=
  CONNECTED_CLIENTS w' = CONNECTED_CLIENTS w ∧ conn w' = conn w ∧
  handlers w' = handlers w ∧ main_task w' = main_task w ∧
  (shutdown_event w = true → shutdown_event w' = true) ∧
  extends P w w'.

(** What holds of a broadcast of [message_str] called in world [w0] while
    it is in progress: the sends added to the trace are those of the
    tasks that have run, and the tasks are those of the open clients of
    the snapshot. *)
Definition bc_inv (w0 : world) (message_str : message) (s : bc_pc * world) : Prop :=
  ∃ new, sends (trace (snd s)) = sends (trace w0) ++ new ∧
    match fst s with
    | BC_gather m tasks =>
        m = message_str ∧ map task_client tasks = open_snapshot w0 ∧
        new ≡ₚ attempted message_str tasks
    | BC_returned => new ≡ₚ map (fun c => (c, message_str)) (open_snapshot w0)
    end.

(** The steps that let the tasks not yet run finish, task [k] with result
    [results k], and then resume the broadcast. *)
Fixpoint pending_from (results : nat → outcome unit) (k : nat) (tasks : list send_task)
  : list bc_action :=
  match tasks with
  | [] => []
  | t :: rest =>
      (if task_done t then [] else [B_own (BC_in_task k (results k))])
      ++ pending_from results (S k) rest
  end.

Definition finish_schedule (results : nat → outcome unit) (pc : bc_pc) : list bc_action :=
  match pc with
  | BC_returned => []
  | BC_gather _ tasks => pending_from results 0 tasks ++ [B_own BC_in_gather_done]
  end.

(** ** Example states *)

(** Three sessions between line 43 and their end; the connection of
    client 2 has been closed by its peer. *)
Definition ex_world : world :=
  mkWorld {[1%nat; 2%nat; 3%nat]} false
          (list_to_map [(1%nat, Active); (2%nat, Closed); (3%nat, Active)])
          (list_to_map [(1%nat, RC_wait); (2%nat, RC_wait); (3%nat, RC_wait)])
          M_wait [].

Definition ex_message : message := "A1:LAT=1,LON=2"%string.

(** A broadcast during which client 7 connects and registers, and the send
    of task 0 fails. *)
Definition ex_broadcast_schedule : list bc_action :=
  [B_own (BC_in_task 1 (Returned tt));
   B_world (A_accept 7%nat);
   B_world (A_handler 7%nat RC_in_start);
   B_own (BC_in_task 0 (Raised ConnectionClosedError));
   B_own BC_in_gather_done].

Definition ex_world_after_broadcast : world :=
  match bc_run ex_broadcast_schedule (broadcast_message ex_message ex_world) with
  | Some (_, w) => w
  | None => ex_world
  end.

(** The listener has been started by [main_server_logic]. *)
Definition ex_boot : list sys_action :=
  [S_world (A_main M_in_start); S_world (A_main (M_in_serve (Returned tt)))].

(** Client 1 connects and is registered; then its peer closes the
    connection, and the handler has not yet been resumed. *)
Definition ex_closed_schedule : list sys_action :=
  ex_boot ++ [S_world (A_accept 1%nat); S_world (A_handler 1%nat RC_in_start);
              S_world (A_conn 1%nat Closed)].

Definition ex_closed_state : system :=
  match sys_run ex_closed_schedule initial_system with
  | Some s => s
  | None => initial_system
  end.

(** The event is set; client 1 is registered and the handler of the new
    connection 9 has not run yet. *)
Definition ex_rejecting_world : world :=
  mkWorld {[1%nat]} true
          (list_to_map [(1%nat, Active); (9%nat, Active)])
          (list_to_map [(1%nat, RC_wait); (9%nat, RC_accepted)])
          M_wait [].

(** A second signal, the handler of client 1 leaving, and the main
    coroutine starting the shutdown sequence. *)
Definition ex_shutdown_schedule : list sys_action :=
  [S_world (A_signal 2);
   S_world (A_handler 1%nat (RC_in_wait_done false true));
   S_world (A_main (M_in_wait None true));
   S_receiver (C_in_recv (Raised TimeoutError))].

Definition ex_shutdown_state : system :=
  match sys_run ex_shutdown_schedule (C_recv, ex_rejecting_world) with
  | Some s => s
  | None => initial_system
  end.

(** The critical record logged when [websockets.serve] raises [e]
    (lines 143-152). *)
Definition bind_failure_msg (e : exn) : log_msg :=
  if isinstance_OSError e then
    if errno_is e 10048 then Log_port_in_use LOCAL_WS_PORT else Log_oserror_startup e
  else Log_failed_to_start e.

(** The inputs of the main coroutine, suspended at line 160, when the
    receiver task ends with result [r] (the watcher being done or not as
    [shutdown_wait_done] says), the bounded wait for the listener ends with
    [r2], and the watcher is then done or not as [watcher_done] says. *)
Definition receiver_ended_inputs (r : outcome unit) (shutdown_wait_done : bool)
    (r2 : outcome unit) (watcher_done : bool) (is_done : task_name → bool)
  : list main_input :=
  [M_in_wait (Some r) shutdown_wait_done; M_in_server_closed r2 true watcher_done]
  ++ (if watcher_done then [] else [M_in_join (Returned tt) is_done]).

(** The trace the main coroutine leaves in that case. *)
Definition receiver_ended_trace (r : outcome unit) (shutdown_wait_done : bool)
    (r2 : outcome unit) (watcher_done : bool) : list event :=
  [EvLog WARNING Log_external_task_finished]
  ++ (match r with Raised e => [EvLog ERROR (Log_external_task_exception e)] | _ => [] end)
  ++ [EvLog INFO Log_initiating_shutdown]
  ++ (if shutdown_wait_done then [] else [EvCancel ShutdownEventWatcher])
  ++ [EvLog INFO Log_closing_server; EvServerClose; EvServerWaitClosed 5]
  ++ [match r2 with
      | Returned _ => EvLog INFO Log_server_closed
      | _ => EvLog WARNING Log_timeout_server_close
      end]
  ++ (if watcher_done then []
      else [EvLog INFO (Log_waiting_main_tasks [ShutdownEventWatcher]);
            EvWaitTasks [ShutdownEventWatcher] 10])
  ++ [EvLog INFO Log_shutdown_complete].

(** The program before the listener is up. *)
Definition not_yet_serving (s : system) : Prop :=
  (main_task (snd s) = M_not_started ∨ main_task (snd s) = M_serve) →
  fst s = C_created ∧ handlers (snd s) = ∅ ∧
  (EvCreateTask ExternalDataReceiver ∉ trace (snd s)) ∧
  (∀ c code reason, EvClose c code reason ∉ trace (snd s)).

(** The program after the start of the listener has failed. *)
Definition startup_failed (s : system) : Prop :=
  main_task (snd s) = M_returned ∧ fst s = C_created ∧ handlers (snd s) = ∅ ∧
  CONNECTED_CLIENTS (snd s) = ∅ ∧
  (EvCreateTask ExternalDataReceiver ∉ trace (snd s)) ∧
  (∀ c code reason, EvClose c code reason ∉ trace (snd s)) ∧
  ∃ m, EvLog CRITICAL m ∈ trace (snd s).

(** The main coroutine is suspended in [websockets.serve]. *)
Definition ex_serving_state : system :=
  match sys_run [S_world (A_main M_in_start)] initial_system with
  | Some s => s
  | None => initial_system
  end.

(** The start of the listener fails with [OSError(98)], address in use;
    later a signal arrives. *)
Definition ex_bind_failure_schedule : list sys_action :=
  [S_world (A_main (M_in_serve (Raised (OSError 98)))); S_world (A_signal 2)].

Definition ex_bind_failure_state : system :=
  match sys_run ex_bind_failure_schedule ex_serving_state with
  | Some s => s
  | None => initial_system
  end.

(** Events that are neither a connection attempt nor a retry wait. *)
Definition neutral (ev : event) : Prop :=
  match ev with
  | EvConnect _ | EvWaitShutdown _ => False
  | _ => True
  end.

(** The receiver between a connection attempt and the end of the
    [async with] block. *)
Definition rx_connected (pc : conn_pc) : bool :=
  match pc with
  | C_connecting | C_recv | C_gather _ _ | C_aexit _ => true
  | _ => false
  end.

(** The receiver before its first connection attempt or in a retry wait. *)
Definition rx_idle (pc : conn_pc) : bool :=
  match pc with
  | C_created | C_retry_wait => true
  | _ => false
  end.

Definition rx_terminal (pc : conn_pc) : bool :=
  match pc with
  | C_returned | C_raised _ => true
  | _ => false
  end.

(** How far the receiver is from its end once the event is set, and the
    number of send tasks a pending broadcast still waits for. *)
Definition rx_rank (pc : conn_pc) : nat :=
  match pc with
  | C_created => 5
  | C_connecting => 4
  | C_recv => 3
  | C_gather _ _ => 2
  | C_aexit _ => 1
  | C_retry_wait => 1
  | C_returned | C_raised _ => 0
  end.

Definition rx_undone (pc : conn_pc) : nat :=
  match pc with
  | C_gather _ tasks => length (filter (fun t => task_done t = false) tasks)
  | _ => 0
  end.

(** The upstream source refuses three connections and accepts the fourth;
    one frame is relayed to client 1; the source closes the connection; a
    signal arrives during the retry wait. *)
Definition ex_receiver_schedule : list sys_action :=
  ex_boot ++
  [S_world (A_accept 1%nat); S_world (A_handler 1%nat RC_in_start);
   S_receiver C_in_start;
   S_receiver (C_in_connect (Raised ConnectionRefusedError));
   S_receiver (C_in_retry_wait (Raised TimeoutError));
   S_receiver (C_in_connect (Raised ConnectionRefusedError));
   S_receiver (C_in_retry_wait (Raised TimeoutError));
   S_receiver (C_in_connect (Raised ConnectionRefusedError));
   S_receiver (C_in_retry_wait (Raised TimeoutError));
   S_receiver (C_in_connect (Returned tt));
   S_receiver (C_in_recv (Returned ex_message));
   S_receiver (C_in_broadcast (BC_in_task 0 (Returned tt)));
   S_receiver (C_in_broadcast BC_in_gather_done);
   S_receiver (C_in_recv (Raised ConnectionClosedOK));
   S_receiver (C_in_aexit (Returned tt));
   S_world (A_signal 2);
   S_receiver (C_in_retry_wait (Returned tt))].

Definition ex_receiver_state : system :=
  match sys_run ex_receiver_schedule initial_system with
  | Some s => s
  | None => initial_system
  end.

(** The state of the receiver in a retry wait, with the event set. *)
Definition ex_retry_wait_state : system :=
  match sys_run (take 18 ex_receiver_schedule) initial_system with
  | Some s => s
  | None => initial_system
  end.

(** The three kinds of steps of the receiver: a step that neither attempts
    a connection nor starts a retry wait, and ends the task or stays
    between a connection attempt and the end of the [async with] block; a
    connection attempt, made from the start of the task or from a retry
    wait while the event is not set; the start of a retry wait, on the way
    out of a connection attempt or of a connection. *)
Definition rx_step_kind (pc : conn_pc) (w : world) (pc' : conn_pc) (w' : world) : Prop :=
  (extends neutral w w' ∧
   (rx_terminal pc' = true ∨ (rx_connected pc' = true ∧ rx_connected pc = true))) ∨
  (rx_idle pc = true ∧ shutdown_event w = false ∧ pc' = C_connecting ∧
   ∃ evs, Forall neutral evs ∧ trace w' = trace w ++ evs ++ [EvConnect EXTERNAL_WS_URI]) ∨
  (rx_connected pc = true ∧ shutdown_event w = false ∧ pc' = C_retry_wait ∧
   ∃ evs, Forall neutral evs ∧ trace w' = trace w ++ evs ++ [EvWaitShutdown RETRY_INTERVAL]).

(** The invariant behind the retry discipline: the scan of the trace has
    found no violation, and no wait is owed at the start of the task or in
    a retry wait. *)
Definition retry_inv (s : system) : Prop :=
  ∃ owed, wait_scan (trace (snd s)) = Some owed ∧ (rx_idle (fst s) = true → owed = false).

(** ** Further observations *)

Definition world_run : list action → world → option world := run world_step.

(** The events a segment of [register_client] can add when it starts with
    the event being [flag]: log records, the creation and cancellation of
    tasks, and a close with the shutdown code, the latter only when the
    event is set. *)
Definition handler_event (flag : bool) (ev : event) : Prop :=
  match ev with
  | EvLog _ _ | EvCancel _ => True
  | EvCreateTask (ClientWait _) | EvCreateTask (ClientShutdownListen _) => True
  | EvClose _ code reason =>
      code = 1012 ∧ reason = "Server shutting down"%string ∧ flag = true
  | _ => False
  end.

(** The events [main_server_logic] can add. *)
Definition main_event (ev : event) : Prop :=
  match ev with
  | EvLog _ _ | EvCancel _ | EvServe _ _ | EvServerClose | EvServerWaitClosed _
  | EvWaitTasks _ _ => True
  | EvCreateTask ExternalDataReceiver | EvCreateTask ShutdownEventWatcher => True
  | _ => False
  end.

(** The events the receiver task and its broadcasts can add. *)
Definition receiver_event (ev : event) : Prop :=
  match ev with
  | EvLog _ _ | EvSend _ _ | EvConnect _ | EvUpstreamClose | EvCallBroadcast _
  | EvWaitShutdown _ => True
  | EvCreateTask (SendTo _) => True
  | _ => False
  end.

(** Every close of a client connection in the trace carries the shutdown
    code and reason, and there is none unless the event is [flag = true]. *)
Definition close_ok (flag : bool) (ev : event) : Prop :=
  match ev with
  | EvClose _ code reason =>
      code = 1012 ∧ reason = "Server shutting down"%string ∧ flag = true
  | _ => True
  end.

(** The number of calls of [server.close()] in a trace. *)
Definition server_closes (tr : list event) : nat :=
  length (omap (fun ev => match ev with EvServerClose => Some tt | _ => None end) tr).

(** The listener has not been closed before line 185, is closed once, and
    only with the event set. *)
Definition listener_inv (w : world) : Prop :=
  (server_closes (trace w) ≤ 1)%nat ∧
  (match main_task w with
   | M_not_started | M_serve | M_wait => server_closes (trace w) = 0%nat
   | _ => True
   end) ∧
  ((0 < server_closes (trace w))%nat → shutdown_event w = true).

(** Every send carries a non-empty message that the receiver has handed to
    the broadcast, and so does a broadcast in progress. *)
Definition forward_inv (s : system) : Prop :=
  (∀ c m, (c, m) ∈ sends (trace (snd s)) →
          m ≠ ""%string ∧ m ∈ broadcast_calls (trace (snd s))) ∧
  (∀ m, m ∈ broadcast_calls (trace (snd s)) → m ≠ ""%string) ∧
  (match fst s with
   | C_gather m _ => m ≠ ""%string ∧ m ∈ broadcast_calls (trace (snd s))
   | _ => True
   end).

(** A sequence of events added to the trace, oldest first. *)
Definition emits (evs : list event) (w : world) : world :=
  foldl (fun w ev => emit ev w) w evs.

(** The error records of line 96 for the tasks that raised, in task order. *)
Definition send_error_events (tasks : list send_task) : list event :=
  omap (fun t => match task_result t with
                 | Some (Raised e) => Some (EvLog ERROR (Log_error_sending (task_get_name t) e))
                 | _ => None
                 end) tasks.

(** The tasks of a snapshot once each has run, task [k] with result
    [results k]. *)
Definition finished_tasks (results : nat → outcome unit) (clients : list client)
  : list send_task :=
  imap (fun k c => mkTask c (Some (results k))) clients.

(** What the receiver gets from an idle upstream connection: a receive
    timeout or an empty frame. *)
Definition idle_recv (r : outcome message) : Prop :=
  r = Raised TimeoutError ∨ r = Returned ""%string.

(** The inputs of the main coroutine, suspended at line 160, when the
    watcher task is done and the receiver task is not: the bounded wait for
    the listener ends with [r2], and the receiver is then done or not as
    [external_done] says. *)
Definition signal_shutdown_inputs (r2 : outcome unit) (external_done : bool)
    (is_done : task_name → bool) : list main_input :=
  [M_in_wait None true; M_in_server_closed r2 external_done true]
  ++ (if external_done then [] else [M_in_join (Returned tt) is_done]).

Definition signal_shutdown_trace (r2 : outcome unit) (external_done : bool) : list event :=
  [EvLog INFO Log_shutdown_triggered; EvLog INFO Log_initiating_shutdown;
   EvCancel ExternalDataReceiver;
   EvLog INFO Log_closing_server; EvServerClose; EvServerWaitClosed 5]
  ++ [match r2 with
      | Returned _ => EvLog INFO Log_server_closed
      | _ => EvLog WARNING Log_timeout_server_close
      end]
  ++ (if external_done then []
      else [EvLog INFO (Log_waiting_main_tasks [ExternalDataReceiver]);
            EvWaitTasks [ExternalDataReceiver] 10])
  ++ [EvLog INFO Log_shutdown_complete].

(** Client 1 is registered and its session waits at line 43; its peer has
    closed the connection. *)
Definition ex_peer_closed_world : world :=
  mkWorld {[1%nat; 3%nat]} false
          (list_to_map [(1%nat, Closed); (3%nat, Active)])
          (list_to_map [(1%nat, RC_wait); (3%nat, RC_wait)])
          M_wait [].

(** Clients 1 and 3 are registered and open, and the event is set. *)
Definition ex_set_world : world :=
  mkWorld {[1%nat; 3%nat]} true
          (list_to_map [(1%nat, Active); (3%nat, Active)])
          (list_to_map [(1%nat, RC_wait); (3%nat, RC_wait)])
          M_wait [].

(** The events [main_server_logic] can add once the listener is closed. *)
Definition after_close_event (ev : event) : Prop :=
  match ev with
  | EvLog _ _ | EvCancel _ | EvWaitTasks _ _ => True
  | _ => False
  end.

Definition not_server_close (ev : event) : Prop :=
  match ev with EvServerClose => False | _ => True end.

(** The events of the receiver other than a send and the hand-over of a
    message to the broadcast. *)
Definition receiver_quiet_event (ev : event) : Prop :=
  match ev with
  | EvLog _ _ | EvConnect _ | EvUpstreamClose | EvWaitShutdown _ => True
  | EvCreateTask (SendTo _) => True
  | _ => False
  end.

(** The non-empty frame an action delivers to the receiver, if any. *)
Definition frames (a : sys_action) : list message :=
  match a with
  | S_receiver (C_in_recv (Returned m)) => if bool_decide (m ≠ ""%string) then [m] else []
  | _ => []
  end.

(** A whole life of the server: the listener starts, client 1 registers,
    the receiver connects and forwards one message and drops an empty
    frame, a signal arrives, the session of client 1 is closed, and the main
    coroutine runs the shutdown sequence while the receiver is cancelled. *)
Definition ex_life_schedule : list sys_action :=
  ex_boot ++
  [S_world (A_accept 1%nat); S_world (A_handler 1%nat RC_in_start);
   S_receiver C_in_start;
   S_receiver (C_in_connect (Returned tt));
   S_receiver (C_in_recv (Returned ex_message));
   S_receiver (C_in_broadcast (BC_in_task 0 (Returned tt)));
   S_receiver (C_in_broadcast BC_in_gather_done);
   S_receiver (C_in_recv (Returned ""%string));
   S_world (A_signal 2);
   S_world (A_handler 1%nat (RC_in_wait_done false true));
   S_world (A_handler 1%nat (RC_in (Returned tt)));
   S_world (A_handler 1%nat (RC_in Cancelled));
   S_world (A_main (M_in_wait None true));
   S_receiver (C_in_recv Cancelled);
   S_receiver (C_in_aexit (Returned tt));
   S_world (A_main (M_in_server_closed (Returned tt) true true))].

Definition ex_life_state : system :=
  match sys_run ex_life_schedule initial_system with
  | Some s => s
  | None => initial_system
  end.

(** The first send fails, the others succeed. *)
Definition ex_results (k : nat) : outcome unit :=
  match k with
  | O => Raised ConnectionClosedError
  | _ => Returned tt
  end.

(** With the event set: client 5 connects and is rejected, and the session
    of client 1 is closed. *)
Definition ex_late_actions : list action :=
  [A_accept 5%nat; A_handler 5%nat RC_in_start; A_handler 5%nat (RC_in (Returned tt));
   A_handler 1%nat (RC_in_wait_done false true);
   A_handler 1%nat (RC_in (Returned tt));
   A_handler 1%nat (RC_in Cancelled);
   A_signal 15].

Definition ex_late_world : world :=
  match world_run ex_late_actions ex_set_world with
  | Some w => w
  | None => ex_set_world
  end.

(** What holds of the main coroutine from its wait at line 160 on, when
    the listener had been closed [c0] times before: the shutdown sequence
    sets the event and closes the listener once, and a normal return is
    preceded by the record of line 218. *)
Definition after_wait_inv (c0 : nat) (s : main_pc * world) : Prop :=
  match fst s with
  | M_not_started | M_serve => False
  | M_wait => server_closes (trace (snd s)) = c0
  | M_raised _ => True
  | M_returned =>
      shutdown_event (snd s) = true ∧ server_closes (trace (snd s)) = S c0 ∧
      last (trace (snd s)) = Some (EvLog INFO Log_shutdown_complete)
  | _ => shutdown_event (snd s) = true ∧ server_closes (trace (snd s)) = S c0
  end.

(** The state of the main coroutine after the shutdown sequence that a
    signal has triggered. *)
Definition ex_shutdown_done_world : world :=
  match main_run (signal_shutdown_inputs (Returned tt) false (fun _ => true))
                 (M_wait, ex_set_world) with
  | Some (_, w) => w
  | None => ex_set_world
  end.

(** A signal arrives while the receiver waits for a frame; the receive
    times out and the upstream connection is closed. *)
Definition ex_stop_schedule : list sys_action :=
  [S_world (A_signal 15);
   S_receiver (C_in_recv (Raised TimeoutError));
   S_receiver (C_in_aexit (Returned tt))].

Definition ex_stop_state : system :=
  match sys_run ex_stop_schedule (C_recv, ex_world) with
  | Some s => s
  | None => initial_system
  end.

(** ** A signal delivered inside a segment *)

(** Line 234 installs [os_signal_handler] with [signal.signal]: the
    interpreter runs it in the main thread between two bytecodes of whatever
    executes there, also in the middle of a segment of a coroutine, and in
    the middle of an earlier run of the handler itself.  The handler reads
    and writes the event and the log only, so where it runs inside a segment
    matters where the segment has tested the event, found it unset, and
    goes on to act on that answer: between lines 29 and 37, 104 and 106,
    127 and 129, 176 and 177, and, in the handler, between lines 226 and
    227.  A delivery at another point of a segment gives the state and the
    events of a delivery before or after the segment or at one of these
    points; only the place of the handler's records among those of the
    segment differs.  [sys_step] delivers a signal between two segments;
    [fine_step] below adds the deliveries at these five points. *)

(** What remains of a segment of a coroutine after a test of the event that
    found it unset. *)
Inductive co_frame :=
| Fr_register (c : client)             (* register_client of c, between lines 29 and 37 *)
| Fr_connect                           (* the receiver, between lines 104 and 106 *)
| Fr_retry_wait                        (* the receiver, between lines 127 and 129 *)
| Fr_set (pending : list task_name).   (* main_server_logic, between lines 176 and 177 *)

(** Lines 37-46: line 29 has found the event unset. *)
Definition rc_register (c : client) (w : world) : rc_pc * world :=
  let w := clients_add c w in
  let w := logger INFO (Log_client_connected (remote_address c)
                                             (size (CONNECTED_CLIENTS w))) w in
  let w := emit (EvCreateTask (ClientWait (remote_address c))) w in
  let w := emit (EvCreateTask (ClientShutdownListen (remote_address c))) w in
  (RC_wait, w).

(** Lines 106-107: line 104 has found the event unset. *)
Definition rx_connect (w : world) : conn_pc * world :=
  let w := logger INFO (Log_attempting_connect EXTERNAL_WS_URI) w in
  (C_connecting, emit (EvConnect EXTERNAL_WS_URI) w).

(** Line 129: line 127 has found the event unset. *)
Definition rx_retry_wait (w : world) : conn_pc * world :=
  (C_retry_wait, emit (EvWaitShutdown RETRY_INTERVAL) w).

(** Lines 177-187: line 176 has found the event unset. *)
Definition main_from_set (pending : list task_name) (w : world) : main_pc * world :=
  let w := event_set w in
  let w := foldl (fun w task => emit (EvCancel task) w) w pending in
  let w := logger INFO Log_closing_server w in
  let w := emit EvServerClose w in
  (M_server_wait_closed, emit (EvServerWaitClosed 5) w).

(** The two tests of the event in the receiver that are followed by an
    effect in the same segment. *)
Inductive rx_test := At_104 | At_127.

(** The test of the event that a segment of the receiver reaches first,
    with the world at that point: line 104 from the start of the task and
    from the end of a retry wait, line 127 from the end of the [try]
    statement. *)
Definition rx_to_test (i : conn_input) (pc : conn_pc) (w : world)
  : option (rx_test * world) :=
  match pc, i with
  | C_created, C_in_start =>
      if task_created ExternalDataReceiver w
      then Some (At_104, logger INFO Log_receiver_started w) else None
  | C_connecting, C_in_connect (Raised e) => Some (At_127, rx_outer_except e w)
  | C_aexit false, C_in_aexit (Returned _) => Some (At_127, w)
  | C_aexit _, C_in_aexit (Raised e) => Some (At_127, rx_outer_except e w)
  | C_retry_wait, C_in_retry_wait (Returned _) =>
      if shutdown_event w then Some (At_104, w) else None
  | C_retry_wait, C_in_retry_wait (Raised TimeoutError) => Some (At_104, w)
  | _, _ => None
  end.

(** Lines 165-176: the segment of [main_server_logic] after its wait, up
    to the test of line 176, with the tasks still pending. *)
Definition main_to_test (i : main_input) (pc : main_pc) (w : world)
  : option (list task_name * world) :=
  match pc, i with
  | M_wait, M_in_wait external_data_task shutdown_wait_done =>
      if implb shutdown_wait_done (shutdown_event w) then
        let pending :=
          (if shutdown_wait_done then [] else [ShutdownEventWatcher]) ++
          (match external_data_task with Some _ => [] | None => [ExternalDataReceiver] end) in
        match external_data_task with
        | Some r =>
            let w := logger WARNING Log_external_task_finished w in
            match r with
            | Returned _ => Some (pending, logger INFO Log_initiating_shutdown w)
            | Raised e =>
                Some (pending,
                      logger INFO Log_initiating_shutdown
                             (logger ERROR (Log_external_task_exception e) w))
            | Cancelled => None
            end
        | None =>
            if shutdown_wait_done then
              Some (pending,
                    logger INFO Log_initiating_shutdown (logger INFO Log_shutdown_triggered w))
            else
              Some (pending,
                    logger INFO Log_initiating_shutdown
                           (logger WARNING Log_wait_returned_unexpectedly w))
        end
      else None
  | _, _ => None
  end.

(** The state of the program with what is interrupted: the segment of a
    coroutine that a signal has interrupted after its test, if any, and the
    number of runs of the handler interrupted between lines 226 and 227
    (the innermost one continues first). *)
Record fine_state := mkFine {
  fine_sys : system;
  fine_frame : option co_frame;
  fine_handlers : nat
}.

Definition fine_world (fs : fine_state) : world := snd (fine_sys fs).

Definition fine_idle (fs : fine_state) : bool :=
  match fine_frame fs, fine_handlers fs with
  | None, O => true
  | _, _ => false
  end.

Definition fine_set_world (w : world) (fs : fine_state) : fine_state :=
  mkFine (fst (fine_sys fs), w) (fine_frame fs) (fine_handlers fs).

Inductive fine_action :=
| F_sys (a : sys_action)        (* a segment with no signal inside, or a step of the environment *)
| F_begin (a : sys_action)      (* a segment up to its test of the event, which finds it unset *)
| F_signal (sig : Z)            (* the handler, from its call to its return *)
| F_begin_signal (sig : Z)      (* the handler up to line 226, which finds the event unset *)
| F_continue.                   (* the innermost interrupted code runs to its end *)

(** A segment run up to its test of the event. *)
Definition fine_begin (a : sys_action) (s : system) : option (co_frame * system) :=
  match a with
  | S_world (A_handler c RC_in_start) =>
      match handlers (snd s) !! c with
      | Some RC_accepted => Some (Fr_register c, s)
      | _ => None
      end
  | S_world (A_main i) =>
      match main_to_test i (main_task (snd s)) (snd s) with
      | Some (pending, w) => Some (Fr_set pending, (fst s, w))
      | None => None
      end
  | S_receiver i =>
      match rx_to_test i (fst s) (snd s) with
      | Some (At_104, w) => Some (Fr_connect, (fst s, w))
      | Some (At_127, w) => Some (Fr_retry_wait, (fst s, w))
      | None => None
      end
  | _ => None
  end.

(** The rest of an interrupted segment. *)
Definition fine_continue (fr : co_frame) (s : system) : system :=
  match fr with
  | Fr_register c =>
      let (pc, w) := rc_register c (snd s) in (fst s, set_handler c pc w)
  | Fr_connect => rx_connect (snd s)
  | Fr_retry_wait => rx_retry_wait (snd s)
  | Fr_set pending =>
      let (pc, w) := main_from_set pending (snd s) in (fst s, set_main pc w)
  end.

(** Segments start only when nothing is interrupted: the event loop starts
    them one after the other.  A signal is delivered at any time. *)
Definition fine_step (a : fine_action) (fs : fine_state) : option fine_state :=
  match a with
  | F_sys a =>
      if fine_idle fs then
        match sys_step a (fine_sys fs) with
        | Some s => Some (mkFine s None O)
        | None => None
        end
      else None
  | F_begin a =>
      if fine_idle fs then
        match fine_begin a (fine_sys fs) with
        | Some (fr, s) =>
            if shutdown_event (snd s) then None else Some (mkFine s (Some fr) O)
        | None => None
        end
      else None
  | F_signal sig => Some (fine_set_world (os_signal_handler sig (fine_world fs)) fs)
  | F_begin_signal sig =>
      let w := logger INFO (Log_received_signal sig) (fine_world fs) in
      if shutdown_event w then None
      else Some (mkFine (fst (fine_sys fs), w) (fine_frame fs) (S (fine_handlers fs)))
  | F_continue =>
      match fine_handlers fs, fine_frame fs with
      | S n, _ =>
          Some (mkFine (fst (fine_sys fs), event_set (fine_world fs)) (fine_frame fs) n)
      | O, Some fr => Some (mkFine (fine_continue fr (fine_sys fs)) None O)
      | O, None => None
      end
  end.

Definition fine_run : list fine_action → fine_state → option fine_state := run fine_step.

Definition fine_initial : fine_state := mkFine initial_system None O.

(** The connection attempt that an interrupted receiver is about to make. *)
Definition owed_connect (fs : fine_state) : list string :=
  match fine_frame fs with
  | Some Fr_connect => [EXTERNAL_WS_URI]
  | _ => []
  end.

(** The client that an interrupted handler is about to register. *)
Definition owed_client (fs : fine_state) : gset client :=
  match fine_frame fs with
  | Some (Fr_register c) => {[c]}
  | _ => ∅
  end.

(** The claim that no connection attempt is begun once the event is set. *)
Definition no_connect_once_set : Prop :=
  ∀ acts fs a fs',
    fine_run acts fine_initial = Some fs →
    shutdown_event (fine_world fs) = true →
    fine_step a fs = Some fs' →
    connect_attempts (trace (fine_world fs')) = connect_attempts (trace (fine_world fs)).

(** The claim that a send is attempted only to a client whose connection is
    [Active] at the time of the attempt. *)
Definition sends_only_to_active : Prop :=
  ∀ acts s a s' c m,
    sys_run acts initial_system = Some s →
    sys_step a s = Some s' →
    sends (trace (snd s')) = sends (trace (snd s)) ++ [(c, m)] →
    conn (snd s) !! c = Some Active.

(** The listener is up and the receiver task has started: it has found the
    event unset at line 104 and has not yet called [connect]; a signal
    arrives. *)
Definition ex_interrupted_schedule : list fine_action :=
  map F_sys ex_boot ++ [F_begin (S_receiver C_in_start); F_signal 2].

Definition ex_interrupted_state : fine_state :=
  match fine_run ex_interrupted_schedule fine_initial with
  | Some fs => fs
  | None => fine_initial
  end.

(** The receiver goes on to line 107, the connection is refused, and the
    task ends at the head of the loop. *)
Definition ex_late_connect_schedule : list fine_action :=
  [F_continue;
   F_sys (S_receiver (C_in_connect (Raised ConnectionRefusedError)))].

Definition ex_late_connect_state : fine_state :=
  match fine_run ex_late_connect_schedule ex_interrupted_state with
  | Some fs => fs
  | None => fine_initial
  end.

(** The listener is up and the handler of client 1 has found the event
    unset at line 29; a signal arrives before line 37, and a second one
    while the handler of the first is between lines 226 and 227. *)
Definition ex_late_register_start : fine_state :=
  match fine_run (map F_sys ex_boot ++
                  [F_sys (S_world (A_accept 1%nat));
                   F_begin (S_world (A_handler 1%nat RC_in_start));
                   F_begin_signal 2; F_signal 2; F_continue])
                 fine_initial with
  | Some fs => fs
  | None => fine_initial
  end.

(** Client 1 is registered all the same; client 5 then connects and is
    rejected, and the session of client 1 is closed. *)
Definition ex_late_register_schedule : list fine_action :=
  F_continue ::
  map F_sys
    [S_world (A_accept 5%nat); S_world (A_handler 5%nat RC_in_start);
     S_world (A_handler 5%nat (RC_in (Returned tt)));
     S_world (A_handler 1%nat (RC_in_wait_done false true));
     S_world (A_handler 1%nat (RC_in (Returned tt)))].

Definition ex_late_register_state : fine_state :=
  match fine_run ex_late_register_schedule ex_late_register_start with
  | Some fs => fs
  | None => fine_initial
  end.

(** Client 1 is registered and a frame is being relayed to it; its peer
    closes the connection after the snapshot of line 82 and before the send
    task runs. *)
Definition ex_stale_send_schedule : list sys_action :=
  ex_boot ++
  [S_world (A_accept 1%nat); S_world (A_handler 1%nat RC_in_start);
   S_receiver C_in_start;
   S_receiver (C_in_connect (Returned tt));
   S_receiver (C_in_recv (Returned ex_message));
   S_world (A_conn 1%nat Closed)].

Definition ex_stale_send_state : system :=
  match sys_run ex_stale_send_schedule initial_system with
  | Some s => s
  | None => initial_system
  end.

(** The send task of client 1 runs. *)
Definition ex_stale_sent_state : system :=
  match sys_step (S_receiver (C_in_broadcast (BC_in_task 0 (Returned tt))))
                 ex_stale_send_state with
  | Some s => s
  | None => initial_system
  end.

(** * Properties *)

(** ** Primitive operations on the world *)

Lemma logger_DEBUG m w : logger DEBUG m w = w.
Proof. reflexivity. Qed.

Lemma logger_INFO m w : logger INFO m w = emit (EvLog INFO m) w.
Proof. reflexivity. Qed.

Lemma logger_WARNING m w : logger WARNING m w = emit (EvLog WARNING m) w.
Proof. reflexivity. Qed.

Lemma logger_ERROR m w : logger ERROR m w = emit (EvLog ERROR m) w.
Proof. reflexivity. Qed.

Lemma logger_CRITICAL m w : logger CRITICAL m w = emit (EvLog CRITICAL m) w.
Proof. reflexivity. Qed.

Create Rewrite HintDb world.
#[local] Hint Rewrite logger_DEBUG logger_INFO logger_WARNING logger_ERROR
  logger_CRITICAL : world.

Ltac wsimpl :=
  autorewrite with world;
  cbn [CONNECTED_CLIENTS shutdown_event conn handlers main_task trace
       emit clients_add clients_remove event_set set_conn set_handler set_main
       fst snd].

Lemma same_shared_refl w : same_shared w w.
Proof. by repeat split. Qed.

Lemma same_shared_emit ev w w' : same_shared w w' → same_shared w (emit ev w').
Proof. intros H. exact H. Qed.

Lemma same_shared_logger l m w w' : same_shared w w' → same_shared w (logger l m w').
Proof. intros H. unfold logger. destruct (isEnabledFor l); exact H. Qed.

Lemma extends_refl P w : extends P w w.
Proof. exists []. split; [by rewrite app_nil_r | constructor]. Qed.

Lemma extends_trans P w1 w2 w3 : extends P w1 w2 → extends P w2 w3 → extends P w1 w3.
Proof.
  intros (e1 & H1 & F1) (e2 & H2 & F2). exists (e1 ++ e2). split.
  - by rewrite H2, H1, app_assoc.
  - by apply Forall_app.
Qed.

Lemma extends_emit (P : event → Prop) ev w w' :
  P ev → extends P w w' → extends P w (emit ev w').
Proof.
  intros Hev H. eapply extends_trans; [exact H |].
  exists [ev]. split; [reflexivity | by constructor].
Qed.

Lemma extends_logger (P : event → Prop) l m w w' :
  P (EvLog l m) → extends P w w' → extends P w (logger l m w').
Proof.
  intros Hev H. unfold logger. destruct (isEnabledFor l); [by apply extends_emit | exact H].
Qed.

Lemma extends_same_trace P w w' w'' :
  trace w'' = trace w' → extends P w w' → extends P w w''.
Proof. intros Heq (evs & H & F). exists evs. by rewrite Heq. Qed.

Lemma extends_id P w w' : trace w' = trace w → extends P w w'.
Proof. intros H. apply extends_same_trace with w; [done | apply extends_refl]. Qed.

Lemma extends_weaken (P Q : event → Prop) w w' :
  (∀ ev, P ev → Q ev) → extends P w w' → extends Q w w'.
Proof. intros HPQ (evs & H & F). exists evs. split; [done |]. eapply Forall_impl; eauto. Qed.

Lemma sends_app tr1 tr2 : sends (tr1 ++ tr2) = sends tr1 ++ sends tr2.
Proof. apply omap_app. Qed.

Lemma sends_world_events evs : Forall world_event evs → sends evs = [].
Proof.
  induction 1 as [| ev evs Hev _ IH]; [done |].
  unfold sends in *. cbn. destruct ev; try done.
Qed.

Lemma extends_world_sends w w' : extends world_event w w' → sends (trace w') = sends (trace w).
Proof.
  intros (evs & -> & F). by rewrite sends_app, (sends_world_events evs F), app_nil_r.
Qed.

(** ** What the segments of the handler, the signal handler and the main
    coroutine change *)

Lemma rc_finally_spec c w :
  CONNECTED_CLIENTS (rc_finally c w) = CONNECTED_CLIENTS w ∖ {[c]} ∧
  keeps_control w (rc_finally c w) ∧
  extends world_event w (rc_finally c w).
Proof.
  unfold rc_finally, keeps_control. case_bool_decide; wsimpl.
  - repeat split. apply extends_emit; [done |].
    apply extends_same_trace with w; [done | apply extends_refl].
  - repeat split; [set_solver |]. apply extends_emit; [done | apply extends_refl].
Qed.

Ltac rc_finally_facts c w :=
  let HX := fresh "HX" in
  let HK := fresh "HK" in
  let HE := fresh "HE" in
  destruct (rc_finally_spec c w) as (HX & HK & HE).

Lemma keeps_control_refl w : keeps_control w w.
Proof. by repeat split. Qed.

Lemma register_client_spec c w pc' w' :
  register_client c w = (pc', w') →
  keeps_control w w' ∧ extends world_event w w' ∧
  ((shutdown_event w = true ∧ pc' = RC_reject_close ∧
    CONNECTED_CLIENTS w' = CONNECTED_CLIENTS w) ∨
   (shutdown_event w = false ∧ pc' = RC_wait ∧
    CONNECTED_CLIENTS w' = {[c]} ∪ CONNECTED_CLIENTS w)).
Proof.
  unfold register_client. destruct (shutdown_event w) eqn:Hs; intros [= <- <-]; wsimpl.
  - split; [by repeat split |]. split; [| by left].
    repeat (apply extends_emit; [done |]). apply extends_refl.
  - split; [by repeat split |]. split; [| by right].
    repeat (apply extends_emit; [done |]).
    apply extends_same_trace with w; [done | apply extends_refl].
Qed.

Lemma rc_except_spec c e w :
  fst (rc_except c e w) = RC_returned ∧
  CONNECTED_CLIENTS (snd (rc_except c e w)) = CONNECTED_CLIENTS w ∖ {[c]} ∧
  keeps_control w (snd (rc_except c e w)) ∧
  extends world_event w (snd (rc_except c e w)).
Proof.
  unfold rc_except. cbn [fst snd].
  match goal with |- context [rc_finally c ?w0] => rc_finally_facts c w0 end.
  destruct e; wsimpl; repeat split; try done; try apply HK;
    (eapply extends_trans; [| exact HE]);
    apply extends_emit; try done; apply extends_refl.
Qed.

Lemma rc_cancel_pending_spec c pending w :
  let r := rc_cancel_pending c pending w in
  keeps_control w (snd r) ∧ extends world_event w (snd r) ∧
  ((fst r = RC_returned ∧ CONNECTED_CLIENTS (snd r) = CONNECTED_CLIENTS w ∖ {[c]}) ∨
   (rc_registered (fst r) = true ∧ CONNECTED_CLIENTS (snd r) = CONNECTED_CLIENTS w)).
Proof.
  destruct pending as [| task rest]; cbn.
  - rc_finally_facts c w. by eauto.
  - split; [by repeat split |]. split; [| by right].
    apply extends_emit; [done | apply extends_refl].
Qed.

Lemma rc_after_wait_spec c d1 d2 w :
  let r := rc_after_wait c d1 d2 w in
  keeps_control w (snd r) ∧ extends world_event w (snd r) ∧
  ((fst r = RC_returned ∧ CONNECTED_CLIENTS (snd r) = CONNECTED_CLIENTS w ∖ {[c]}) ∨
   (rc_registered (fst r) = true ∧ CONNECTED_CLIENTS (snd r) = CONNECTED_CLIENTS w)).
Proof.
  unfold rc_after_wait. cbn zeta.
  set (pending := (_ ++ _)). clearbody pending.
  destruct d2.
  - rewrite logger_INFO. unfold is_closed. cbn [conn emit].
    case_bool_decide; cbn [negb].
    + destruct (rc_cancel_pending_spec c pending
                  (emit (EvLog INFO (Log_closing_client (remote_address c))) w))
        as (HK & HE & HR).
      split; [exact HK |]. split; [| exact HR].
      eapply extends_trans; [| exact HE]. apply extends_emit; [done | apply extends_refl].
    + cbn [fst snd]. split; [by repeat split |]. split; [| by right].
      repeat (apply extends_emit; [done |]). apply extends_refl.
  - apply rc_cancel_pending_spec.
Qed.

(** A segment of the handler of [c] changes the registry at most at [c],
    keeps membership of [c] in step with the program counter, and adds
    only events of its own kind to the trace. *)
Lemma rc_resume_spec c i pc w pc' w' :
  rc_resume c i pc w = Some (pc', w') →
  keeps_control w w' ∧ extends world_event w w' ∧
  (∀ c', c' ≠ c → c' ∈ CONNECTED_CLIENTS w' ↔ c' ∈ CONNECTED_CLIENTS w) ∧
  ((c ∈ CONNECTED_CLIENTS w ↔ rc_registered pc = true) →
   (c ∈ CONNECTED_CLIENTS w' ↔ rc_registered pc' = true)).
Proof.
  intros H.
  assert (Hgen :
    keeps_control w w' ∧ extends world_event w w' ∧
    ((rc_registered pc' = false ∧ rc_registered pc = false ∧
      CONNECTED_CLIENTS w' = CONNECTED_CLIENTS w) ∨
     (rc_registered pc' = false ∧ CONNECTED_CLIENTS w' = CONNECTED_CLIENTS w ∖ {[c]}) ∨
     (rc_registered pc' = true ∧ rc_registered pc = true ∧
      CONNECTED_CLIENTS w' = CONNECTED_CLIENTS w) ∨
     (rc_registered pc' = true ∧ CONNECTED_CLIENTS w' = {[c]} ∪ CONNECTED_CLIENTS w))).
  { destruct pc as [| | | pending | rest | | r0], i as [| d1 d2 | r];
      try discriminate H; cbn [rc_resume] in H.
    - destruct (register_client c w) as [pc0 w0] eqn:Hrc.
      apply register_client_spec in Hrc as (HK & HE & HR).
      injection H as <- <-. split; [done |]. split; [done |].
      destruct HR as [(_ & -> & ->) | (_ & -> & ->)]; [by left | by right; right; right].
    - unfold rc_after_reject_close in H.
      destruct r as [[] | e |]; try destruct (isinstance_ConnectionClosed e);
        injection H as <- <-;
        (split; [apply keeps_control_refl |]); (split; [apply extends_refl |]); by left.
    - destruct (wait_done_possible c d1 d2 w); [| discriminate H].
      apply (inj Some) in H. destruct (rc_after_wait_spec c d1 d2 w) as (HK & HE & HR).
      rewrite H in HK, HE, HR. cbn [fst snd] in *.
      split; [done |]. split; [done |].
      destruct HR as [[-> ->] | [-> ->]]; [by right; left | by right; right; left].
    - destruct r as [[] | e |]; try discriminate H.
      + apply (inj Some) in H. destruct (rc_except_spec c e w) as (Hpc & HX & HK & HE).
        rewrite H in Hpc, HX, HK, HE. cbn [fst snd] in *. subst pc'.
        split; [done |]. split; [done |]. by right; left.
      + injection H as <- <-. rc_finally_facts c w.
        split; [done |]. split; [done |]. by right; left.
    - destruct r as [[] | e |].
      + apply (inj Some) in H. destruct (rc_cancel_pending_spec c pending w) as (HK & HE & HR).
        rewrite H in HK, HE, HR. cbn [fst snd] in *.
        split; [done |]. split; [done |].
        destruct HR as [[-> ->] | [-> ->]]; [by right; left | by right; right; left].
      + apply (inj Some) in H. destruct (rc_except_spec c e w) as (Hpc & HX & HK & HE).
        rewrite H in Hpc, HX, HK, HE. cbn [fst snd] in *. subst pc'.
        split; [done |]. split; [done |]. by right; left.
      + injection H as <- <-. rc_finally_facts c w.
        split; [done |]. split; [done |]. by right; left.
    - assert (Hcases :
        rc_cancel_pending c rest w = (pc', w') ∨ ∃ e, rc_except c e w = (pc', w')).
      { destruct r as [[] | e |]; apply (inj Some) in H; eauto. }
      clear H. destruct Hcases as [H | [e H]].
      + destruct (rc_cancel_pending_spec c rest w) as (HK & HE & HR).
        rewrite H in HK, HE, HR. cbn [fst snd] in *.
        split; [done |]. split; [done |].
        destruct HR as [[-> ->] | [-> ->]]; [by right; left | by right; right; left].
      + destruct (rc_except_spec c e w) as (Hpc & HX & HK & HE).
        rewrite H in Hpc, HX, HK, HE. cbn [fst snd] in *. subst pc'.
        split; [done |]. split; [done |]. by right; left. }
  destruct Hgen as (HK & HE & HR). split; [done |]. split; [done |].
  destruct HR as [(Hp' & Hp & ->) | [(Hp' & ->) | [(Hp' & Hp & ->) | (Hp' & ->)]]];
    rewrite ?Hp', ?Hp; split; try set_solver.
Qed.

Lemma keeps_clients_refl P w : keeps_clients P w w.
Proof. repeat split; try done. apply extends_refl. Qed.

Lemma keeps_clients_emit (P : event → Prop) ev w w' :
  P ev → keeps_clients P w w' → keeps_clients P w (emit ev w').
Proof.
  intros Hev (?&?&?&?&?&?). repeat split; try done. by apply extends_emit.
Qed.

Lemma keeps_clients_logger (P : event → Prop) l m w w' :
  P (EvLog l m) → keeps_clients P w w' → keeps_clients P w (logger l m w').
Proof.
  intros Hev H. unfold logger. destruct (isEnabledFor l); [by apply keeps_clients_emit | done].
Qed.

Lemma keeps_clients_event_set P w w' :
  keeps_clients P w w' → keeps_clients P w (event_set w').
Proof.
  intros (?&?&?&?&?&?). by split_and!.
Qed.

(** Discharges [keeps_clients] for a segment built from [emit], [logger]
    and [event_set]. *)
Ltac keeps_clients_tac :=
  repeat first
    [ apply keeps_clients_refl
    | apply keeps_clients_emit; [done |]
    | apply keeps_clients_logger; [done |]
    | apply keeps_clients_event_set ].

Lemma os_signal_handler_spec sig w :
  keeps_clients world_event w (os_signal_handler sig w) ∧
  shutdown_event (os_signal_handler sig w) = true.
Proof.
  unfold os_signal_handler. rewrite logger_INFO. cbn [shutdown_event emit].
  destruct (shutdown_event w) eqn:Hs; cbn [negb].
  - split; [keeps_clients_tac | by rewrite logger_WARNING].
  - split; [keeps_clients_tac | done].
Qed.

Lemma main_finish_spec w0 w :
  keeps_clients world_event w0 w → keeps_clients world_event w0 (snd (main_finish w)).
Proof. intros H. unfold main_finish. cbn [snd]. by keeps_clients_tac. Qed.

Lemma cancel_all_spec pending w0 w :
  keeps_clients world_event w0 w →
  keeps_clients world_event w0 (foldl (fun w task => emit (EvCancel task) w) w pending).
Proof.
  revert w. induction pending as [| t rest IH]; intros w H; cbn [foldl]; [done |].
  apply IH. by keeps_clients_tac.
Qed.

Lemma cancel_all_flag pending w :
  shutdown_event (foldl (fun w task => emit (EvCancel task) w) w pending)
  = shutdown_event w.
Proof. revert w. induction pending as [| t rest IH]; intros w; cbn [foldl]; [done |]. by rewrite IH. Qed.

Lemma main_shutdown_sequence_spec pending w0 w :
  keeps_clients world_event w0 w →
  keeps_clients world_event w0 (snd (main_shutdown_sequence pending w)) ∧
  shutdown_event (snd (main_shutdown_sequence pending w)) = true ∧
  fst (main_shutdown_sequence pending w) = M_server_wait_closed.
Proof.
  intros H. unfold main_shutdown_sequence. cbn [fst snd]. split; [| split; [| done]].
  - keeps_clients_tac. apply cancel_all_spec.
    destruct (negb _); by keeps_clients_tac.
  - wsimpl. rewrite cancel_all_flag. by destruct (shutdown_event w) eqn:Hs; cbn; wsimpl.
Qed.

Lemma main_await_tasks_spec ed sd w0 w :
  keeps_clients world_event w0 w →
  keeps_clients world_event w0 (snd (main_await_tasks ed sd w)).
Proof.
  intros H. unfold main_await_tasks. destruct ed, sd; cbn [app fst snd];
    try apply main_finish_spec; by keeps_clients_tac.
Qed.

Lemma main_cancel_loop_spec todo is_done w0 w :
  keeps_clients world_event w0 w →
  keeps_clients world_event w0 (snd (main_cancel_loop todo is_done w)).
Proof.
  intros H. induction todo as [| t rest IH]; cbn [main_cancel_loop].
  - by apply main_finish_spec.
  - destruct (negb (is_done t)); [cbn [snd]; by keeps_clients_tac | done].
Qed.

Ltac use_snd H :=
  match type of H with
  | ?t = (_, ?w') =>
      let Hw := fresh "Hw" in
      assert (Hw : w' = snd t) by (by rewrite H); rewrite Hw
  end.

Ltac use_fst H :=
  match type of H with
  | ?t = (?pc', _) =>
      let Hp := fresh "Hp" in
      assert (Hp : pc' = fst t) by (by rewrite H); rewrite Hp
  end.

(** A segment of [main_server_logic] leaves the registry, the connections
    and the handlers alone and never clears the event. *)
Lemma main_resume_spec i pc w pc' w' :
  main_resume i pc w = Some (pc', w') → keeps_clients world_event w w'.
Proof.
  intros H.
  destruct pc as [| | | | ts | t rest | | r0],
           i as [| r | ext sd | r ed sd | r is_done | r is_done];
    try discriminate H; cbn [main_resume] in H.
  - apply (inj Some) in H. injection H as <- <-. by keeps_clients_tac.
  - apply (inj Some) in H. unfold main_after_serve in H.
    destruct r as [[] | e |];
      [| destruct (isinstance_OSError e); [destruct (errno_is e 10048) |] |];
      injection H as <- <-; by keeps_clients_tac.
  - destruct (implb sd (shutdown_event w)); [| discriminate H].
    apply (inj Some) in H. unfold main_after_wait in H.
    destruct ext as [[[] | e |] |]; [| | | destruct sd];
      try (use_snd H;
           apply main_shutdown_sequence_spec; by keeps_clients_tac).
    injection H as <- <-. by keeps_clients_tac.
  - apply (inj Some) in H. unfold main_after_server_closed in H.
    destruct r as [[] | e |]; [| destruct e |];
      try (injection H as <- <-; by keeps_clients_tac);
      use_snd H; apply main_await_tasks_spec; by keeps_clients_tac.
  - apply (inj Some) in H. unfold main_after_join in H.
    destruct r as [[] | e |]; [| destruct e |];
      try (injection H as <- <-; by keeps_clients_tac);
      use_snd H;
      first [apply main_finish_spec | apply main_cancel_loop_spec]; by keeps_clients_tac.
  - apply (inj Some) in H. unfold main_after_cancelled_task in H.
    destruct r as [[] | e |]; use_snd H;
      apply main_cancel_loop_spec; by keeps_clients_tac.
Qed.

(** ** Schedules *)

Lemma run_app {A S} (step : A → S → option S) acts1 acts2 s :
  run step (acts1 ++ acts2) s =
  match run step acts1 s with Some s' => run step acts2 s' | None => None end.
Proof.
  revert s. induction acts1 as [| a rest IH]; intros s; cbn; [done |].
  destruct (step a s); [apply IH | done].
Qed.

Lemma run_invariant {A S} (step : A → S → option S) (I : S → Prop) :
  (∀ a s s', step a s = Some s' → I s → I s') →
  ∀ acts s s', run step acts s = Some s' → I s → I s'.
Proof.
  intros Hstep acts. induction acts as [| a rest IH]; intros s s' Hrun Hs; cbn in Hrun.
  - by injection Hrun as <-.
  - destruct (step a s) as [s1 |] eqn:Ha; [| done]. eauto.
Qed.

(** ** Steps of the world *)

Lemma world_step_spec a w w' :
  world_step a w = Some w' →
  extends world_event w w' ∧ (shutdown_event w = true → shutdown_event w' = true).
Proof.
  destruct a as [c | c st | c i | sig | i]; cbn [world_step]; intros H.
  - destruct (_ && _); [| done]. injection H as <-.
    split; [by apply extends_id | done].
  - destruct (conn w !! c) as [old |]; [| done].
    destruct (conn_may_change old st); [| done]. injection H as <-.
    split; [by apply extends_id | done].
  - destruct (handlers w !! c) as [pc |]; [| done].
    destruct (rc_resume c i pc w) as [[pc' w1] |] eqn:Hrc; [| done]. injection H as <-.
    apply rc_resume_spec in Hrc as ((Hs & _) & HE & _). cbn. split; [done | congruence].
  - injection H as <-. destruct (os_signal_handler_spec sig w) as ((_&_&_&_&_&HE) & Hs).
    done.
  - destruct (main_resume i (main_task w) w) as [[pc' w1] |] eqn:Hm; [| done].
    injection H as <-. apply main_resume_spec in Hm as (_&_&_&_&Hs&HE). done.
Qed.

Lemma world_step_sends a w w' :
  world_step a w = Some w' → sends (trace w') = sends (trace w).
Proof. intros H. apply extends_world_sends. by apply world_step_spec in H as [? _]. Qed.


(** Membership in the registry follows the program counter of the session. *)
Lemma world_step_registry a w w' :
  world_step a w = Some w' → registry_iff_session w → registry_iff_session w'.
Proof.
  unfold registry_iff_session.
  destruct a as [c0 | c0 st | c0 i | sig | i]; cbn [world_step]; intros H Hinv c.
  - destruct (listening w); [| done]. case_bool_decide as Hfresh; [| done].
    injection H as <-. cbn. destruct Hfresh as [Hh _]. rewrite (Hinv c).
    destruct (decide (c = c0)) as [-> | Hne].
    + rewrite lookup_insert_eq, Hh. split; intros (pc & [= <-] & Hpc); done.
    + by rewrite lookup_insert_ne.
  - destruct (conn w !! c0) as [old |]; [| done].
    destruct (conn_may_change old st); [| done]. injection H as <-. cbn. apply Hinv.
  - destruct (handlers w !! c0) as [pc |] eqn:Hpc; [| done].
    destruct (rc_resume c0 i pc w) as [[pc' w1] |] eqn:Hrc; [| done]. injection H as <-.
    apply rc_resume_spec in Hrc as ((_ & _ & Hh & _) & _ & Hoth & Hown). cbn.
    destruct (decide (c = c0)) as [-> | Hne].
    + rewrite lookup_insert_eq. rewrite Hown.
      * split; [by eauto | by intros (? & [= <-] & ?)].
      * rewrite (Hinv c0), Hpc. split; [by intros (? & [= <-] & ?) | by eauto].
    + rewrite lookup_insert_ne by done. rewrite Hoth by done. rewrite Hh. apply Hinv.
  - injection H as <-.
    destruct (os_signal_handler_spec sig w) as ((-> & _ & -> & _) & _). apply Hinv.
  - destruct (main_resume i (main_task w) w) as [[pc' w1] |] eqn:Hm; [| done].
    injection H as <-. apply main_resume_spec in Hm as (HX & _ & Hh & _). cbn.
    rewrite HX, Hh. apply Hinv.
Qed.

(** ** Steps of a broadcast *)

Lemma create_send_tasks_spec clients_to_send tasks w :
  let r := create_send_tasks clients_to_send tasks w in
  fst r = tasks ++ map (fun c => mkTask c None)
                       (filter (fun c => is_open c w = true) clients_to_send) ∧
  same_shared w (snd r) ∧
  trace (snd r) = trace w ++ map (snapshot_event w) clients_to_send.
Proof.
  revert tasks w. induction clients_to_send as [| c rest IH]; intros tasks w.
  - cbn. by rewrite !app_nil_r.
  - cbn [create_send_tasks]. rewrite filter_cons. cbn [map].
    unfold snapshot_event at 1. destruct (is_open c w) eqn:Ho.
    + rewrite decide_True by done.
      match goal with |- context [create_send_tasks rest ?t ?w0] =>
        destruct (IH t w0) as (Hf & Hs & Ht) end.
      cbn zeta. rewrite Hf, Ht. cbn [trace emit map].
      rewrite <- !app_assoc. cbn [app]. by split_and!.
    + rewrite decide_False by done.
      match goal with |- context [create_send_tasks rest ?t ?w0] =>
        destruct (IH t w0) as (Hf & Hs & Ht) end.
      cbn zeta. rewrite Hf, Ht. rewrite logger_WARNING in *. cbn [trace emit map].
      rewrite <- !app_assoc. cbn [app]. by split_and!.
Qed.

Lemma sends_snapshot_events w cl : sends (map (snapshot_event w) cl) = [].
Proof.
  induction cl as [| c rest IH]; [done |].
  cbn. unfold snapshot_event at 1. by destruct (is_open c w).
Qed.

(** The call of [broadcast_message] up to line 91. *)
Lemma broadcast_message_spec message_str w :
  message_str ≠ ""%string →
  let r := broadcast_message message_str w in
  fst r = match open_snapshot w with
          | [] => BC_returned
          | _ => BC_gather message_str (map (fun c => mkTask c None) (open_snapshot w))
          end ∧
  same_shared w (snd r) ∧
  trace (snd r) = trace w ++ map (snapshot_event w) (elements (CONNECTED_CLIENTS w)).
Proof.
  intros Hne. unfold broadcast_message. rewrite bool_decide_eq_false_2 by done.
  case_bool_decide as Hreg.
  - rewrite logger_DEBUG.
    destruct (create_send_tasks_spec (elements (CONNECTED_CLIENTS w)) [] w)
      as (Hf & Hs & Ht).
    destruct (create_send_tasks _ _ _) as [tasks w1]. cbn [fst snd] in *.
    fold (open_snapshot w) in Hf. cbn [app] in Hf. subst tasks.
    destruct (open_snapshot w) as [| c0 l0]; cbn [map fst snd]; done.
  - rewrite logger_DEBUG. cbn [fst snd].
    unfold open_snapshot. rewrite Hreg, elements_empty. cbn.
    split_and!; try done; try apply same_shared_refl; by rewrite app_nil_r.
Qed.

Lemma log_send_errors_spec tasks w :
  same_shared w (log_send_errors tasks w) ∧
  ∃ evs, trace (log_send_errors tasks w) = trace w ++ evs ∧ sends evs = [] ∧
         ∀ t e, t ∈ tasks → task_result t = Some (Raised e) →
                EvLog ERROR (Log_error_sending (task_get_name t) e) ∈ evs.
Proof.
  revert w. induction tasks as [| t rest IH]; intros w; cbn [log_send_errors].
  - split; [apply same_shared_refl |]. exists []. rewrite app_nil_r. split_and!; try done.
    intros t e Ht. by apply elem_of_nil in Ht.
  - destruct (task_result t) as [[[] | e0 |] |] eqn:Hres.
    all: try (destruct (IH w) as (Hs & evs & Ht & Hse & Hlog); split; [done |];
              exists evs; split_and!; try done;
              intros t' e' [-> | Hin]%elem_of_cons Hr; [congruence | eauto]).
    rewrite logger_ERROR.
    destruct (IH (emit (EvLog ERROR (Log_error_sending (task_get_name t) e0)) w))
      as (Hs & evs & Ht & Hse & Hlog).
    split; [done |].
    exists (EvLog ERROR (Log_error_sending (task_get_name t) e0) :: evs).
    rewrite Ht. cbn [trace emit]. rewrite <- app_assoc. split_and!; try done.
    intros t' e' [-> | Hin]%elem_of_cons Hr.
    + rewrite Hres in Hr. injection Hr as <-. by left.
    + right. eauto.
Qed.

Lemma attempted_fresh message_str (l : list client) :
  attempted message_str (map (fun c => mkTask c None) l) = [].
Proof.
  unfold attempted. induction l as [| c l IH]; [done |].
  cbn [map]. by rewrite filter_cons_False.
Qed.

Lemma run_send_task_spec k r message_str tasks w tasks' w' :
  run_send_task k r message_str tasks w = Some (tasks', w') →
  ∃ c, tasks !! k = Some (mkTask c None) ∧
       tasks' = <[k := mkTask c (Some r)]> tasks ∧
       w' = emit (EvSend c message_str) w.
Proof.
  unfold run_send_task. destruct (tasks !! k) as [[c [r0 |]] |]; try done.
  intros [= <- <-]. by exists c.
Qed.

Lemma attempted_insert message_str tasks k c r :
  tasks !! k = Some (mkTask c None) →
  attempted message_str (<[k := mkTask c (Some r)]> tasks)
  ≡ₚ (c, message_str) :: attempted message_str tasks.
Proof.
  unfold attempted. revert k. induction tasks as [| t rest IH]; intros k Hk; [done |].
  destruct k as [| k]; cbn in Hk; cbn [insert list_insert].
  - injection Hk as ->. rewrite filter_cons_True by done.
    by rewrite filter_cons_False by done.
  - rewrite !filter_cons. destruct (decide (task_done t = true)); cbn [map].
    + rewrite (IH k Hk). apply Permutation_swap.
    + by apply IH.
Qed.

Lemma task_client_insert tasks k c r :
  tasks !! k = Some (mkTask c None) →
  map task_client (<[k := mkTask c (Some r)]> tasks) = map task_client tasks.
Proof.
  revert k. induction tasks as [| t rest IH]; intros k Hk; [done |].
  destruct k as [| k]; cbn in Hk; cbn [insert list_insert map].
  - by injection Hk as ->.
  - f_equal. by apply IH.
Qed.

Lemma attempted_all_done message_str tasks :
  forallb task_done tasks = true →
  attempted message_str tasks = map (fun c => (c, message_str)) (map task_client tasks).
Proof.
  unfold attempted. induction tasks as [| t rest IH]; [done |]. cbn [forallb].
  intros [Ht Hrest]%andb_true_iff. rewrite filter_cons_True by done. cbn. by rewrite IH.
Qed.

(** An own step of the broadcast touches nothing but the trace. *)
Lemma bc_resume_same_shared i pc w pc' w' :
  bc_resume i pc w = Some (pc', w') → same_shared w w'.
Proof.
  destruct pc as [m tasks |], i as [k r |]; cbn [bc_resume]; try done; intros H.
  - destruct (run_send_task k r m tasks w) as [[tasks1 w1] |] eqn:Hrun; [| done].
    injection H as <- <-. apply run_send_task_spec in Hrun as (c & _ & _ & ->).
    by repeat split.
  - destruct (forallb task_done tasks); [| done]. injection H as <- <-.
    apply log_send_errors_spec.
Qed.

Lemma bc_inv_init message_str w :
  message_str ≠ ""%string → bc_inv w message_str (broadcast_message message_str w).
Proof.
  intros Hne. destruct (broadcast_message_spec message_str w Hne) as (Hpc & _ & Ht).
  exists []. rewrite Ht, Hpc, sends_app, sends_snapshot_events. split; [done |].
  destruct (open_snapshot w) as [| c l] eqn:Hsnap; [done |]. rewrite <- Hsnap.
  split_and!; [done | | by rewrite attempted_fresh].
  rewrite map_map. cbn. apply map_id.
Qed.

Lemma bc_inv_step w0 message_str a s s' :
  bc_step a s = Some s' → bc_inv w0 message_str s → bc_inv w0 message_str s'.
Proof.
  destruct s as [pc w]. destruct a as [a | i]; cbn [bc_step fst snd]; intros H (new & Hsends & Hpc).
  - destruct (world_step a w) as [w1 |] eqn:Hw; [| done]. injection H as <-.
    exists new. cbn [fst snd] in *. by rewrite (world_step_sends _ _ _ Hw).
  - cbn [fst snd] in *.
    destruct pc as [m tasks |], i as [k r |]; cbn [bc_resume] in H; try done.
    + destruct (run_send_task k r m tasks w) as [[tasks1 w1] |] eqn:Hrun; [| done].
      injection H as <-. apply run_send_task_spec in Hrun as (c & Hk & -> & ->).
      destruct Hpc as (-> & Hcl & Hperm).
      exists (new ++ [(c, message_str)]). cbn [fst snd trace emit].
      rewrite sends_app, Hsends, <- app_assoc. split; [done |].
      split_and!; [done | by rewrite task_client_insert |].
      rewrite (attempted_insert _ _ _ _ _ Hk), <- Hperm.
      symmetry. apply Permutation_cons_append.
    + destruct (forallb task_done tasks) eqn:Hall; [| done]. injection H as <-.
      destruct Hpc as (-> & Hcl & Hperm).
      destruct (log_send_errors_spec tasks w) as (_ & evs & Ht & Hse & _).
      exists new. cbn [fst snd]. rewrite Ht, sends_app, Hse, app_nil_r. split; [done |].
      by rewrite Hperm, attempted_all_done, Hcl.
Qed.

Lemma bc_inv_run w0 message_str acts s s' :
  bc_run acts s = Some s' → bc_inv w0 message_str s → bc_inv w0 message_str s'.
Proof. apply (run_invariant bc_step (bc_inv w0 message_str)). intros. by eapply bc_inv_step. Qed.


Lemma elem_of_open_snapshot w c :
  c ∈ open_snapshot w ↔ c ∈ CONNECTED_CLIENTS w ∧ is_open c w = true.
Proof. unfold open_snapshot. rewrite list_elem_of_filter, elem_of_elements. tauto. Qed.

Lemma attempted_client message_str tasks c m :
  (c, m) ∈ attempted message_str tasks → c ∈ map task_client tasks.
Proof.
  unfold attempted. intros (t & [= -> ->] & Ht)%list_elem_of_fmap.
  apply list_elem_of_filter in Ht as [_ Ht]. apply list_elem_of_fmap. by exists t.
Qed.



(** ** A broadcast always runs to its return *)






Lemma bc_step_extends a s s' :
  bc_step a s = Some s' → extends (fun _ => True) (snd s) (snd s').
Proof.
  destruct s as [pc w]. destruct a as [a | i]; cbn [bc_step fst snd]; intros H.
  - destruct (world_step a w) as [w1 |] eqn:Hw; [| done]. injection H as <-.
    apply world_step_spec in Hw as [HE _]. by eapply extends_weaken.
  - destruct pc as [m tasks |], i as [k r |]; cbn [bc_resume] in H; try done.
    + destruct (run_send_task k r m tasks w) as [[tasks1 w1] |] eqn:Hrun; [| done].
      injection H as <-. apply run_send_task_spec in Hrun as (c & _ & _ & ->).
      apply extends_emit; [done | apply extends_refl].
    + destruct (forallb task_done tasks); [| done]. injection H as <-.
      destruct (log_send_errors_spec tasks w) as (_ & evs & Ht & _).
      exists evs. split; [done |]. by apply Forall_forall.
Qed.

Lemma extends_elem_of P w w' ev : extends P w w' → ev ∈ trace w → ev ∈ trace w'.
Proof. intros (evs & -> & _) Hin. apply elem_of_app. by left. Qed.




(** ** Steps of the receiver *)

Ltac same_shared_tac :=
  repeat first
    [ apply same_shared_refl | apply same_shared_emit | apply same_shared_logger ].

Lemma broadcast_message_same_shared message_str w :
  same_shared w (snd (broadcast_message message_str w)).
Proof.
  destruct (decide (message_str = ""%string)) as [-> | Hne].
  - cbn. apply same_shared_refl.
  - by destruct (broadcast_message_spec message_str w Hne) as (_ & ? & _).
Qed.

Lemma rx_outer_loop_same_shared w0 w :
  same_shared w0 w → same_shared w0 (snd (rx_outer_loop w)).
Proof.
  intros H. unfold rx_outer_loop. destruct (negb (shutdown_event w)); cbn [snd];
    by same_shared_tac.
Qed.

Lemma rx_after_try_same_shared w0 w :
  same_shared w0 w → same_shared w0 (snd (rx_after_try w)).
Proof.
  intros H. unfold rx_after_try. destruct (negb (shutdown_event w)); cbn [snd].
  - by same_shared_tac.
  - by apply rx_outer_loop_same_shared.
Qed.

Lemma rx_outer_except_same_shared e w0 w :
  same_shared w0 w → same_shared w0 (rx_outer_except e w).
Proof. intros H. unfold rx_outer_except. destruct (_ || _); by same_shared_tac. Qed.

Lemma rx_inner_loop_same_shared w0 w :
  same_shared w0 w → same_shared w0 (snd (rx_inner_loop w)).
Proof.
  intros H. unfold rx_inner_loop, rx_leave_with.
  destruct (negb (shutdown_event w)); cbn [snd]; by same_shared_tac.
Qed.

Lemma rx_after_recv_same_shared r w : same_shared w (snd (rx_after_recv r w)).
Proof.
  unfold rx_after_recv, rx_leave_with. destruct r as [m | e |].
  - case_bool_decide.
    + pose proof (broadcast_message_same_shared m (emit (EvCallBroadcast m) w)) as Hs.
      destruct (broadcast_message m _) as [[m' tasks |] w1]; cbn [snd] in *.
      * exact Hs.
      * by apply rx_inner_loop_same_shared.
    + apply rx_inner_loop_same_shared, same_shared_refl.
  - destruct e; cbn [isinstance_ConnectionClosed snd];
      try apply rx_inner_loop_same_shared; by same_shared_tac.
  - cbn [snd]. by same_shared_tac.
Qed.

(** The receiver reads the registry and the event but writes neither. *)
Lemma rx_resume_same_shared i pc w pc' w' :
  rx_resume i pc w = Some (pc', w') → same_shared w w'.
Proof.
  intros H.
  destruct pc as [| | | m tasks | cancelled | | | r0],
           i as [| r | r | i | | r | r]; try discriminate H; cbn [rx_resume] in H.
  - destruct (task_created _ _); [| done]. apply (inj Some) in H. use_snd H.
    unfold receive_from_external_adsb. apply rx_outer_loop_same_shared. by same_shared_tac.
  - apply (inj Some) in H. use_snd H. unfold rx_after_connect.
    destruct r as [[] | e |]; cbn [snd].
    + apply rx_inner_loop_same_shared. by same_shared_tac.
    + apply rx_after_try_same_shared, rx_outer_except_same_shared, same_shared_refl.
    + apply same_shared_refl.
  - apply (inj Some) in H. use_snd H. apply rx_after_recv_same_shared.
  - destruct (bc_resume i (BC_gather m tasks) w) as [[[m' tasks' |] w1] |] eqn:Hbc;
      [| | done]; apply bc_resume_same_shared in Hbc.
    + by injection H as <- <-.
    + apply (inj Some) in H. use_snd H. by apply rx_inner_loop_same_shared.
  - injection H as <- <-. by same_shared_tac.
  - apply (inj Some) in H. use_snd H. unfold rx_after_aexit.
    destruct r as [[] | e |]; [destruct cancelled | |]; cbn [snd];
      try apply same_shared_refl.
    + apply rx_after_try_same_shared, same_shared_refl.
    + apply rx_after_try_same_shared, rx_outer_except_same_shared, same_shared_refl.
  - assert (Hr : rx_after_retry_wait r w = (pc', w')).
    { destruct r as [[] | e |]; [destruct (shutdown_event w); [| done] | |];
        by apply (inj Some) in H. }
    use_snd Hr. unfold rx_after_retry_wait.
    destruct r as [[] | e |]; [| destruct e |]; cbn [snd];
      try apply same_shared_refl; apply rx_outer_loop_same_shared, same_shared_refl.
Qed.

Lemma sys_step_flag a s s' :
  sys_step a s = Some s' →
  shutdown_event (snd s) = true → shutdown_event (snd s') = true.
Proof.
  destruct s as [pc w]. destruct a as [a | i]; cbn [sys_step fst snd]; intros H.
  - destruct (world_step a w) as [w1 |] eqn:Hw; [| done]. injection H as <-.
    by apply world_step_spec in Hw as [_ ?].
  - destruct s' as [pc' w']. apply rx_resume_same_shared in H as (_ & Hs & _).
    cbn [snd]. by rewrite Hs.
Qed.

Lemma sys_step_registry a s s' :
  sys_step a s = Some s' →
  registry_iff_session (snd s) → registry_iff_session (snd s').
Proof.
  destruct s as [pc w]. destruct a as [a | i]; cbn [sys_step fst snd]; intros H.
  - destruct (world_step a w) as [w1 |] eqn:Hw; [| done]. injection H as <-.
    by apply (world_step_registry a).
  - destruct s' as [pc' w']. apply rx_resume_same_shared in H as (HX & _ & _ & Hh & _).
    unfold registry_iff_session. cbn [snd]. by rewrite HX, Hh.
Qed.

Lemma registry_iff_session_initial : registry_iff_session initial_world.
Proof.
  intros c. cbn. split; [set_solver |]. intros (pc & Hpc & _).
  by rewrite lookup_empty in Hpc.
Qed.

(** ** The handler of a connection *)

(** C3: a handler that starts while the event is set closes the connection
    with code 1012 and reason "Server shutting down", waits for the close
    and finishes (it returns when the close returns or raises
    [ConnectionClosed]); the client is not added and the registry is the
    same after each of the two segments, whatever the close answers. *)
Theorem rejected_when_shutting_down c w :
  shutdown_event w = true →
  handlers w !! c = Some RC_accepted →
  ∃ w1, world_step (A_handler c RC_in_start) w = Some w1 ∧
        handlers w1 !! c = Some RC_reject_close ∧
        trace w1 = trace w ++ [EvLog WARNING (Log_rejecting_new_client (remote_address c));
                               EvClose c 1012 "Server shutting down"] ∧
        CONNECTED_CLIENTS w1 = CONNECTED_CLIENTS w ∧
        ∀ r, ∃ pc2 w2,
          world_step (A_handler c (RC_in r)) w1 = Some w2 ∧
          handlers w2 !! c = Some pc2 ∧
          CONNECTED_CLIENTS w2 = CONNECTED_CLIENTS w ∧
          trace w2 = trace w1 ∧
          (pc2 = RC_returned ∨ ∃ x, pc2 = RC_raised x) ∧
          (match r with
           | Returned _ => pc2 = RC_returned
           | Raised e => isinstance_ConnectionClosed e = true → pc2 = RC_returned
           | Cancelled => True
           end) ∧
          ∀ i, world_step (A_handler c i) w2 = None.
Proof.
  intros Hset Hpc. eexists. split.
  { cbn [world_step]. rewrite Hpc. cbn [rc_resume]. unfold register_client.
    rewrite Hset, logger_WARNING. reflexivity. }
  cbn [handlers set_handler emit trace CONNECTED_CLIENTS]. rewrite lookup_insert_eq.
  split; [done |]. split; [by rewrite <- app_assoc |]. split; [done |].
  intros r. cbn [world_step handlers set_handler emit]. rewrite lookup_insert_eq.
  cbn [rc_resume]. unfold rc_after_reject_close.
  destruct r as [[] | e |]; [| destruct (isinstance_ConnectionClosed e) eqn:He |];
    eexists _, _; (split; [reflexivity |]);
    cbn [handlers set_handler emit trace CONNECTED_CLIENTS];
    rewrite lookup_insert_eq; split_and!; try done; eauto;
    intros i; cbn [world_step handlers set_handler]; rewrite lookup_insert_eq;
    by destruct i.
Qed.

Lemma rejected_when_shutting_down_witness :
  shutdown_event ex_rejecting_world = true ∧
  handlers ex_rejecting_world !! 9%nat = Some RC_accepted ∧
  ∃ w1, world_step (A_handler 9%nat RC_in_start) ex_rejecting_world = Some w1 ∧
        CONNECTED_CLIENTS w1 = CONNECTED_CLIENTS ex_rejecting_world ∧
        EvClose 9%nat 1012 "Server shutting down" ∈ trace w1.
Proof.
  assert (H1 : shutdown_event ex_rejecting_world = true) by reflexivity.
  assert (H2 : handlers ex_rejecting_world !! 9%nat = Some RC_accepted)
    by (vm_compute; reflexivity).
  destruct (rejected_when_shutting_down 9%nat ex_rejecting_world H1 H2)
    as (w1 & Hstep & _ & Htrace & Hreg & _).
  split; [done |]. split; [done |]. exists w1. split_and!; try done.
  rewrite Htrace. set_solver.
Defined.

(** ** The shutdown event *)

(** C5: once the event is set it stays set along every schedule of the
    program; setting it again changes nothing; the signal handler then
    only logs (its notice and the warning), and the shutdown sequence of
    the main coroutine leaves the event set and the registry, the
    connections and the sessions alone. *)
Theorem shutdown_event_monotonic_idempotent acts s s' sig pending :
  shutdown_event (snd s) = true →
  sys_run acts s = Some s' →
  shutdown_event (snd s') = true ∧
  event_set (snd s) = snd s ∧
  (same_shared (snd s) (os_signal_handler sig (snd s)) ∧
   trace (os_signal_handler sig (snd s))
   = trace (snd s) ++ [EvLog INFO (Log_received_signal sig);
                       EvLog WARNING Log_shutdown_already]) ∧
  same_shared (snd s) (snd (main_shutdown_sequence pending (snd s))).
Proof.
  intros Hset Hrun. split_and!.
  - revert Hset. eapply (run_invariant sys_step (fun s => shutdown_event (snd s) = true)).
    + intros a s1 s2. apply sys_step_flag.
    + exact Hrun.
  - destruct s as [pc [X b cn hs m tr]]. cbn in *. by subst b.
  - unfold os_signal_handler. rewrite logger_INFO. cbn [shutdown_event emit].
    rewrite Hset. cbn [negb]. rewrite logger_WARNING. by repeat split.
  - unfold os_signal_handler. rewrite logger_INFO. cbn [shutdown_event emit].
    rewrite Hset. cbn [negb]. rewrite logger_WARNING. cbn. by rewrite <- app_assoc.
  - destruct (main_shutdown_sequence_spec pending (snd s) (snd s)
                (keeps_clients_refl _ _)) as ((HX & Hc & Hh & Hm & _) & Hs & _).
    repeat split; try done. by rewrite Hs, Hset.
Qed.

Lemma shutdown_event_monotonic_idempotent_witness :
  shutdown_event (snd (C_recv, ex_rejecting_world)) = true ∧
  sys_run ex_shutdown_schedule (C_recv, ex_rejecting_world) = Some ex_shutdown_state ∧
  shutdown_event (snd ex_shutdown_state) = true.
Proof.
  assert (H1 : shutdown_event (snd (C_recv, ex_rejecting_world)) = true) by reflexivity.
  assert (H2 : sys_run ex_shutdown_schedule (C_recv, ex_rejecting_world)
               = Some ex_shutdown_state) by (vm_compute; reflexivity).
  split; [done |]. split; [done |].
  exact (proj1 (shutdown_event_monotonic_idempotent ex_shutdown_schedule
                  (C_recv, ex_rejecting_world) ex_shutdown_state 2 [] H1 H2)).
Defined.

(** ** The registry *)

(** C6, as stated, fails in both halves.  After client 1 has been
    registered and its peer has closed the connection, and before the
    handler is resumed, client 1 is in the registry and its connection is
    not [Active].  And when the peer of client 1 closes the connection after
    the snapshot of line 82 has found it open (line 85) and before its send
    task runs under [gather] (line 91), the send is attempted on a
    connection that is [Closed]. *)
Lemma registry_and_sends_counterexample :
  ¬ (∀ acts s, sys_run acts initial_system = Some s → registry_iff_active (snd s)) ∧
  ¬ sends_only_to_active.
Proof.
  split.
  - intros H.
    assert (Hrun : sys_run ex_closed_schedule initial_system = Some ex_closed_state)
      by (vm_compute; reflexivity).
    destruct (H _ _ Hrun 1%nat) as [Hact _].
    assert (Hin : 1%nat ∈ CONNECTED_CLIENTS (snd ex_closed_state))
      by (apply (bool_decide_unpack _); vm_compute; exact I).
    apply Hact in Hin. vm_compute in Hin. discriminate Hin.
  - intros H.
    assert (Hrun : sys_run ex_stale_send_schedule initial_system = Some ex_stale_send_state)
      by (vm_compute; reflexivity).
    assert (Hstep : sys_step (S_receiver (C_in_broadcast (BC_in_task 0 (Returned tt))))
                             ex_stale_send_state = Some ex_stale_sent_state)
      by (vm_compute; reflexivity).
    assert (Hsend : sends (trace (snd ex_stale_sent_state))
                    = sends (trace (snd ex_stale_send_state)) ++ [(1%nat, ex_message)])
      by (vm_compute; reflexivity).
    specialize (H _ _ _ _ _ _ Hrun Hstep Hsend). vm_compute in H. discriminate H.
Qed.

Lemma bc_run_extends acts : ∀ s s',
  bc_run acts s = Some s' → extends (fun _ => True) (snd s) (snd s').
Proof.
  induction acts as [| a rest IH]; intros s s' Hrun; unfold bc_run in *; cbn [run] in Hrun.
  - injection Hrun as <-. apply extends_refl.
  - destruct (bc_step a s) as [s1 |] eqn:Ha; [| done].
    eapply extends_trans; [by eapply bc_step_extends | by apply IH].
Qed.

(** C6 as amended: along every schedule of the program a client is in the
    registry exactly while its session is between its registration and
    its [finally] block; and a broadcast makes no send attempt at any
    point to a client of the snapshot that is not open when the snapshot
    is taken, but logs the warning that it skips it. *)
Theorem registry_follows_sessions_and_closed_clients_are_skipped
    acts s message_str w c bacts s' :
  sys_run acts initial_system = Some s →
  message_str ≠ ""%string →
  c ∈ CONNECTED_CLIENTS w →
  is_open c w = false →
  bc_run bacts (broadcast_message message_str w) = Some s' →
  registry_iff_session (snd s) ∧
  (∃ new, sends (trace (snd s')) = sends (trace w) ++ new ∧ ∀ m, (c, m) ∉ new) ∧
  EvLog WARNING (Log_client_was_closed (remote_address c)) ∈ trace (snd s').
Proof.
  intros Hrun Hne Hin Hclosed Hbc. split_and!.
  - eapply (run_invariant sys_step (fun s => registry_iff_session (snd s))).
    + intros a s1 s2. apply sys_step_registry.
    + exact Hrun.
    + apply registry_iff_session_initial.
  - destruct (bc_inv_run w message_str bacts _ _ Hbc (bc_inv_init _ _ Hne))
      as (new & Hsends & Hpc).
    exists new. split; [done |]. intros m Hm.
    assert (c ∈ open_snapshot w) as Hsnap.
    { destruct (fst s') as [m' tasks |].
      - destruct Hpc as (_ & <- & Hperm). rewrite Hperm in Hm.
        by eapply attempted_client.
      - rewrite Hpc in Hm. by apply list_elem_of_fmap in Hm as (c' & [= -> _] & ?). }
    apply elem_of_open_snapshot in Hsnap as [_ Ho]. congruence.
  - eapply extends_elem_of; [by eapply bc_run_extends |].
    destruct (broadcast_message_spec message_str w Hne) as (_ & _ & ->).
    apply elem_of_app. right. apply list_elem_of_fmap. exists c.
    unfold snapshot_event. rewrite Hclosed. split; [done |]. by apply elem_of_elements.
Qed.

Lemma registry_follows_sessions_and_closed_clients_are_skipped_witness :
  sys_run ex_closed_schedule initial_system = Some ex_closed_state ∧
  ex_message ≠ ""%string ∧
  2%nat ∈ CONNECTED_CLIENTS ex_world ∧
  is_open 2%nat ex_world = false ∧
  bc_run ex_broadcast_schedule (broadcast_message ex_message ex_world)
    = Some (BC_returned, ex_world_after_broadcast) ∧
  registry_iff_session (snd ex_closed_state) ∧
  EvLog WARNING (Log_client_was_closed (remote_address 2%nat))
    ∈ trace ex_world_after_broadcast.
Proof.
  assert (H1 : sys_run ex_closed_schedule initial_system = Some ex_closed_state)
    by (vm_compute; reflexivity).
  assert (H2 : ex_message ≠ ""%string) by done.
  assert (H3 : 2%nat ∈ CONNECTED_CLIENTS ex_world) by (unfold ex_world; cbn; set_solver).
  assert (H4 : is_open 2%nat ex_world = false) by (vm_compute; reflexivity).
  assert (H5 : bc_run ex_broadcast_schedule (broadcast_message ex_message ex_world)
               = Some (BC_returned, ex_world_after_broadcast)) by (vm_compute; reflexivity).
  destruct (registry_follows_sessions_and_closed_clients_are_skipped
              ex_closed_schedule ex_closed_state ex_message ex_world 2%nat
              ex_broadcast_schedule (BC_returned, ex_world_after_broadcast)
              H1 H2 H3 H4 H5) as (Hreg & _ & Hlog).
  by split_and!.
Defined.

(** ** Empty messages and empty registries *)

Lemma broadcast_calls_app tr1 tr2 :
  broadcast_calls (tr1 ++ tr2) = broadcast_calls tr1 ++ broadcast_calls tr2.
Proof. apply omap_app. Qed.

Lemma broadcast_calls_snapshot_events w cl : broadcast_calls (map (snapshot_event w) cl) = [].
Proof.
  induction cl as [| c rest IH]; [done |].
  cbn. unfold snapshot_event at 1. by destruct (is_open c w).
Qed.

Lemma rx_inner_loop_calls w :
  broadcast_calls (trace (snd (rx_inner_loop w))) = broadcast_calls (trace w) ∧
  sends (trace (snd (rx_inner_loop w))) = sends (trace w).
Proof.
  unfold rx_inner_loop, rx_leave_with. destruct (negb (shutdown_event w)); cbn [snd]; [done |].
  cbn [trace emit]. by rewrite broadcast_calls_app, sends_app, !app_nil_r.
Qed.

(** C8: a broadcast of the empty message returns at once and leaves the
    world as it is, and so does a broadcast to an empty registry; the
    receiver treats an empty received message as it treats a receive
    timeout, going back to the head of its inner loop without a call of
    the broadcast and without a send, whereas a non-empty message is
    handed to the broadcast. *)
Theorem empty_broadcasts_are_noops message_str w0 w :
  CONNECTED_CLIENTS w0 = ∅ →
  message_str ≠ ""%string →
  broadcast_message "" w = (BC_returned, w) ∧
  broadcast_message message_str w0 = (BC_returned, w0) ∧
  rx_after_recv (Returned ""%string) w = rx_inner_loop w ∧
  broadcast_calls (trace (snd (rx_after_recv (Returned ""%string) w)))
    = broadcast_calls (trace w) ∧
  sends (trace (snd (rx_after_recv (Returned ""%string) w))) = sends (trace w) ∧
  broadcast_calls (trace (snd (rx_after_recv (Returned message_str) w)))
    = broadcast_calls (trace w) ++ [message_str].
Proof.
  intros Hemp Hne. split_and!.
  - reflexivity.
  - unfold broadcast_message. rewrite bool_decide_eq_false_2 by done.
    rewrite bool_decide_eq_false_2; [done |]. by intros H.
  - reflexivity.
  - apply rx_inner_loop_calls.
  - apply rx_inner_loop_calls.
  - unfold rx_after_recv. rewrite bool_decide_eq_true_2 by done.
    destruct (broadcast_message_spec message_str (emit (EvCallBroadcast message_str) w) Hne)
      as (_ & _ & Ht).
    assert (Hcalls : broadcast_calls
                       (trace (snd (broadcast_message message_str
                                      (emit (EvCallBroadcast message_str) w))))
                     = broadcast_calls (trace w) ++ [message_str]).
    { rewrite Ht. cbn [trace emit].
      by rewrite !broadcast_calls_app, broadcast_calls_snapshot_events, app_nil_r. }
    destruct (broadcast_message message_str _) as [[m' tasks |] w1]; cbn [snd] in *.
    + exact Hcalls.
    + by rewrite (proj1 (rx_inner_loop_calls w1)).
Qed.

Lemma empty_broadcasts_are_noops_witness :
  CONNECTED_CLIENTS initial_world = ∅ ∧
  ex_message ≠ ""%string ∧
  broadcast_message "" ex_world = (BC_returned, ex_world) ∧
  broadcast_message ex_message initial_world = (BC_returned, initial_world) ∧
  rx_after_recv (Returned ""%string) ex_world = rx_inner_loop ex_world.
Proof.
  assert (H1 : CONNECTED_CLIENTS initial_world = ∅) by reflexivity.
  assert (H2 : ex_message ≠ ""%string) by done.
  destruct (empty_broadcasts_are_noops ex_message initial_world ex_world H1 H2)
    as (Ha & Hb & Hc & _).
  by split_and!.
Defined.

(** ** The main coroutine *)

(** C7: when the receiver task ends, with or without an exception, while
    the main coroutine waits at line 160, the main coroutine logs the end
    of the task (and the exception), sets the event, closes the listener
    and waits for it, awaits the watcher task if it is not done, and
    returns: no exception leaves [main_server_logic]. *)
Theorem receiver_end_triggers_shutdown r sd r2 wd is_done w :
  r ≠ Cancelled →
  implb sd (shutdown_event w) = true →
  r2 = Returned tt ∨ r2 = Raised TimeoutError →
  ∃ w1 w',
    main_resume (M_in_wait (Some r) sd) M_wait w = Some (M_server_wait_closed, w1) ∧
    shutdown_event w1 = true ∧
    main_run (receiver_ended_inputs r sd r2 wd is_done) (M_wait, w) = Some (M_returned, w') ∧
    shutdown_event w' = true ∧
    trace w' = trace w ++ receiver_ended_trace r sd r2 wd ∧
    CONNECTED_CLIENTS w' = CONNECTED_CLIENTS w.
Proof.
  intros Hr Hsd Hr2. unfold main_run, receiver_ended_inputs, receiver_ended_trace.
  destruct r as [[] | e |]; [| | done];
    destruct sd, wd, Hr2 as [-> | ->];
    cbn [app run fst snd main_resume]; rewrite ?Hsd;
    unfold main_after_wait, main_shutdown_sequence; wsimpl;
    cbn [app foldl fst snd main_resume];
    unfold main_after_server_closed, main_await_tasks; wsimpl;
    cbn [app fst snd main_resume];
    unfold main_after_join, main_finish; wsimpl;
    destruct (shutdown_event w) eqn:Hs; cbn [negb];
    eexists _, _; (split; [reflexivity |]);
    (split; [done |]); (split; [reflexivity |]);
    cbn; rewrite <- ?app_assoc; by split_and!.
Qed.

Lemma receiver_end_triggers_shutdown_witness :
  Raised (OtherException "RuntimeError") ≠ (Cancelled : outcome unit) ∧
  implb false (shutdown_event ex_world) = true ∧
  ∃ w', main_run (receiver_ended_inputs (Raised (OtherException "RuntimeError")) false
                    (Returned tt) false (fun _ => true)) (M_wait, ex_world)
        = Some (M_returned, w') ∧
        shutdown_event w' = true ∧
        EvServerClose ∈ trace w'.
Proof.
  assert (H1 : Raised (OtherException "RuntimeError") ≠ (Cancelled : outcome unit)) by done.
  assert (H2 : implb false (shutdown_event ex_world) = true) by reflexivity.
  destruct (receiver_end_triggers_shutdown (Raised (OtherException "RuntimeError")) false
              (Returned tt) false (fun _ => true) ex_world H1 H2 (or_introl eq_refl))
    as (w1 & w' & _ & _ & Hrun & Hset & Htrace & _).
  split; [done |]. split; [done |]. exists w'. split_and!; try done.
  rewrite Htrace. unfold receiver_ended_trace. set_solver.
Defined.

(** ** Failure to start the listener *)

Lemma os_signal_handler_trace sig w :
  ∃ l m, trace (os_signal_handler sig w)
         = trace w ++ EvLog INFO (Log_received_signal sig) :: l ∧
         (l = [] ∨ l = [EvLog WARNING m]).
Proof.
  unfold os_signal_handler. rewrite logger_INFO. cbn [shutdown_event emit].
  destruct (shutdown_event w); cbn [negb].
  - rewrite logger_WARNING. cbn [trace emit]. rewrite <- app_assoc. eauto.
  - cbn [trace event_set emit]. by exists [], Log_shutdown_already; eauto.
Qed.

Lemma os_signal_handler_keeps ev sig w :
  (∀ l m, ev ≠ EvLog l m) →
  ev ∉ trace w → ev ∉ trace (os_signal_handler sig w).
Proof.
  intros Hev Hno. destruct (os_signal_handler_trace sig w) as (l & m & -> & Hl).
  rewrite elem_of_app, elem_of_cons. intros [? | [-> | Hin]]; [done | by eapply Hev |].
  destruct Hl as [-> | ->]; [by apply elem_of_nil in Hin |].
  apply list_elem_of_singleton in Hin as ->. by eapply Hev.
Qed.

Lemma main_cancel_loop_pc todo is_done w :
  fst (main_cancel_loop todo is_done w) = M_returned ∨
  ∃ t rest, fst (main_cancel_loop todo is_done w) = M_cancel t rest.
Proof.
  revert w. induction todo as [| t rest IH]; intros w; cbn [main_cancel_loop].
  - by left.
  - destruct (negb (is_done t)); [right; by eexists _, _ | apply IH].
Qed.

(** Only the first segment of the main coroutine ends at line 138. *)
Lemma main_resume_pc i pc w pc' w' :
  main_resume i pc w = Some (pc', w') →
  pc' ≠ M_not_started ∧
  (pc' = M_serve → pc = M_not_started ∧ w' = emit (EvServe LOCAL_WS_HOST LOCAL_WS_PORT) w).
Proof.
  intros H.
  destruct pc as [| | | | ts | t rest | | r0],
           i as [| r | ext sd | r ed sd | r is_done | r is_done];
    try discriminate H; cbn [main_resume] in H.
  - by injection H as <- <-.
  - unfold main_after_serve in H.
    destruct r as [[] | e |];
      [| destruct (isinstance_OSError e); [destruct (errno_is e 10048) |] |];
      by injection H as <- <-.
  - destruct (implb sd (shutdown_event w)); [| done].
    unfold main_after_wait, main_shutdown_sequence in H.
    destruct ext as [[[] | e |] |]; [| | | destruct sd]; by injection H as <- <-.
  - unfold main_after_server_closed, main_await_tasks, main_finish in H.
    destruct r as [[] | e |]; [| destruct e |]; try (by injection H as <- <-);
      destruct ed, sd; by injection H as <- <-.
  - unfold main_after_join, main_finish in H.
    destruct r as [[] | e |]; [| destruct e |]; try (by injection H as <- <-).
    apply (inj Some) in H.
    destruct (main_cancel_loop_pc ts is_done (logger WARNING Log_timeout_main_tasks w))
      as [Hpc | (t' & rest' & Hpc)]; rewrite H in Hpc; cbn [fst] in Hpc; by subst pc'.
  - unfold main_after_cancelled_task in H. apply (inj Some) in H.
    destruct r as [[] | e |];
      match type of H with main_cancel_loop ?a ?b ?c = _ =>
        destruct (main_cancel_loop_pc a b c) as [Hpc | (t' & rest' & Hpc)] end;
      rewrite H in Hpc; cbn [fst] in Hpc; by subst pc'.
Qed.

Lemma rx_resume_created i w : 
  EvCreateTask ExternalDataReceiver ∉ trace w → rx_resume i C_created w = None.
Proof.
  intros Hno. destruct i; try done. cbn [rx_resume]. unfold task_created.
  by rewrite bool_decide_eq_false_2.
Qed.

Lemma not_yet_serving_step a s s' :
  sys_step a s = Some s' → not_yet_serving s → not_yet_serving s'.
Proof.
  destruct s as [pc w]. unfold not_yet_serving. cbn [fst snd].
  destruct a as [[c | c st | c i | sig | i] | i]; cbn [sys_step world_step fst snd];
    intros H Hinv Hmain.
  - unfold listening in H. destruct (main_task w) eqn:Hm; try done.
    destruct (bool_decide _); [| done]. injection H as <-. cbn in Hmain.
    rewrite Hm in Hmain. by destruct Hmain.
  - destruct (conn w !! c) as [old |]; [| done].
    destruct (conn_may_change old st); [| done]. injection H as <-. cbn in *. auto.
  - destruct (handlers w !! c) as [pc0 |] eqn:Hpc; [| done].
    destruct (rc_resume c i pc0 w) as [[pc' w1] |] eqn:Hrc; [| done]. injection H as <-.
    apply rc_resume_spec in Hrc as ((_ & _ & _ & Hm) & _). cbn in Hmain.
    rewrite Hm in Hmain. destruct (Hinv Hmain) as (_ & Hh & _).
    by rewrite Hh, lookup_empty in Hpc.
  - injection H as <-. cbn [fst snd] in *.
    destruct (os_signal_handler_spec sig w) as ((_ & _ & Hh & Hm & _) & _).
    rewrite Hm in Hmain. destruct (Hinv Hmain) as (Hpc & Hhs & Hno & Hcl).
    split_and!; [done | by rewrite Hh | by apply os_signal_handler_keeps |].
    intros c code reason. by apply os_signal_handler_keeps.
  - destruct (main_resume i (main_task w) w) as [[pc' w1] |] eqn:Hres; [| done].
    injection H as <-. cbn [fst snd main_task set_main] in *.
    destruct (main_resume_pc _ _ _ _ _ Hres) as [Hns Hserve].
    destruct Hmain as [-> | ->]; [done |].
    destruct (Hserve eq_refl) as [Hm ->].
    destruct (Hinv (or_introl Hm)) as (Hpc & Hhs & Hno & Hcl).
    split_and!; try done; [| intros c code reason]; cbn [trace set_main emit];
      rewrite elem_of_app; (intros [Hin | Hin];
        [first [by apply Hno | by eapply Hcl] | by apply list_elem_of_singleton in Hin]).
  - destruct s' as [pc' w']. cbn [fst snd] in *.
    pose proof (rx_resume_same_shared _ _ _ _ _ H) as (_ & _ & _ & _ & Hm).
    rewrite Hm in Hmain. destruct (Hinv Hmain) as (-> & _ & Hno & _).
    by rewrite rx_resume_created in H.
Qed.

Lemma startup_failed_step a s s' :
  sys_step a s = Some s' → startup_failed s → startup_failed s'.
Proof.
  destruct s as [pc w]. unfold startup_failed. cbn [fst snd].
  destruct a as [[c | c st | c i | sig | i] | i]; cbn [sys_step world_step fst snd];
    intros H (Hm & Hpc & Hh & HX & Hno & Hcl & m & Hlog).
  - unfold listening in H. by rewrite Hm in H.
  - destruct (conn w !! c) as [old |]; [| done].
    destruct (conn_may_change old st); [| done]. injection H as <-. cbn in *.
    split_and!; eauto.
  - by rewrite Hh, lookup_empty in H.
  - injection H as <-. cbn [fst snd] in *.
    destruct (os_signal_handler_spec sig w) as ((HX' & _ & Hh' & Hm' & _ & HE) & _).
    split_and!; try congruence.
    + by apply os_signal_handler_keeps.
    + intros c code reason. by apply os_signal_handler_keeps.
    + exists m. by eapply extends_elem_of.
  - by rewrite Hm in H.
  - subst pc. by rewrite rx_resume_created in H.
Qed.

(** C9: when [websockets.serve] raises [e] at startup, the main coroutine
    logs one record at level CRITICAL and returns; from then on, along
    every schedule, the main coroutine stays returned, the receiver task
    has not been created and never runs, and no connection is ever
    accepted, registered or closed. *)
Theorem bind_failure_stops_startup acts1 s1 e acts2 s2 :
  sys_run acts1 initial_system = Some s1 →
  main_task (snd s1) = M_serve →
  sys_run (S_world (A_main (M_in_serve (Raised e))) :: acts2) s1 = Some s2 →
  (∃ w1, world_step (A_main (M_in_serve (Raised e))) (snd s1) = Some w1 ∧
         main_task w1 = M_returned ∧
         trace w1 = trace (snd s1) ++ [EvLog CRITICAL (bind_failure_msg e)]) ∧
  startup_failed s2.
Proof.
  intros Hrun1 Hm Hrun2.
  assert (Hnys : not_yet_serving s1).
  { eapply (run_invariant sys_step not_yet_serving); [apply not_yet_serving_step | done |].
    intros _. cbn. split_and!; try done; [| intros c code reason]; apply not_elem_of_nil. }
  assert (Hreg : registry_iff_session (snd s1)).
  { eapply (run_invariant sys_step (fun s => registry_iff_session (snd s)));
      [intros a sa sb; apply sys_step_registry | done |].
    apply registry_iff_session_initial. }
  destruct (Hnys (or_intror Hm)) as (Hpc & Hh & Hno & Hcl).
  destruct s1 as [pc w]. cbn [fst snd] in *. subst pc.
  assert (Hstep : world_step (A_main (M_in_serve (Raised e))) w
                  = Some (set_main M_returned (logger CRITICAL (bind_failure_msg e) w))).
  { cbn [world_step]. rewrite Hm. cbn [main_resume]. unfold main_after_serve, bind_failure_msg.
    destruct (isinstance_OSError e); [destruct (errno_is e 10048) |]; done. }
  split.
  { eexists. split; [exact Hstep |]. by rewrite logger_CRITICAL. }
  unfold sys_run in Hrun2. cbn [run sys_step fst snd] in Hrun2. rewrite Hstep in Hrun2.
  eapply (run_invariant sys_step startup_failed); [apply startup_failed_step | exact Hrun2 |].
  unfold startup_failed. rewrite logger_CRITICAL. cbn.
  split_and!; try done.
  - apply set_eq. intros c. rewrite (Hreg c), Hh. split; [| set_solver].
    intros (pc & Hpc & _). by rewrite lookup_empty in Hpc.
  - rewrite elem_of_app. intros [? | Hin]; [done |]. by apply list_elem_of_singleton in Hin.
  - intros c code reason. rewrite elem_of_app. intros [Hin | Hin].
    + by eapply Hcl.
    + by apply list_elem_of_singleton in Hin.
  - eexists. apply elem_of_app. right. by apply list_elem_of_singleton.
Qed.

Lemma bind_failure_stops_startup_witness :
  sys_run [S_world (A_main M_in_start)] initial_system = Some ex_serving_state ∧
  main_task (snd ex_serving_state) = M_serve ∧
  sys_run ex_bind_failure_schedule ex_serving_state = Some ex_bind_failure_state ∧
  startup_failed ex_bind_failure_state.
Proof.
  assert (H1 : sys_run [S_world (A_main M_in_start)] initial_system = Some ex_serving_state)
    by (vm_compute; reflexivity).
  assert (H2 : main_task (snd ex_serving_state) = M_serve) by (vm_compute; reflexivity).
  assert (H3 : sys_run (S_world (A_main (M_in_serve (Raised (OSError 98))))
                          :: [S_world (A_signal 2)]) ex_serving_state
               = Some ex_bind_failure_state) by (vm_compute; reflexivity).
  split; [done |]. split; [done |]. split; [exact H3 |].
  exact (proj2 (bind_failure_stops_startup _ _ _ _ _ H1 H2 H3)).
Defined.

(** ** The retry discipline of the receiver *)

Lemma extends_emit_last (P : event → Prop) ev w0 w :
  extends P w0 w → ∃ evs, Forall P evs ∧ trace (emit ev w) = trace w0 ++ evs ++ [ev].
Proof. intros (evs & Ht & HF). exists evs. split; [done |]. cbn. by rewrite Ht, app_assoc. Qed.

Lemma rx_outer_loop_kind w0 w :
  extends neutral w0 w → shutdown_event w = shutdown_event w0 →
  (shutdown_event w0 = true ∧ fst (rx_outer_loop w) = C_returned ∧
   extends neutral w0 (snd (rx_outer_loop w))) ∨
  (shutdown_event w0 = false ∧ fst (rx_outer_loop w) = C_connecting ∧
   ∃ evs, Forall neutral evs ∧
          trace (snd (rx_outer_loop w)) = trace w0 ++ evs ++ [EvConnect EXTERNAL_WS_URI]).
Proof.
  intros HE Hs. unfold rx_outer_loop. rewrite Hs.
  destruct (shutdown_event w0); cbn [negb fst snd].
  - left. split_and!; try done. apply extends_logger; done.
  - right. split_and!; try done. apply extends_emit_last. by apply extends_logger.
Qed.

Lemma rx_after_try_kind w0 w :
  extends neutral w0 w → shutdown_event w = shutdown_event w0 →
  (shutdown_event w0 = true ∧ fst (rx_after_try w) = C_returned ∧
   extends neutral w0 (snd (rx_after_try w))) ∨
  (shutdown_event w0 = false ∧ fst (rx_after_try w) = C_retry_wait ∧
   ∃ evs, Forall neutral evs ∧
          trace (snd (rx_after_try w)) = trace w0 ++ evs ++ [EvWaitShutdown RETRY_INTERVAL]).
Proof.
  intros HE Hs. pose proof (rx_outer_loop_kind w0 w HE Hs) as Houter.
  unfold rx_after_try. rewrite Hs.
  destruct (shutdown_event w0) eqn:Hs0; cbn [negb fst snd].
  - left. destruct Houter as [H | (H & _)]; [done | congruence].
  - right. split_and!; try done. by apply extends_emit_last.
Qed.

Lemma rx_outer_except_neutral e w0 w :
  extends neutral w0 w → extends neutral w0 (rx_outer_except e w).
Proof. intros H. unfold rx_outer_except. destruct (_ || _); by apply extends_logger. Qed.

Lemma rx_inner_loop_kind w0 w :
  extends neutral w0 w →
  extends neutral w0 (snd (rx_inner_loop w)) ∧ rx_connected (fst (rx_inner_loop w)) = true.
Proof.
  intros HE. unfold rx_inner_loop, rx_leave_with.
  destruct (negb (shutdown_event w)); cbn [fst snd]; [done |].
  split; [| done]. by apply extends_emit.
Qed.

Lemma snapshot_events_neutral w cl : Forall neutral (map (snapshot_event w) cl).
Proof.
  apply Forall_forall. intros ev (c & -> & _)%list_elem_of_fmap.
  unfold snapshot_event. by destruct (is_open c w).
Qed.

Lemma rx_after_recv_kind r w :
  extends neutral w (snd (rx_after_recv r w)) ∧
  rx_connected (fst (rx_after_recv r w)) = true.
Proof.
  unfold rx_after_recv, rx_leave_with. destruct r as [m | e |].
  - case_bool_decide as Hm; [| apply rx_inner_loop_kind, extends_refl].
    destruct (broadcast_message_spec m (emit (EvCallBroadcast m) w) Hm) as (_ & _ & Ht).
    assert (HE : extends neutral w (snd (broadcast_message m (emit (EvCallBroadcast m) w)))).
    { exists (EvCallBroadcast m :: map (snapshot_event (emit (EvCallBroadcast m) w))
                                       (elements (CONNECTED_CLIENTS w))).
      split; [by rewrite Ht; cbn; rewrite <- app_assoc |].
      constructor; [done | apply snapshot_events_neutral]. }
    destruct (broadcast_message m _) as [[m' tasks |] w1]; cbn [fst snd] in *; [done |].
    by apply rx_inner_loop_kind.
  - destruct e; cbn [isinstance_ConnectionClosed fst snd];
      try (apply rx_inner_loop_kind, extends_refl);
      (split; [| done]); apply extends_emit; try done;
      apply extends_logger; try done; apply extends_refl.
  - cbn [fst snd]. split; [| done]. apply extends_emit; [done | apply extends_refl].
Qed.

Lemma bc_resume_neutral i pc w pc' w' :
  bc_resume i pc w = Some (pc', w') → extends neutral w w'.
Proof.
  destruct pc as [m tasks |], i as [k r |]; cbn [bc_resume]; try done; intros H.
  - destruct (run_send_task k r m tasks w) as [[tasks1 w1] |] eqn:Hrun; [| done].
    injection H as <- <-. apply run_send_task_spec in Hrun as (c & _ & _ & ->).
    apply extends_emit; [done | apply extends_refl].
  - destruct (forallb task_done tasks); [| done]. injection H as <- <-.
    induction tasks as [| t rest IH] in w |- *; cbn [log_send_errors]; [apply extends_refl |].
    destruct (task_result t) as [[[] | e |] |]; try apply IH.
    eapply extends_trans; [| apply IH]. apply extends_logger; [done | apply extends_refl].
Qed.

(** Every step of the receiver is of one of the three kinds. *)
Lemma rx_resume_cases i pc w pc' w' :
  rx_resume i pc w = Some (pc', w') → rx_step_kind pc w pc' w'.
Proof.
  intros H. unfold rx_step_kind.
  destruct pc as [| | | m tasks | cancelled | | | r0],
           i as [| r | r | i | | r | r]; try discriminate H; cbn [rx_resume] in H.
  - destruct (task_created _ _); [| done]. apply (inj Some) in H.
    unfold receive_from_external_adsb in H.
    destruct (rx_outer_loop_kind w (logger INFO Log_receiver_started w))
      as [(Hs & Hpc & HE) | (Hs & Hpc & HE)];
      [by apply extends_logger; [| apply extends_refl] | done | |];
      rewrite H in Hpc, HE; cbn [fst snd] in *; subst pc'.
    + left. split; [done | by left].
    + right. left. by split_and!.
  - apply (inj Some) in H. unfold rx_after_connect in H. destruct r as [[] | e |].
    + destruct (rx_inner_loop_kind w (logger INFO (Log_connected EXTERNAL_WS_URI) w))
        as (HE & Hpc); [by apply extends_logger; [| apply extends_refl] |].
      rewrite H in HE, Hpc. cbn [fst snd] in *. left. split; [done | by right].
    + destruct (rx_after_try_kind w (rx_outer_except e w))
        as [(Hs & Hpc & HE) | (Hs & Hpc & HE)];
        [apply rx_outer_except_neutral, extends_refl
        | by unfold rx_outer_except; destruct (_ || _) | |];
        rewrite H in Hpc, HE; cbn [fst snd] in *; subst pc'.
      * left. split; [done | by left].
      * right. right. by split_and!.
    + injection H as <- <-. left. split; [apply extends_refl | by left].
  - apply (inj Some) in H. destruct (rx_after_recv_kind r w) as (HE & Hpc).
    rewrite H in HE, Hpc. cbn [fst snd] in *. left. split; [done | by right].
  - destruct (bc_resume i (BC_gather m tasks) w) as [[[m' tasks' |] w1] |] eqn:Hbc;
      [| | done]; apply bc_resume_neutral in Hbc.
    + injection H as <- <-. left. split; [done | by right].
    + apply (inj Some) in H. destruct (rx_inner_loop_kind w w1 Hbc) as (HE & Hpc).
      rewrite H in HE, Hpc. cbn [fst snd] in *. left. split; [done | by right].
  - injection H as <- <-. left. split; [| by right].
    apply extends_emit; [done | apply extends_refl].
  - apply (inj Some) in H. unfold rx_after_aexit in H.
    assert (Hcases : (pc', w') = (C_raised Cancelled, w) ∨
                     (∃ w1, extends neutral w w1 ∧ shutdown_event w1 = shutdown_event w ∧
                            rx_after_try w1 = (pc', w'))).
    { destruct r as [[] | e |]; [destruct cancelled | |]; eauto.
      - right. exists w. split_and!; try done. apply extends_refl.
      - right. exists (rx_outer_except e w). split_and!; try done.
        + apply rx_outer_except_neutral, extends_refl.
        + unfold rx_outer_except. by destruct (_ || _). }
    clear H. destruct Hcases as [[= -> ->] | (w1 & HE1 & Hs1 & H)].
    + left. split; [apply extends_refl | by left].
    + destruct (rx_after_try_kind w w1 HE1 Hs1) as [(Hs & Hpc & HE) | (Hs & Hpc & HE)];
        rewrite H in Hpc, HE; cbn [fst snd] in *; subst pc'.
      * left. split; [done | by left].
      * right. right. by split_and!.
  - assert (Hr : rx_after_retry_wait r w = (pc', w')).
    { destruct r as [[] | e |]; [destruct (shutdown_event w); [| done] | |];
        by apply (inj Some) in H. }
    clear H. unfold rx_after_retry_wait in Hr.
    assert (Hcases : (∃ x, (pc', w') = (C_raised x, w)) ∨ rx_outer_loop w = (pc', w')).
    { destruct r as [[] | e |]; [| destruct e |]; eauto. }
    clear Hr. destruct Hcases as [(x & [= -> ->]) | H].
    + left. split; [apply extends_refl | by left].
    + destruct (rx_outer_loop_kind w w (extends_refl _ _) eq_refl)
        as [(Hs & Hpc & HE) | (Hs & Hpc & HE)];
        rewrite H in Hpc, HE; cbn [fst snd] in *; subst pc'.
      * left. split; [done | by left].
      * right. left. by split_and!.
Qed.

Lemma wait_scan_neutral evs o :
  Forall neutral evs → foldl wait_scan_step o evs = o.
Proof.
  intros HF. revert o. induction HF as [| ev evs Hev _ IH]; intros o; [done |].
  cbn [foldl]. rewrite IH. destruct o as [[] |], ev; done.
Qed.

Lemma wait_scan_app tr evs :
  wait_scan (tr ++ evs) = foldl wait_scan_step (wait_scan tr) evs.
Proof. unfold wait_scan. apply foldl_app. Qed.

Lemma connect_attempts_app tr1 tr2 :
  connect_attempts (tr1 ++ tr2) = connect_attempts tr1 ++ connect_attempts tr2.
Proof. apply omap_app. Qed.

Lemma connect_attempts_neutral evs : Forall neutral evs → connect_attempts evs = [].
Proof.
  induction 1 as [| ev evs Hev _ IH]; [done |].
  unfold connect_attempts in *. cbn. by destruct ev.
Qed.

Lemma extends_neutral_connects w w' :
  extends neutral w w' → connect_attempts (trace w') = connect_attempts (trace w).
Proof.
  intros (evs & -> & HF).
  by rewrite connect_attempts_app, (connect_attempts_neutral _ HF), app_nil_r.
Qed.

Lemma world_event_neutral ev : world_event ev → neutral ev.
Proof. by destruct ev. Qed.

Lemma retry_inv_step a s s' : sys_step a s = Some s' → retry_inv s → retry_inv s'.
Proof.
  destruct s as [pc w]. unfold retry_inv. cbn [fst snd].
  destruct a as [a | i]; cbn [sys_step fst snd]; intros H (owed & Hscan & Hidle).
  - destruct (world_step a w) as [w1 |] eqn:Hw; [| done]. injection H as <-.
    apply world_step_spec in Hw as [(evs & Ht & HF) _]. cbn [fst snd].
    exists owed. split; [| done].
    rewrite Ht, wait_scan_app, Hscan. apply wait_scan_neutral.
    eapply Forall_impl; [exact HF | apply world_event_neutral].
  - destruct s' as [pc' w']. cbn [fst snd].
    destruct (rx_resume_cases _ _ _ _ _ H)
      as [((evs & Ht & HF) & Hpc') | [(Hpc & _ & -> & evs & HF & Ht)
                                     | (_ & _ & -> & evs & HF & Ht)]].
    + exists owed. split.
      * by rewrite Ht, wait_scan_app, Hscan, wait_scan_neutral.
      * intros Hi. by destruct Hpc' as [? | [? _]], pc'.
    + exists true. split; [| by cbn].
      rewrite Ht, app_assoc, !wait_scan_app, Hscan, (wait_scan_neutral evs) by done.
      by rewrite (Hidle Hpc).
    + exists false. split; [| done].
      rewrite Ht, app_assoc, !wait_scan_app, Hscan, (wait_scan_neutral evs) by done.
      by destruct owed.
Qed.

Lemma undone_insert tasks k c r :
  tasks !! k = Some (mkTask c None) →
  S (length (filter (fun t => task_done t = false) (<[k := mkTask c (Some r)]> tasks)))
  = length (filter (fun t => task_done t = false) tasks).
Proof.
  revert k. induction tasks as [| t rest IH]; intros k Hk; [done |].
  destruct k as [| k]; cbn in Hk; cbn [insert list_insert].
  - injection Hk as ->. rewrite filter_cons_False by done.
    by rewrite filter_cons_True by done.
  - rewrite !filter_cons. destruct (decide (task_done t = false)); cbn [length];
      by rewrite <- (IH k Hk).
Qed.

(** Once the event is set, every step of the receiver brings it closer to
    its end: it moves down from the start over the connection attempt, the
    receive, the broadcast and the exit of the connection to the return,
    or lets one more send task of the pending broadcast finish. *)
Lemma rx_resume_progress i pc w pc' w' :
  shutdown_event w = true →
  rx_resume i pc w = Some (pc', w') →
  (rx_rank pc' < rx_rank pc)%nat ∨
  (rx_rank pc' = rx_rank pc ∧ rx_undone pc' < rx_undone pc)%nat.
Proof.
  intros Hs H.
  assert (Houter : ∀ w1, shutdown_event w1 = true → fst (rx_outer_loop w1) = C_returned).
  { intros w1 H1. unfold rx_outer_loop. by rewrite H1. }
  assert (Htry : ∀ w1, shutdown_event w1 = true → fst (rx_after_try w1) = C_returned).
  { intros w1 H1. unfold rx_after_try. rewrite H1. cbn [negb]. by apply Houter. }
  assert (Hinner : ∀ w1, shutdown_event w1 = true → fst (rx_inner_loop w1) = C_aexit false).
  { intros w1 H1. unfold rx_inner_loop. by rewrite H1. }
  assert (Hexc : ∀ e, shutdown_event (rx_outer_except e w) = true).
  { intros e. unfold rx_outer_except. by destruct (_ || _). }
  destruct pc as [| | | m tasks | cancelled | | | r0],
           i as [| r | r | i | | r | r]; try discriminate H; cbn [rx_resume] in H.
  - destruct (task_created _ _); [| done]. apply (inj Some) in H.
    unfold receive_from_external_adsb in H. left.
    use_fst H. rewrite Houter by done. cbn. lia.
  - apply (inj Some) in H. unfold rx_after_connect in H. left.
    use_fst H.
    destruct r as [[] | e |]; rewrite ?Hinner, ?Htry by done; cbn; lia.
  - apply (inj Some) in H. left. use_fst H.
    unfold rx_after_recv, rx_leave_with. destruct r as [m | e |].
    + case_bool_decide; [| rewrite Hinner by done; cbn; lia].
      pose proof (broadcast_message_same_shared m (emit (EvCallBroadcast m) w)) as (_ & Hs1 & _).
      destruct (broadcast_message m _) as [[m' tasks |] w1]; cbn [fst snd] in *; [cbn; lia |].
      rewrite Hinner by (by rewrite Hs1). cbn; lia.
    + destruct e; cbn [isinstance_ConnectionClosed fst]; rewrite ?Hinner by done; cbn; lia.
    + cbn; lia.
  - destruct i as [k r |]; cbn [bc_resume] in H.
    + destruct (run_send_task k r m tasks w) as [[tasks1 w1] |] eqn:Hrun; [| done].
      injection H as <- <-. apply run_send_task_spec in Hrun as (c & Hk & -> & ->).
      right. split; [done |]. cbn [rx_undone]. rewrite <- (undone_insert _ _ _ r Hk). lia.
    + destruct (forallb task_done tasks); [| done]. apply (inj Some) in H. left.
      use_fst H. rewrite Hinner; [cbn; lia |].
      by destruct (log_send_errors_spec tasks w) as ((_ & -> & _) & _).
  - injection H as <- <-. left. cbn; lia.
  - apply (inj Some) in H. unfold rx_after_aexit in H. left.
    use_fst H.
    destruct r as [[] | e |]; [destruct cancelled | |]; rewrite ?Htry by done; cbn; lia.
  - assert (Hr : rx_after_retry_wait r w = (pc', w')).
    { destruct r as [[] | e |]; [destruct (shutdown_event w); [| done] | |];
        by apply (inj Some) in H. }
    left. use_fst Hr. unfold rx_after_retry_wait.
    destruct r as [[] | e |]; [| destruct e |]; rewrite ?Houter by done; cbn; lia.
Qed.

Lemma sys_step_connects a s s' :
  shutdown_event (snd s) = true → sys_step a s = Some s' →
  connect_attempts (trace (snd s')) = connect_attempts (trace (snd s)).
Proof.
  destruct s as [pc w]. cbn [fst snd]. intros Hs.
  destruct a as [a | i]; cbn [sys_step fst snd]; intros H.
  - destruct (world_step a w) as [w1 |] eqn:Hw; [| done]. injection H as <-.
    apply world_step_spec in Hw as [HE _]. cbn [snd].
    apply extends_neutral_connects. eapply extends_weaken; [| exact HE].
    apply world_event_neutral.
  - destruct s' as [pc' w']. cbn [snd].
    destruct (rx_resume_cases _ _ _ _ _ H)
      as [(HE & _) | [(_ & Hf & _) | (_ & Hf & _)]]; [| congruence | congruence].
    by apply extends_neutral_connects.
Qed.

(** The ways out of the retry wait of line 129: the event was set, and the
    task returns without a connection attempt; or the interval has
    elapsed, and control is back at the head of the outer loop; or an
    exception leaves the task. *)
Lemma retry_wait_resume_cases j w pc' w' :
  rx_resume j C_retry_wait w = Some (pc', w') →
  (j = C_in_retry_wait (Returned tt) ∧ shutdown_event w = true ∧ pc' = C_returned ∧
   connect_attempts (trace w') = connect_attempts (trace w)) ∨
  (j = C_in_retry_wait (Raised TimeoutError) ∧ rx_outer_loop w = (pc', w')) ∨
  (∃ x, j = C_in_retry_wait x ∧ x ≠ Returned tt ∧ pc' = C_raised x ∧ w' = w).
Proof.
  intros H. destruct j as [| r | r | i | | r | r]; try discriminate H. cbn [rx_resume] in H.
  destruct r as [[] | e |].
  - destruct (shutdown_event w) eqn:Hs; [| done]. apply (inj Some) in H.
    unfold rx_after_retry_wait, rx_outer_loop in H. rewrite Hs in H. cbn [negb] in H.
    injection H as <- <-. left. split_and!; try done.
    rewrite logger_INFO. cbn. by rewrite connect_attempts_app, app_nil_r.
  - apply (inj Some) in H. unfold rx_after_retry_wait in H.
    destruct e; try (injection H as <- <-; right; right; by eexists).
    right. left. by split.
  - injection H as <- <-. right. right. by eexists.
Qed.

Lemma rx_after_connect_failed e w :
  shutdown_event w = false →
  fst (rx_after_connect (Raised e) w) = C_retry_wait ∧
  ∃ l m, trace (snd (rx_after_connect (Raised e) w))
         = trace w ++ [EvLog l m; EvWaitShutdown 5].
Proof.
  intros Hs. unfold rx_after_connect, rx_after_try, rx_outer_except.
  destruct (_ || _); rewrite ?logger_WARNING, ?logger_ERROR; cbn [shutdown_event emit];
    rewrite Hs; cbn [negb fst snd trace emit]; (split; [done |]);
    eexists _, _; by rewrite <- app_assoc.
Qed.

(** ** A signal delivered inside a segment *)

Lemma shutdown_event_logger l m w : shutdown_event (logger l m w) = shutdown_event w.
Proof. by destruct l. Qed.

Lemma rx_to_test_flag i pc w t w1 :
  rx_to_test i pc w = Some (t, w1) → shutdown_event w1 = shutdown_event w.
Proof.
  unfold rx_to_test, rx_outer_except.
  destruct pc as [| | | m tasks | [] | | | r0], i as [| r | r | i | | r | r];
    try done; try destruct r as [[] | e |]; try destruct e;
    repeat (match goal with |- context [if ?b then _ else _] => destruct b eqn:? end);
    intros [= <- <-]; first [reflexivity | congruence].
Qed.

Lemma main_to_test_same i pc w pending w1 :
  main_to_test i pc w = Some (pending, w1) →
  shutdown_event w1 = shutdown_event w ∧ CONNECTED_CLIENTS w1 = CONNECTED_CLIENTS w.
Proof.
  unfold main_to_test.
  destruct pc as [| | | | ts | t rest | | r0],
           i as [| r | ext sd | r ed sd | r is_done | r is_done]; try done.
  destruct (implb sd (shutdown_event w)); [| done].
  destruct ext as [[[] | e |] |]; [| | | destruct sd]; intros [= <- <-]; by split.
Qed.

Lemma fine_begin_same a s fr s1 :
  fine_begin a s = Some (fr, s1) →
  shutdown_event (snd s1) = shutdown_event (snd s) ∧
  CONNECTED_CLIENTS (snd s1) = CONNECTED_CLIENTS (snd s).
Proof.
  destruct s as [pc w]. unfold fine_begin. cbn [fst snd].
  destruct a as [[c | c st | c [| d1 d2 | r] | sig | i] | i]; try done.
  - destruct (handlers w !! c) as [[] |]; try done. by intros [= <- <-].
  - destruct (main_to_test i (main_task w) w) as [[pending w1] |] eqn:Hm; [| done].
    intros [= <- <-]. by apply main_to_test_same in Hm.
  - destruct (rx_to_test i pc w) as [[[] w1] |] eqn:Hr; [| | done];
      intros [= <- <-]; cbn [snd]; (split; [by eapply rx_to_test_flag |]).
    all: revert Hr; unfold rx_to_test, rx_outer_except;
      destruct pc as [| | | m tasks | [] | | | r0], i as [| r | r | i | | r | r];
      try done; try destruct r as [[] | e |]; try destruct e;
      repeat (match goal with |- context [if ?b then _ else _] => destruct b eqn:? end);
      try done; by intros [= <-].
Qed.

Lemma main_from_set_spec pending w :
  keeps_clients world_event w (snd (main_from_set pending w)) ∧
  shutdown_event (snd (main_from_set pending w)) = true.
Proof.
  unfold main_from_set. cbn [snd]. split.
  - keeps_clients_tac. apply cancel_all_spec. by keeps_clients_tac.
  - wsimpl. by rewrite cancel_all_flag.
Qed.

(** Run without a signal in between, the two halves of a segment are the
    segment. *)
Lemma fine_begin_continue a fs fs1 :
  fine_step (F_begin a) fs = Some fs1 →
  ∃ fs2, fine_step F_continue fs1 = Some fs2 ∧
         fine_step (F_sys a) fs = Some fs2.
Proof.
  destruct fs as [[pc w] fr n]. unfold fine_step, fine_idle. cbn [fine_frame fine_handlers fine_sys].
  destruct fr; [done |]. destruct n; [| done].
  destruct (fine_begin a (pc, w)) as [[fr s1] |] eqn:Hb; [| done].
  destruct (shutdown_event (snd s1)) eqn:Hs1; [done |]. intros [= <-].
  cbn [fine_frame fine_handlers fine_sys]. eexists. split; [reflexivity |].
  unfold fine_begin in Hb. cbn [fst snd] in Hb.
  destruct a as [[c | c st | c [| d1 d2 | r] | sig | i] | i]; try done.
  - destruct (handlers w !! c) as [[] |] eqn:Hh; try done. injection Hb as <- <-.
    cbn [snd] in Hs1. cbn [sys_step world_step fst snd fine_continue].
    rewrite Hh. cbn [rc_resume]. unfold register_client. rewrite Hs1. reflexivity.
  - destruct (main_to_test i (main_task w) w) as [[pending w1] |] eqn:Hm; [| done].
    injection Hb as <- <-. cbn [snd] in Hs1.
    cbn [sys_step world_step fst snd fine_continue].
    unfold main_to_test in Hm.
    destruct (main_task w) as [| | | | ts | t rest | | r0],
             i as [| r | ext sd | r ed sd | r is_done | r is_done];
      try done. cbn [main_resume].
    destruct (implb sd (shutdown_event w)); [| done].
    unfold main_after_wait, main_shutdown_sequence, main_from_set.
    destruct ext as [[[] | e |] |]; [| | | destruct sd]; try done;
      injection Hm as <- <-; rewrite Hs1; reflexivity.
  - destruct (rx_to_test i pc w) as [[[] w1] |] eqn:Hr; [| | done];
      injection Hb as <- <-; cbn [snd] in Hs1;
      cbn [sys_step fst snd fine_continue];
      unfold rx_to_test in Hr;
      destruct pc as [| | | m tasks | [] | | | r0], i as [| r | r | i | | r | r];
      try done; try destruct r as [[] | e |]; try destruct e; try done;
      cbn [rx_resume];
      repeat (match type of Hr with context [if ?b then _ else _] =>
                destruct b eqn:?; try done end);
      injection Hr as <-;
      unfold receive_from_external_adsb, rx_after_connect, rx_after_aexit,
        rx_after_retry_wait, rx_after_try, rx_outer_loop, rx_connect, rx_retry_wait;
      rewrite ?Hs1; try reflexivity; congruence.
Qed.

(** Every schedule of [sys_step] is a schedule of [fine_step]. *)
Lemma fine_run_of_sys_run acts s s' :
  sys_run acts s = Some s' →
  fine_run (map F_sys acts) (mkFine s None O) = Some (mkFine s' None O).
Proof.
  revert s. induction acts as [| a acts IH]; intros s H;
    unfold sys_run, fine_run in *; cbn [run map] in *.
  - by injection H as <-.
  - cbn [fine_step fine_idle fine_frame fine_handlers fine_sys].
    destruct (sys_step a s) as [s1 |]; [| done]. by apply IH.
Qed.

Lemma fine_begin_signal_continue sig fs fs1 :
  fine_step (F_begin_signal sig) fs = Some fs1 →
  fine_step F_continue fs1 = fine_step (F_signal sig) fs.
Proof.
  destruct fs as [[pc w] fr n]. unfold fine_step, fine_world, fine_set_world, os_signal_handler.
  cbn [fine_frame fine_handlers fine_sys fst snd].
  destruct (shutdown_event (logger INFO (Log_received_signal sig) w)) eqn:Hs; [done |].
  intros [= <-]. reflexivity.
Qed.

Lemma fine_continue_flag fr s :
  shutdown_event (snd s) = true → shutdown_event (snd (fine_continue fr s)) = true.
Proof.
  destruct s as [pc w]. cbn [snd]. intros Hs.
  destruct fr as [c | | | pending]; cbn [fine_continue fst snd]; try done.
  pose proof (main_from_set_spec pending w) as (_ & H).
  by destruct (main_from_set pending w).
Qed.

Lemma fine_step_flag a fs fs' :
  fine_step a fs = Some fs' →
  shutdown_event (fine_world fs) = true → shutdown_event (fine_world fs') = true.
Proof.
  destruct fs as [s fr n]. unfold fine_step, fine_world, fine_set_world.
  cbn [fine_frame fine_handlers fine_sys]. intros H Hs.
  destruct a as [a | a | sig | sig |].
  - destruct (fine_idle _); [| done].
    destruct (sys_step a s) as [s1 |] eqn:Hstep; [| done]. injection H as <-.
    cbn [fine_sys]. by apply sys_step_flag with a s.
  - destruct (fine_idle _); [| done].
    destruct (fine_begin a s) as [[fr1 s1] |] eqn:Hb; [| done].
    apply fine_begin_same in Hb as (Hb & _). rewrite Hb, Hs in H. done.
  - injection H as <-. cbn [fine_sys snd]. apply os_signal_handler_spec.
  - rewrite shutdown_event_logger, Hs in H. done.
  - destruct n as [| n]; [destruct fr as [fr |]; [| done] |]; injection H as <-;
      cbn [fine_sys snd]; [by apply fine_continue_flag | done].
Qed.

Lemma fine_run_flag acts fs fs' :
  fine_run acts fs = Some fs' →
  shutdown_event (fine_world fs) = true → shutdown_event (fine_world fs') = true.
Proof.
  apply (run_invariant fine_step (λ fs, shutdown_event (fine_world fs) = true)).
  intros a fs1 fs2. apply fine_step_flag.
Qed.

Lemma fine_continue_connects fr s :
  connect_attempts (trace (snd (fine_continue fr s)))
  = connect_attempts (trace (snd s))
    ++ match fr with Fr_connect => [EXTERNAL_WS_URI] | _ => [] end.
Proof.
  destruct s as [pc w]. destruct fr as [c | | | pending]; cbn [fine_continue fst snd].
  - unfold rc_register. wsimpl. rewrite <- !app_assoc, connect_attempts_app.
    cbn. by rewrite app_nil_r.
  - unfold rx_connect. wsimpl. rewrite <- !app_assoc, connect_attempts_app. by cbn.
  - unfold rx_retry_wait. wsimpl. rewrite connect_attempts_app. by cbn.
  - pose proof (main_from_set_spec pending w) as ((_ & _ & _ & _ & _ & Hext) & _).
    destruct (main_from_set pending w) as [mpc w1]. cbn [snd set_main trace] in *.
    rewrite app_nil_r. apply extends_neutral_connects.
    eapply extends_weaken; [apply world_event_neutral | exact Hext].
Qed.

Lemma fine_step_trace a fs fs' :
  fine_step a fs = Some fs' →
  ∃ evs, trace (fine_world fs') = trace (fine_world fs) ++ evs.
Proof.
  destruct fs as [[pc w] fr n]. unfold fine_step, fine_world, fine_set_world.
  cbn [fine_frame fine_handlers fine_sys fst snd].
  destruct a as [a | a | sig | sig |].
  - destruct (fine_idle _); [| done].
    destruct (sys_step a (pc, w)) as [s1 |] eqn:Hstep; [| done]. intros [= <-].
    cbn [fine_sys]. destruct a as [a | i]; cbn [sys_step fst snd] in Hstep.
    + destruct (world_step a w) as [w1 |] eqn:Hw; [| done]. injection Hstep as <-.
      destruct (world_step_spec a w w1 Hw) as ((evs & Ht & _) & _). by exists evs.
    + destruct s1 as [pc1 w1].
      destruct (rx_resume_cases _ _ _ _ _ Hstep)
        as [((evs & Ht & _) & _) | [(_ & _ & _ & evs & _ & Ht) | (_ & _ & _ & evs & _ & Ht)]];
        eexists; exact Ht.
  - destruct (fine_idle _); [| done].
    destruct (fine_begin a (pc, w)) as [[fr1 [pc1 w1]] |] eqn:Hb; [| done].
    cbn [snd]. destruct (shutdown_event w1); [done |]. intros [= <-]. cbn [fine_sys snd].
    unfold fine_begin in Hb. cbn [fst snd] in Hb.
    destruct a as [[c | c st | c [| d1 d2 | r] | sig | i] | i]; try done.
    + destruct (handlers w !! c) as [[] |]; try done. injection Hb as _ _ <-.
      exists []. by rewrite app_nil_r.
    + destruct (main_to_test i (main_task w) w) as [[pending w2] |] eqn:Hm; [| done].
      injection Hb as _ _ <-. unfold main_to_test in Hm.
      destruct (main_task w) as [| | | | ts | t rest | | r0],
             i as [| r | ext sd | r ed sd | r is_done | r is_done];
        try done. destruct (implb sd (shutdown_event w)); [| done].
      destruct ext as [[[] | e |] |]; [| | | destruct sd]; try done;
        injection Hm as _ <-; wsimpl; rewrite <- ?app_assoc; by eexists.
    + destruct (rx_to_test i pc w) as [[[] w2] |] eqn:Hr; [| | done];
        injection Hb as _ _ <-; unfold rx_to_test, rx_outer_except in Hr;
        destruct pc as [| | | m tasks | [] | | | r0], i as [| r | r | i | | r | r];
        try done; try destruct r as [[] | e |]; try destruct e; try done;
        repeat (match type of Hr with context [if ?b then _ else _] =>
                  destruct b eqn:?; try done end);
        injection Hr as <-; wsimpl; first [by eexists | exists []; by rewrite app_nil_r].
  - intros [= <-]. cbn [fine_sys snd].
    destruct (os_signal_handler_spec sig w) as ((_ & _ & _ & _ & _ & evs & Ht & _) & _).
    by exists evs.
  - rewrite shutdown_event_logger. destruct (shutdown_event w); [done |].
    intros [= <-]. cbn [fine_sys snd]. rewrite logger_INFO. cbn [trace emit]. by eexists.
  - destruct n as [| n]; [destruct fr as [fr |]; [| done] |]; intros [= <-];
      cbn [fine_sys snd trace event_set]; [| exists []; by rewrite app_nil_r].
    destruct fr as [c | | | pending]; cbn [fine_continue fst snd].
    + unfold rc_register. wsimpl. rewrite <- !app_assoc. by eexists.
    + unfold rx_connect. wsimpl. rewrite <- !app_assoc. by eexists.
    + unfold rx_retry_wait. wsimpl. by eexists.
    + pose proof (main_from_set_spec pending w) as ((_ & _ & _ & _ & _ & evs & Ht & _) & _).
      destruct (main_from_set pending w) as [mpc w1]. cbn [snd set_main trace] in *.
      by exists evs.
Qed.

Lemma fine_run_trace acts fs fs' :
  fine_run acts fs = Some fs' →
  ∃ evs, trace (fine_world fs') = trace (fine_world fs) ++ evs.
Proof.
  revert fs. induction acts as [| a acts IH]; intros fs H;
    unfold fine_run in H; cbn [run] in H.
  - injection H as <-. exists []. by rewrite app_nil_r.
  - destruct (fine_step a fs) as [fs1 |] eqn:Hstep; [| done].
    destruct (IH fs1 H) as (evs2 & ->).
    destruct (fine_step_trace _ _ _ Hstep) as (evs1 & ->).
    exists (evs1 ++ evs2). by rewrite app_assoc.
Qed.

(** Once the event is set, a step adds a connection attempt only by
    finishing a segment of the receiver that was interrupted between lines
    104 and 106. *)
Lemma fine_step_connects a fs fs' :
  shutdown_event (fine_world fs) = true →
  fine_step a fs = Some fs' →
  connect_attempts (trace (fine_world fs')) ++ owed_connect fs'
  = connect_attempts (trace (fine_world fs)) ++ owed_connect fs.
Proof.
  intros Hs H. pose proof H as H0. revert H.
  destruct fs as [s fr n]. unfold fine_step, fine_world, fine_set_world, owed_connect in *.
  cbn [fine_frame fine_handlers fine_sys] in *.
  destruct a as [a | a | sig | sig |].
  - unfold fine_idle. cbn [fine_frame fine_handlers]. destruct fr; [done |].
    destruct n; [| done].
    destruct (sys_step a s) as [s1 |] eqn:Hstep; [| done]. intros [= <-].
    cbn [fine_sys fine_frame]. by rewrite (sys_step_connects a s s1 Hs Hstep).
  - destruct (fine_idle _); [| done].
    destruct (fine_begin a s) as [[fr1 s1] |] eqn:Hb; [| done].
    apply fine_begin_same in Hb as (Hb & _). by rewrite Hb, Hs.
  - intros [= <-]. cbn [fine_sys fine_frame snd]. f_equal.
    destruct (os_signal_handler_spec sig (snd s)) as ((_ & _ & _ & _ & _ & Hext) & _).
    apply extends_neutral_connects.
    eapply extends_weaken; [apply world_event_neutral | exact Hext].
  - by rewrite shutdown_event_logger, Hs.
  - destruct n as [| n]; [destruct fr as [fr |]; [| done] |]; intros [= <-];
      cbn [fine_sys fine_frame snd fst trace event_set]; [| done].
    rewrite fine_continue_connects. destruct fr; by rewrite ?app_nil_r.
Qed.

Lemma fine_run_connects acts fs fs' :
  shutdown_event (fine_world fs) = true →
  fine_run acts fs = Some fs' →
  connect_attempts (trace (fine_world fs')) ++ owed_connect fs'
  = connect_attempts (trace (fine_world fs)) ++ owed_connect fs.
Proof.
  revert fs. induction acts as [| a acts IH]; intros fs Hs H;
    unfold fine_run in H; cbn [run] in H.
  - by injection H as <-.
  - destruct (fine_step a fs) as [fs1 |] eqn:Hstep; [| done].
    rewrite (IH fs1 (fine_step_flag _ _ _ Hstep Hs) H).
    by apply fine_step_connects with a.
Qed.

(** C4, as stated, fails: the receiver task starts and finds the event
    unset at line 104; a signal arrives before line 107 and the handler sets
    the event; the receiver goes on and calls [connect] with the event
    set. *)
Lemma connect_after_shutdown_counterexample : ¬ no_connect_once_set.
Proof.
  intros H.
  assert (Hrun : fine_run ex_interrupted_schedule fine_initial = Some ex_interrupted_state)
    by (vm_compute; reflexivity).
  assert (Hset : shutdown_event (fine_world ex_interrupted_state) = true)
    by (vm_compute; reflexivity).
  assert (Hstep : fine_step F_continue ex_interrupted_state
                  = Some (mkFine (rx_connect (fine_world ex_interrupted_state)) None O))
    by (vm_compute; reflexivity).
  specialize (H _ _ _ _ Hrun Hset Hstep). vm_compute in H. discriminate H.
Qed.

(** C4 as amended: once the event is set, a schedule of the program, with
    signals delivered also inside segments, adds no connection attempt but
    the one of a receiver that had passed the test of line 104 before and
    has not yet reached line 107 (and this one it makes); at the head of its
    outer loop the receiver then returns, and every segment it starts brings
    it closer to that return; after a failed connection attempt (the event
    not being set) the receiver logs the failure and waits for the event
    with a timeout of 5; it leaves that wait because the event is set, and
    then returns without a new attempt, or because the timeout has expired,
    and then is back at the head of the outer loop (or by an exception,
    which ends the task). *)
Theorem one_connect_at_most_once_shutdown_and_wait_after_failure
    acts fs fs' i pc1 w1 pc1' w1' e w j w2 pc2 w2' :
  shutdown_event (fine_world fs) = true →
  fine_run acts fs = Some fs' →
  shutdown_event w1 = true →
  rx_resume i pc1 w1 = Some (pc1', w1') →
  shutdown_event w = false →
  rx_resume j C_retry_wait w2 = Some (pc2, w2') →
  ((connect_attempts (trace (fine_world fs')) = connect_attempts (trace (fine_world fs)) ∧
    owed_connect fs' = owed_connect fs) ∨
   (fine_frame fs = Some Fr_connect ∧ owed_connect fs' = [] ∧
    connect_attempts (trace (fine_world fs'))
    = connect_attempts (trace (fine_world fs)) ++ [EXTERNAL_WS_URI])) ∧
  rx_outer_loop (fine_world fs)
  = (C_returned, logger INFO Log_receiver_stopped (fine_world fs)) ∧
  ((rx_rank pc1' < rx_rank pc1)%nat ∨
   (rx_rank pc1' = rx_rank pc1 ∧ rx_undone pc1' < rx_undone pc1)%nat) ∧
  (fst (rx_after_connect (Raised e) w) = C_retry_wait ∧
   ∃ l m, trace (snd (rx_after_connect (Raised e) w))
          = trace w ++ [EvLog l m; EvWaitShutdown 5]) ∧
  ((j = C_in_retry_wait (Returned tt) ∧ shutdown_event w2 = true ∧ pc2 = C_returned ∧
    connect_attempts (trace w2') = connect_attempts (trace w2)) ∨
   (j = C_in_retry_wait (Raised TimeoutError) ∧ rx_outer_loop w2 = (pc2, w2')) ∨
   (∃ x, j = C_in_retry_wait x ∧ x ≠ Returned tt ∧ pc2 = C_raised x ∧ w2' = w2)).
Proof.
  intros Hs Hrun Hs1 Hstep Hw Hwait. split_and!.
  - pose proof (fine_run_connects acts fs fs' Hs Hrun) as Heq.
    destruct (fine_run_trace acts fs fs' Hrun) as (evs & Hpre).
    unfold owed_connect in *.
    destruct (fine_frame fs) as [[c | | | p] |],
             (fine_frame fs') as [[c' | | | p'] |];
      rewrite ?app_nil_r in Heq;
      first [ by left
            | by right
            | left; split; [by apply app_inv_tail in Heq | done]
            | exfalso; rewrite Hpre, connect_attempts_app, <- app_assoc in Heq;
              apply (f_equal length) in Heq; rewrite !length_app in Heq;
              cbn in Heq; lia ].
  - unfold rx_outer_loop. by rewrite Hs.
  - by eapply rx_resume_progress.
  - by apply rx_after_connect_failed.
  - by apply rx_after_connect_failed.
  - by apply retry_wait_resume_cases.
Qed.

Lemma one_connect_at_most_once_shutdown_and_wait_after_failure_witness :
  shutdown_event (fine_world ex_interrupted_state) = true ∧
  fine_run ex_late_connect_schedule ex_interrupted_state = Some ex_late_connect_state ∧
  fine_frame ex_interrupted_state = Some Fr_connect ∧
  connect_attempts (trace (fine_world ex_late_connect_state))
  = connect_attempts (trace (fine_world ex_interrupted_state)) ++ [EXTERNAL_WS_URI] ∧
  fst (fine_sys ex_late_connect_state) = C_returned ∧
  fst (rx_after_connect (Raised ConnectionRefusedError) ex_world) = C_retry_wait.
Proof.
  assert (H1 : shutdown_event (fine_world ex_interrupted_state) = true)
    by (vm_compute; reflexivity).
  assert (H2 : fine_run ex_late_connect_schedule ex_interrupted_state
               = Some ex_late_connect_state) by (vm_compute; reflexivity).
  assert (H3 : rx_resume (C_in_retry_wait (Returned tt)) (fst ex_retry_wait_state)
                 (snd ex_retry_wait_state)
               = Some (fst ex_receiver_state, snd ex_receiver_state))
    by (vm_compute; reflexivity).
  assert (H4 : shutdown_event ex_world = false) by reflexivity.
  assert (H5 : rx_resume (C_in_retry_wait (Returned tt)) C_retry_wait
                 (snd ex_retry_wait_state)
               = Some (fst ex_receiver_state, snd ex_receiver_state))
    by (vm_compute; reflexivity).
  assert (H6 : shutdown_event (snd ex_retry_wait_state) = true) by (vm_compute; reflexivity).
  assert (H7 : fine_frame ex_interrupted_state = Some Fr_connect)
    by (vm_compute; reflexivity).
  assert (H8 : connect_attempts (trace (fine_world ex_late_connect_state))
               = connect_attempts (trace (fine_world ex_interrupted_state))
                 ++ [EXTERNAL_WS_URI]) by (vm_compute; reflexivity).
  assert (H9 : fst (fine_sys ex_late_connect_state) = C_returned)
    by (vm_compute; reflexivity).
  destruct (one_connect_at_most_once_shutdown_and_wait_after_failure
              ex_late_connect_schedule ex_interrupted_state ex_late_connect_state
              (C_in_retry_wait (Returned tt)) (fst ex_retry_wait_state)
              (snd ex_retry_wait_state) (fst ex_receiver_state) (snd ex_receiver_state)
              ConnectionRefusedError ex_world
              (C_in_retry_wait (Returned tt)) (snd ex_retry_wait_state)
              (fst ex_receiver_state) (snd ex_receiver_state)
              H1 H2 H6 H3 H4 H5) as (_ & _ & _ & (Hf & _) & _).
  exact (conj H1 (conj H2 (conj H7 (conj H8 (conj H9 Hf))))).
Defined.

(** The end of the [async with] block leads into the retry wait. *)
Lemma rx_after_aexit_retry r w :
  r ≠ Cancelled → shutdown_event w = false →
  fst (rx_after_aexit false r w) = C_retry_wait ∧
  ∃ evs, Forall neutral evs ∧
         trace (snd (rx_after_aexit false r w)) = trace w ++ evs ++ [EvWaitShutdown 5].
Proof.
  intros Hr Hs.
  assert (Htry : ∀ w1, extends neutral w w1 → shutdown_event w1 = shutdown_event w →
            fst (rx_after_try w1) = C_retry_wait ∧
            ∃ evs, Forall neutral evs ∧
                   trace (snd (rx_after_try w1)) = trace w ++ evs ++ [EvWaitShutdown 5]).
  { intros w1 HE H1.
    destruct (rx_after_try_kind w w1 HE H1) as [(Hset & _) | (_ & Hpc & Hev)];
      [congruence | done]. }
  unfold rx_after_aexit. destruct r as [[] | e |]; [| | done].
  - apply Htry; [apply extends_refl | done].
  - apply Htry; [apply rx_outer_except_neutral, extends_refl |].
    unfold rx_outer_except. by destruct (_ || _).
Qed.

(** C10: along every schedule of the program, every connection attempt but
    the first comes after a retry wait with timeout 5 started since the
    previous attempt.  A step of the receiver taken between a connection
    attempt and the end of the [async with] block adds no connection
    attempt: it stays there, ends the task, or starts the retry wait.  A
    closed connection or an error in a receive leads out of the block, and
    the end of the block (the event not being set) leads into the retry
    wait.  Out of the retry wait a connection attempt is made only when
    the timeout has expired; when the wait ends because the event is set,
    the task returns. *)
Theorem retry_wait_before_every_reconnect acts s i pc w pc' w' e r w0 j w2 pc2 w2' :
  sys_run acts initial_system = Some s →
  rx_connected pc = true →
  rx_resume i pc w = Some (pc', w') →
  e ≠ TimeoutError →
  r ≠ Cancelled →
  shutdown_event w0 = false →
  rx_resume j C_retry_wait w2 = Some (pc2, w2') →
  waits_before_reconnect (trace (snd s)) ∧
  connect_attempts (trace w') = connect_attempts (trace w) ∧
  (rx_connected pc' = true ∨ rx_terminal pc' = true ∨
   (pc' = C_retry_wait ∧
    ∃ evs, Forall neutral evs ∧ trace w' = trace w ++ evs ++ [EvWaitShutdown 5])) ∧
  fst (rx_after_recv (Raised e) w0) = C_aexit false ∧
  (fst (rx_after_aexit false r w0) = C_retry_wait ∧
   ∃ evs, Forall neutral evs ∧
          trace (snd (rx_after_aexit false r w0)) = trace w0 ++ evs ++ [EvWaitShutdown 5]) ∧
  (connect_attempts (trace w2') ≠ connect_attempts (trace w2) →
   j = C_in_retry_wait (Raised TimeoutError) ∧ shutdown_event w2 = false) ∧
  (j = C_in_retry_wait (Returned tt) → shutdown_event w2 = true ∧ pc2 = C_returned).
Proof.
  intros Hrun Hpc Hstep He Hr Hw0 Hwait.
  pose proof (rx_resume_cases _ _ _ _ _ Hstep) as Hkind.
  split_and!.
  - assert (Hinv : retry_inv s).
    { eapply (run_invariant sys_step retry_inv); [apply retry_inv_step | exact Hrun |].
      by exists false. }
    destruct Hinv as (owed & Hscan & _). unfold waits_before_reconnect. by rewrite Hscan.
  - destruct Hkind as [(HE & _) | [(Hidle & _) | (_ & _ & _ & evs & HF & ->)]].
    + by apply extends_neutral_connects.
    + by destruct pc.
    + rewrite app_assoc, !connect_attempts_app, (connect_attempts_neutral _ HF).
      cbn. by rewrite !app_nil_r.
  - destruct Hkind as [(_ & [Ht | [Hc _]]) | [(Hidle & _) | (_ & _ & -> & Hev)]]; auto.
    by destruct pc.
  - unfold rx_after_recv, rx_leave_with. by destruct e.
  - by apply rx_after_aexit_retry.
  - by apply rx_after_aexit_retry.
  - intros Hneq.
    destruct (retry_wait_resume_cases _ _ _ _ Hwait)
      as [(_ & _ & _ & Heq) | [(-> & Houter) | (x & _ & _ & _ & ->)]]; [done | | done].
    split; [done |]. unfold rx_outer_loop in Houter.
    destruct (shutdown_event w2); [| done]. cbn [negb] in Houter.
    injection Houter as <- <-. exfalso. apply Hneq.
    rewrite logger_INFO. cbn. by rewrite connect_attempts_app, app_nil_r.
  - intros ->.
    destruct (retry_wait_resume_cases _ _ _ _ Hwait)
      as [(_ & ? & ? & _) | [(? & _) | (x & [= <-] & ? & _)]]; done.
Qed.

Lemma retry_wait_before_every_reconnect_witness :
  sys_run ex_receiver_schedule initial_system = Some ex_receiver_state ∧
  rx_connected C_recv = true ∧
  rx_resume (C_in_recv (Raised ConnectionClosedOK)) C_recv ex_world
    = Some (rx_after_recv (Raised ConnectionClosedOK) ex_world) ∧
  shutdown_event ex_world = false ∧
  rx_resume (C_in_retry_wait (Raised TimeoutError)) C_retry_wait ex_world
    = Some (rx_outer_loop ex_world) ∧
  waits_before_reconnect (trace (snd ex_receiver_state)) ∧
  fst (rx_after_aexit false (Returned tt) ex_world) = C_retry_wait.
Proof.
  assert (H1 : sys_run ex_receiver_schedule initial_system = Some ex_receiver_state)
    by (vm_compute; reflexivity).
  assert (H2 : rx_connected C_recv = true) by reflexivity.
  assert (H3 : rx_resume (C_in_recv (Raised ConnectionClosedOK)) C_recv ex_world
               = Some (fst (rx_after_recv (Raised ConnectionClosedOK) ex_world),
                       snd (rx_after_recv (Raised ConnectionClosedOK) ex_world)))
    by reflexivity.
  assert (H4 : ConnectionClosedOK ≠ TimeoutError) by discriminate.
  assert (H5 : Returned tt ≠ (Cancelled : outcome unit)) by discriminate.
  assert (H6 : shutdown_event ex_world = false) by reflexivity.
  assert (H7 : rx_resume (C_in_retry_wait (Raised TimeoutError)) C_retry_wait ex_world
               = Some (fst (rx_outer_loop ex_world), snd (rx_outer_loop ex_world)))
    by reflexivity.
  destruct (retry_wait_before_every_reconnect ex_receiver_schedule ex_receiver_state
              (C_in_recv (Raised ConnectionClosedOK)) C_recv ex_world
              (fst (rx_after_recv (Raised ConnectionClosedOK) ex_world))
              (snd (rx_after_recv (Raised ConnectionClosedOK) ex_world))
              ConnectionClosedOK (Returned tt) ex_world
              (C_in_retry_wait (Raised TimeoutError)) ex_world
              (fst (rx_outer_loop ex_world)) (snd (rx_outer_loop ex_world))
              H1 H2 H3 H4 H5 H6 H7) as (Hscan & _ & _ & _ & (Hretry & _) & _).
  exact (conj H1 (conj H2 (conj H3 (conj H6 (conj H7 (conj Hscan Hretry)))))).
Defined.

(** ** The life of a registered session *)

Lemma rc_finally_trace c w :
  trace (rc_finally c w)
  = trace w ++ [EvLog INFO (Log_client_session_ended (remote_address c)
                              (size (CONNECTED_CLIENTS w ∖ {[c]})))].
Proof.
  unfold rc_finally. case_bool_decide as Hin; rewrite logger_INFO; cbn; [done |].
  by replace (CONNECTED_CLIENTS w ∖ {[c]}) with (CONNECTED_CLIENTS w) by set_solver.
Qed.

(** X1: a registered session whose peer has closed the connection, the
    event not being set, cannot be resumed as for a shutdown; resumed
    because the connection is closed, it makes no close call, cancels its
    shutdown listener, and once that task is awaited the client is out of
    the registry, the handler has returned, and the only new events are the
    cancellation and the record of the end of the session, with the new
    size of the registry. *)
Theorem session_ended_by_peer c w r :
  handlers w !! c = Some RC_wait →
  shutdown_event w = false →
  is_closed c w = true →
  (∀ e, r ≠ Raised e) →
  (∀ d1, world_step (A_handler c (RC_in_wait_done d1 true)) w = None) ∧
  ∃ w', world_run [A_handler c (RC_in_wait_done true false); A_handler c (RC_in r)] w
        = Some w' ∧
        handlers w' !! c = Some RC_returned ∧
        CONNECTED_CLIENTS w' = CONNECTED_CLIENTS w ∖ {[c]} ∧
        shutdown_event w' = false ∧ conn w' = conn w ∧
        trace w' = trace w ++
          [EvCancel (ClientShutdownListen (remote_address c));
           EvLog INFO (Log_client_session_ended (remote_address c)
                         (size (CONNECTED_CLIENTS w ∖ {[c]})))].
Proof.
  intros Hpc Hs Hcl Hr. split.
  { intros d1. cbn [world_step]. rewrite Hpc. cbn [rc_resume].
    unfold wait_done_possible. rewrite Hs. by destruct d1; cbn; rewrite ?Hcl. }
  unfold world_run. cbn [run world_step]. rewrite Hpc. cbn [rc_resume].
  unfold wait_done_possible. rewrite Hcl. cbn [orb implb andb].
  unfold rc_after_wait. cbn [app rc_cancel_pending handlers set_handler emit].
  rewrite lookup_insert_eq. cbn [rc_resume].
  set (w1 := set_handler c (RC_cancel [])
               (emit (EvCancel (ClientShutdownListen (remote_address c))) w)).
  destruct (rc_finally_spec c w1) as (HX & (Hs1 & Hc1 & _) & _).
  pose proof (rc_finally_trace c w1) as Ht.
  destruct r as [[] | e |]; [| by destruct (Hr e) |];
    cbn [rc_cancel_pending]; (eexists; split; [reflexivity |]);
    cbn [handlers set_handler CONNECTED_CLIENTS shutdown_event conn trace];
    rewrite lookup_insert_eq, HX, Hs1, Hc1, Ht; subst w1; cbn;
    rewrite <- app_assoc; by split_and!.
Qed.

Lemma session_ended_by_peer_witness :
  handlers ex_peer_closed_world !! 1%nat = Some RC_wait ∧
  shutdown_event ex_peer_closed_world = false ∧
  is_closed 1%nat ex_peer_closed_world = true ∧
  ∃ w', world_run [A_handler 1%nat (RC_in_wait_done true false);
                   A_handler 1%nat (RC_in Cancelled)] ex_peer_closed_world = Some w' ∧
        handlers w' !! 1%nat = Some RC_returned ∧
        CONNECTED_CLIENTS w' = CONNECTED_CLIENTS ex_peer_closed_world ∖ {[1%nat]}.
Proof.
  assert (H1 : handlers ex_peer_closed_world !! 1%nat = Some RC_wait)
    by (vm_compute; reflexivity).
  assert (H2 : shutdown_event ex_peer_closed_world = false) by reflexivity.
  assert (H3 : is_closed 1%nat ex_peer_closed_world = true) by (vm_compute; reflexivity).
  assert (H4 : ∀ e, (Cancelled : outcome unit) ≠ Raised e) by (intros e; discriminate).
  destruct (session_ended_by_peer 1%nat ex_peer_closed_world Cancelled H1 H2 H3 H4)
    as (_ & w' & Hrun & Hh & HX & _).
  split; [exact H1 |]. split; [exact H2 |]. split; [exact H3 |].
  exists w'. exact (conj Hrun (conj Hh HX)).
Defined.

(** X2: a registered session whose connection is not closed, resumed once
    the event is set, logs that it closes the client and calls close with
    code 1012 and the shutdown reason; when the close has returned it
    cancels the task that waits for the connection, and once that task is
    awaited the client is out of the registry and the handler has
    returned.  If instead the close raises, the handler logs the exception
    and returns all the same, the client being out of the registry. *)
Theorem session_closed_on_shutdown c w r e :
  handlers w !! c = Some RC_wait →
  shutdown_event w = true →
  is_closed c w = false →
  (∀ e', r ≠ Raised e') →
  (∃ w', world_run [A_handler c (RC_in_wait_done false true);
                   A_handler c (RC_in (Returned tt));
                   A_handler c (RC_in r)] w = Some w' ∧
        handlers w' !! c = Some RC_returned ∧
        CONNECTED_CLIENTS w' = CONNECTED_CLIENTS w ∖ {[c]} ∧
        trace w' = trace w ++
          [EvLog INFO (Log_closing_client (remote_address c));
           EvClose c 1012 "Server shutting down";
           EvCancel (ClientWait (remote_address c));
           EvLog INFO (Log_client_session_ended (remote_address c)
                         (size (CONNECTED_CLIENTS w ∖ {[c]})))]) ∧
  (∃ w' l m, world_run [A_handler c (RC_in_wait_done false true);
                       A_handler c (RC_in (Raised e))] w = Some w' ∧
            handlers w' !! c = Some RC_returned ∧
            CONNECTED_CLIENTS w' = CONNECTED_CLIENTS w ∖ {[c]} ∧
            trace w' = trace w ++
              [EvLog INFO (Log_closing_client (remote_address c));
               EvClose c 1012 "Server shutting down";
               EvLog l m;
               EvLog INFO (Log_client_session_ended (remote_address c)
                             (size (CONNECTED_CLIENTS w ∖ {[c]})))]).
Proof.
  intros Hpc Hs Hcl Hr.
  assert (Hfirst : world_step (A_handler c (RC_in_wait_done false true)) w
                   = Some (set_handler c (RC_shutdown_close [ClientWait (remote_address c)])
                             (emit (EvClose c 1012 "Server shutting down")
                                (emit (EvLog INFO (Log_closing_client (remote_address c))) w)))).
  { cbn [world_step]. rewrite Hpc. cbn [rc_resume]. unfold wait_done_possible.
    rewrite Hs. cbn [orb implb andb]. unfold rc_after_wait. rewrite logger_INFO.
    unfold is_closed in *. cbn [conn emit]. by rewrite Hcl. }
  split.
  - unfold world_run. cbn [run]. rewrite Hfirst.
    cbn [world_step handlers set_handler emit]. rewrite lookup_insert_eq.
    cbn [rc_resume rc_cancel_pending handlers set_handler emit]. rewrite lookup_insert_eq.
    cbn [rc_resume].
    match goal with |- context [rc_cancel_pending c [] ?w0] => set (w1 := w0) end.
    destruct (rc_finally_spec c w1) as (HX & _).
    pose proof (rc_finally_trace c w1) as Ht.
    destruct r as [[] | e' |]; [| by destruct (Hr e') |];
      cbn [rc_cancel_pending]; (eexists; split; [reflexivity |]);
      cbn [handlers set_handler CONNECTED_CLIENTS trace];
      rewrite lookup_insert_eq, HX, Ht; subst w1; cbn;
      rewrite <- !app_assoc; by split_and!.
  - unfold world_run. cbn [run]. rewrite Hfirst.
    cbn [world_step handlers set_handler emit]. rewrite lookup_insert_eq.
    cbn [rc_resume]. unfold rc_except.
    match goal with |- context [rc_finally c ?w0] => set (w1 := w0) end.
    destruct (rc_finally_spec c w1) as (HX & _).
    pose proof (rc_finally_trace c w1) as Ht.
    eexists. 
    assert (Hw1 : ∃ l m, trace w1 = (trace w ++ [EvLog INFO (Log_closing_client (remote_address c))]
                                     ++ [EvClose c 1012 "Server shutting down"]) ++ [EvLog l m]
                         ∧ CONNECTED_CLIENTS w1 = CONNECTED_CLIENTS w).
    { subst w1. destruct e; rewrite ?logger_INFO, ?logger_WARNING, ?logger_ERROR;
        eexists _, _; cbn; by rewrite <- !app_assoc. }
    destruct Hw1 as (l & m & Hw1 & HX1). exists l, m.
    split; [reflexivity |].
    cbn [handlers set_handler CONNECTED_CLIENTS trace].
    rewrite lookup_insert_eq, HX, Ht, Hw1, HX1. rewrite <- !app_assoc. by split_and!.
Qed.

Lemma session_closed_on_shutdown_witness :
  handlers ex_set_world !! 1%nat = Some RC_wait ∧
  shutdown_event ex_set_world = true ∧
  is_closed 1%nat ex_set_world = false ∧
  ∃ w', world_run [A_handler 1%nat (RC_in_wait_done false true);
                   A_handler 1%nat (RC_in (Returned tt));
                   A_handler 1%nat (RC_in Cancelled)] ex_set_world = Some w' ∧
        handlers w' !! 1%nat = Some RC_returned ∧
        CONNECTED_CLIENTS w' = CONNECTED_CLIENTS ex_set_world ∖ {[1%nat]}.
Proof.
  assert (H1 : handlers ex_set_world !! 1%nat = Some RC_wait) by (vm_compute; reflexivity).
  assert (H2 : shutdown_event ex_set_world = true) by reflexivity.
  assert (H3 : is_closed 1%nat ex_set_world = false) by (vm_compute; reflexivity).
  assert (H4 : ∀ e, (Cancelled : outcome unit) ≠ Raised e) by (intros e; discriminate).
  destruct (session_closed_on_shutdown 1%nat ex_set_world Cancelled ConnectionClosedOK
              H1 H2 H3 H4) as ((w' & Hrun & Hh & HX & _) & _).
  split; [exact H1 |]. split; [exact H2 |]. split; [exact H3 |].
  exists w'. exact (conj Hrun (conj Hh HX)).
Defined.

(** ** The shutdown sequence after a signal *)

(** X3: when the watcher task is done at line 160 and the receiver task
    is not, the main coroutine logs that the shutdown was triggered,
    cancels the receiver task at once, closes the listener and waits for
    it, then waits for the receiver task with timeout 10 if it is still
    not done, and returns; the event is set at the end and the registry is
    left to the sessions. *)
Theorem signal_triggers_shutdown_sequence r2 ed is_done w :
  shutdown_event w = true →
  r2 = Returned tt ∨ r2 = Raised TimeoutError →
  ∃ w', main_run (signal_shutdown_inputs r2 ed is_done) (M_wait, w) = Some (M_returned, w') ∧
        shutdown_event w' = true ∧
        trace w' = trace w ++ signal_shutdown_trace r2 ed ∧
        CONNECTED_CLIENTS w' = CONNECTED_CLIENTS w ∧
        handlers w' = handlers w.
Proof.
  intros Hs Hr2. unfold main_run, signal_shutdown_inputs, signal_shutdown_trace.
  destruct ed, Hr2 as [-> | ->];
    cbn [app run fst snd main_resume]; rewrite Hs; cbn [implb];
    unfold main_after_wait, main_shutdown_sequence; wsimpl;
    cbn [app foldl fst snd main_resume];
    unfold main_after_server_closed, main_await_tasks; wsimpl;
    cbn [app fst snd main_resume];
    unfold main_after_join, main_finish; wsimpl;
    rewrite Hs; cbn [negb];
    (eexists; split; [reflexivity |]);
    cbn; rewrite <- ?app_assoc; by split_and!.
Qed.

Lemma signal_triggers_shutdown_sequence_witness :
  shutdown_event ex_set_world = true ∧
  ∃ w', main_run (signal_shutdown_inputs (Returned tt) false (fun _ => true))
                 (M_wait, ex_set_world) = Some (M_returned, w') ∧
        EvCancel ExternalDataReceiver ∈ trace w'.
Proof.
  assert (H1 : shutdown_event ex_set_world = true) by reflexivity.
  destruct (signal_triggers_shutdown_sequence (Returned tt) false (fun _ => true)
              ex_set_world H1 (or_introl eq_refl)) as (w' & Hrun & _ & Ht & _).
  split; [exact H1 |]. exists w'. split; [exact Hrun |].
  rewrite Ht. unfold signal_shutdown_trace. set_solver.
Defined.

(** ** An idle upstream connection *)

(** X4: while the event is not set, receive timeouts and empty frames in
    any number and order leave the receiver waiting for the next frame
    with the world untouched: nothing is logged, sent or closed, and no
    connection is attempted. *)
Theorem idle_receives_change_nothing rs w :
  shutdown_event w = false →
  Forall idle_recv rs →
  sys_run (map (fun r => S_receiver (C_in_recv r)) rs) (C_recv, w) = Some (C_recv, w).
Proof.
  intros Hs Hrs. induction Hrs as [| r rs Hr _ IH]; [done |].
  unfold sys_run in *. cbn [map run sys_step fst snd rx_resume].
  assert (Hstep : rx_after_recv r w = (C_recv, w)).
  { destruct Hr as [-> | ->]; cbn; unfold rx_inner_loop; by rewrite Hs. }
  by rewrite Hstep.
Qed.

Lemma idle_receives_change_nothing_witness :
  shutdown_event ex_world = false ∧
  Forall idle_recv [Raised TimeoutError; Returned ""%string; Raised TimeoutError] ∧
  sys_run (map (fun r => S_receiver (C_in_recv r))
               [Raised TimeoutError; Returned ""%string; Raised TimeoutError])
          (C_recv, ex_world) = Some (C_recv, ex_world).
Proof.
  assert (H1 : shutdown_event ex_world = false) by reflexivity.
  assert (H2 : Forall idle_recv [Raised TimeoutError; Returned ""%string; Raised TimeoutError]).
  { constructor; [by left |]. constructor; [by right |]. constructor; [by left |].
    constructor. }
  exact (conj H1 (conj H2 (idle_receives_change_nothing _ ex_world H1 H2))).
Defined.

(** ** Which events each part of the program adds *)

Ltac ext_tac :=
  repeat first
    [ apply extends_refl
    | apply extends_emit; [first [done | by repeat split | by auto] |]
    | apply extends_logger; [first [done | by auto] |]
    | by apply extends_id ].

Section HandlerEvents.
Context (P : event → Prop).
Hypothesis P_log : ∀ l m, P (EvLog l m).
Hypothesis P_cancel : ∀ t, P (EvCancel t).

Lemma rc_finally_ext c w0 w : extends P w0 w → extends P w0 (rc_finally c w).
Proof.
  intros H. unfold rc_finally. cbn zeta. apply extends_logger; [done |].
  case_bool_decide; [| done]. by apply extends_same_trace with w.
Qed.

Lemma rc_except_ext c e w0 w : extends P w0 w → extends P w0 (snd (rc_except c e w)).
Proof.
  intros H. unfold rc_except. cbn [snd]. apply rc_finally_ext.
  destruct e; by apply extends_logger.
Qed.

Lemma rc_cancel_pending_ext c pending w0 w :
  extends P w0 w → extends P w0 (snd (rc_cancel_pending c pending w)).
Proof.
  intros H. destruct pending as [| t rest]; cbn [rc_cancel_pending snd].
  - by apply rc_finally_ext.
  - by apply extends_emit.
Qed.
End HandlerEvents.

Lemma handler_event_log flag l m : handler_event flag (EvLog l m).
Proof. done. Qed.

Lemma handler_event_cancel flag t : handler_event flag (EvCancel t).
Proof. done. Qed.

(** A segment of a handler adds only events of a handler; it calls close
    only with the shutdown code and reason, and only when it starts with
    the event set. *)
Lemma rc_resume_events c i pc w pc' w' :
  rc_resume c i pc w = Some (pc', w') → extends (handler_event (shutdown_event w)) w w'.
Proof.
  intros H. set (P := handler_event (shutdown_event w)).
  assert (Hlog : ∀ l m, P (EvLog l m)) by done.
  assert (Hcancel : ∀ t, P (EvCancel t)) by done.
  destruct pc as [| | | pending | rest | | r0], i as [| d1 d2 | r];
    try discriminate H; cbn [rc_resume] in H.
  - apply (inj Some) in H. use_snd H. unfold register_client.
    destruct (shutdown_event w) eqn:Hs; cbn [snd].
    + apply extends_emit; [subst P; by repeat split |]. by apply extends_logger, extends_refl.
    + repeat (apply extends_emit; [done |]). by apply extends_id.
  - apply (inj Some) in H. use_snd H. unfold rc_after_reject_close.
    destruct r as [[] | e |]; [| destruct (isinstance_ConnectionClosed e) |]; apply extends_refl.
  - destruct (wait_done_possible c d1 d2 w) eqn:Hp; [| done].
    apply (inj Some) in H. use_snd H. unfold rc_after_wait.
    destruct d2.
    + assert (Hs : shutdown_event w = true).
      { unfold wait_done_possible in Hp. by destruct d1, (is_closed c w), (shutdown_event w). }
      destruct (negb (is_closed c _)); cbn [snd].
      * apply extends_emit; [subst P; by rewrite Hs |]. by apply extends_logger, extends_refl.
      * apply rc_cancel_pending_ext; try done. by apply extends_logger, extends_refl.
    + apply rc_cancel_pending_ext; try done. apply extends_refl.
  - destruct r as [[] | e |]; try discriminate H; apply (inj Some) in H; use_snd H.
    + apply rc_except_ext; try done. apply extends_refl.
    + unfold rc_cancelled. cbn [snd]. apply rc_finally_ext; try done. apply extends_refl.
  - destruct r as [[] | e |]; apply (inj Some) in H; use_snd H.
    + apply rc_cancel_pending_ext; try done. apply extends_refl.
    + apply rc_except_ext; try done. apply extends_refl.
    + unfold rc_cancelled. cbn [snd]. apply rc_finally_ext; try done. apply extends_refl.
  - destruct r as [[] | e |]; apply (inj Some) in H; use_snd H.
    + apply rc_cancel_pending_ext; try done. apply extends_refl.
    + apply rc_except_ext; try done. apply extends_refl.
    + apply rc_cancel_pending_ext; try done. apply extends_refl.
Qed.

(** A segment of a handler adds its client to the registry only when it
    starts with the event not set; otherwise it leaves the registry as it
    is or removes its client. *)
Lemma rc_resume_registry c i pc w pc' w' :
  rc_resume c i pc w = Some (pc', w') →
  CONNECTED_CLIENTS w' = CONNECTED_CLIENTS w ∨
  CONNECTED_CLIENTS w' = CONNECTED_CLIENTS w ∖ {[c]} ∨
  (shutdown_event w = false ∧ CONNECTED_CLIENTS w' = {[c]} ∪ CONNECTED_CLIENTS w).
Proof.
  intros H.
  destruct pc as [| | | pending | rest | | r0], i as [| d1 d2 | r];
    try discriminate H; cbn [rc_resume] in H.
  - apply (inj Some) in H. apply register_client_spec in H as (_ & _ & [(_&_&->) | (?&_&->)]);
      auto.
  - left. unfold rc_after_reject_close in H.
    destruct r as [[] | e |]; [| destruct (isinstance_ConnectionClosed e) |];
      by injection H as <- <-.
  - destruct (wait_done_possible c d1 d2 w); [| done]. apply (inj Some) in H.
    destruct (rc_after_wait_spec c d1 d2 w) as (_ & _ & HR). rewrite H in HR.
    cbn [fst snd] in HR. destruct HR as [[_ ->] | [_ ->]]; auto.
  - destruct r as [[] | e |]; try discriminate H; apply (inj Some) in H.
    + destruct (rc_except_spec c e w) as (_ & HX & _). rewrite H in HX. auto.
    + injection H as <- <-. destruct (rc_finally_spec c w) as (-> & _). auto.
  - destruct r as [[] | e |]; apply (inj Some) in H.
    + destruct (rc_cancel_pending_spec c pending w) as (_ & _ & HR). rewrite H in HR.
      cbn [fst snd] in HR. destruct HR as [[_ ->] | [_ ->]]; auto.
    + destruct (rc_except_spec c e w) as (_ & HX & _). rewrite H in HX. auto.
    + injection H as <- <-. destruct (rc_finally_spec c w) as (-> & _). auto.
  - assert (Hcases :
        rc_cancel_pending c rest w = (pc', w') ∨ ∃ e, rc_except c e w = (pc', w')).
    { destruct r as [[] | e |]; apply (inj Some) in H; eauto. }
    destruct Hcases as [H' | [e H']].
    + destruct (rc_cancel_pending_spec c rest w) as (_ & _ & HR). rewrite H' in HR.
      cbn [fst snd] in HR. destruct HR as [[_ ->] | [_ ->]]; auto.
    + destruct (rc_except_spec c e w) as (_ & HX & _). rewrite H' in HX. auto.
Qed.

Section MainEvents.
Context (P : event → Prop).
Hypothesis P_log : ∀ l m, P (EvLog l m).
Hypothesis P_cancel : ∀ t, P (EvCancel t).
Hypothesis P_wait_tasks : ∀ ts t, P (EvWaitTasks ts t).

Lemma main_finish_ext w0 w : extends P w0 w → extends P w0 (snd (main_finish w)).
Proof. intros H. unfold main_finish. cbn [snd]. by apply extends_logger. Qed.

Lemma main_await_tasks_ext ed sd w0 w :
  extends P w0 w → extends P w0 (snd (main_await_tasks ed sd w)).
Proof.
  intros H. unfold main_await_tasks.
  destruct ed, sd; cbn [app fst snd]; try (by apply main_finish_ext);
    apply extends_emit; try done; by apply extends_logger.
Qed.

Lemma main_cancel_loop_ext todo is_done w0 w :
  extends P w0 w → extends P w0 (snd (main_cancel_loop todo is_done w)).
Proof.
  intros H. induction todo as [| t rest IH]; cbn [main_cancel_loop].
  - by apply main_finish_ext.
  - destruct (negb (is_done t)); [| done]. cbn [snd].
    apply extends_emit; [done |]. by apply extends_logger.
Qed.
End MainEvents.

Lemma server_closes_app tr1 tr2 :
  server_closes (tr1 ++ tr2) = (server_closes tr1 + server_closes tr2)%nat.
Proof. unfold server_closes. by rewrite omap_app, length_app. Qed.

Lemma server_closes_none evs : Forall not_server_close evs → server_closes evs = 0%nat.
Proof.
  induction 1 as [| ev evs Hev _ IH]; [done |].
  unfold server_closes in *. cbn. by destruct ev.
Qed.

Lemma extends_server_closes (P : event → Prop) w w' :
  (∀ ev, P ev → not_server_close ev) → extends P w w' →
  server_closes (trace w') = server_closes (trace w).
Proof.
  intros HP (evs & -> & HF). rewrite server_closes_app, (server_closes_none evs); [lia |].
  eapply Forall_impl; eauto.
Qed.

Lemma cancel_all_server_closes pending w :
  server_closes (trace (foldl (fun w task => emit (EvCancel task) w) w pending))
  = server_closes (trace w).
Proof.
  revert w. induction pending as [| t rest IH]; intros w; cbn [foldl]; [done |].
  rewrite IH. cbn [trace emit]. rewrite server_closes_app. cbn. lia.
Qed.

(** A segment of the main coroutine either is the one that starts the
    shutdown sequence, which sets the event and closes the listener once,
    or does not close the listener and does not lead back before the
    shutdown sequence. *)
Lemma main_resume_closes i pc w pc' w' :
  main_resume i pc w = Some (pc', w') →
  (pc = M_wait ∧ pc' = M_server_wait_closed ∧ shutdown_event w' = true ∧
   server_closes (trace w') = S (server_closes (trace w))) ∨
  (server_closes (trace w') = server_closes (trace w) ∧
   pc' ≠ M_not_started ∧
   (pc' = M_serve ∨ pc' = M_wait → pc = M_not_started ∨ pc = M_serve)).
Proof.
  intros H.
  assert (Hlater : ∀ w1, extends after_close_event w w1 →
            server_closes (trace w1) = server_closes (trace w)).
  { intros w1. apply extends_server_closes. by intros []. }
  destruct pc as [| | | | ts | t rest | | r0],
           i as [| r | ext sd | r ed sd | r is_done | r is_done];
    try discriminate H; cbn [main_resume] in H.
  - injection H as <- <-. right. cbn [trace emit]. rewrite server_closes_app. cbn.
    split_and!; [lia | done | auto].
  - right. unfold main_after_serve in H.
    destruct r as [[] | e |];
      [| destruct (isinstance_OSError e); [destruct (errno_is e 10048) |] |];
      injection H as <- <-; wsimpl; rewrite ?server_closes_app; cbn;
      (split_and!; [lia | done | intros [? | ?]; auto; done]).
  - destruct (implb sd (shutdown_event w)); [| done].
    assert (Hshut : ∀ pending w1,
              shutdown_event w1 = shutdown_event w → 
              server_closes (trace w1) = server_closes (trace w) →
              main_shutdown_sequence pending w1 = (pc', w') →
              pc' = M_server_wait_closed ∧ shutdown_event w' = true ∧
              server_closes (trace w') = S (server_closes (trace w))).
    { intros pending w1 Hs1 Hc1 Hseq.
      destruct (main_shutdown_sequence_spec pending w1 w1 (keeps_clients_refl _ _))
        as (_ & Hset & Hpc).
      rewrite Hseq in Hset, Hpc. cbn [fst snd] in *. split_and!; try done.
      unfold main_shutdown_sequence in Hseq. injection Hseq as _ <-. wsimpl.
      rewrite !server_closes_app.
      rewrite cancel_all_server_closes. destruct (negb (shutdown_event _));
        cbn [trace emit event_set]; rewrite ?server_closes_app, Hc1; cbn; lia. }
    unfold main_after_wait in H.
    destruct ext as [[[] | e |] |]; [| | | destruct sd]; apply (inj Some) in H.
    + left. split; [done |]. eapply Hshut; [| | exact H]; wsimpl; [done |].
      rewrite server_closes_app. cbn. lia.
    + left. split; [done |]. eapply Hshut; [| | exact H]; wsimpl; [done |].
      rewrite !server_closes_app. cbn. lia.
    + injection H as <- <-. right. split_and!; [| done | intros [? | ?]; done].
      wsimpl. rewrite server_closes_app. cbn. lia.
    + left. split; [done |]. eapply Hshut; [| | exact H]; wsimpl; [done |].
      rewrite server_closes_app. cbn. lia.
    + left. split; [done |]. eapply Hshut; [| | exact H]; wsimpl; [done |].
      rewrite server_closes_app. cbn. lia.
  - right. apply (inj Some) in H. unfold main_after_server_closed in H.
    assert (Hcases : (∃ x, (pc', w') = (M_raised x, w)) ∨
                     ∃ w1, extends after_close_event w w1 ∧
                           main_await_tasks ed sd w1 = (pc', w')).
    { destruct r as [[] | e |]; [| destruct e |]; eauto;
        right; eexists; (split; [| exact H]); by apply extends_logger, extends_refl. }
    destruct Hcases as [(x & [= -> ->]) | (w1 & HE & Hw)].
    + split_and!; [done | done | intros [? | ?]; done].
    + split_and!.
      * apply Hlater. use_snd Hw. by apply main_await_tasks_ext.
      * use_fst Hw. unfold main_await_tasks, main_finish. by destruct ed, sd.
      * use_fst Hw. unfold main_await_tasks, main_finish.
        by destruct ed, sd; intros [? | ?].
  - right. apply (inj Some) in H. unfold main_after_join in H.
    assert (Hcases : (∃ x, (pc', w') = (M_raised x, w)) ∨ main_finish w = (pc', w') ∨
                     ∃ w1, extends after_close_event w w1 ∧
                           main_cancel_loop ts is_done w1 = (pc', w')).
    { destruct r as [[] | e |]; [| destruct e |]; eauto.
      right; right; eexists; (split; [| exact H]); by apply extends_logger, extends_refl. }
    destruct Hcases as [(x & [= -> ->]) | [Hw | (w1 & HE & Hw)]].
    + split_and!; [done | done | intros [? | ?]; done].
    + injection Hw as <- <-. split_and!; [| done | intros [? | ?]; done].
      apply Hlater. by apply extends_logger, extends_refl.
    + split_and!.
      * apply Hlater. use_snd Hw. by apply main_cancel_loop_ext.
      * use_fst Hw. by destruct (main_cancel_loop_pc ts is_done w1) as [-> | (?&?&->)].
      * use_fst Hw.
        by destruct (main_cancel_loop_pc ts is_done w1) as [-> | (?&?&->)]; intros [? | ?].
  - right. apply (inj Some) in H. unfold main_after_cancelled_task in H.
    assert (Hcases : ∃ w1, extends after_close_event w w1 ∧
                           main_cancel_loop rest is_done w1 = (pc', w')).
    { destruct r as [[] | e |]; eexists; (split; [| exact H]);
        try apply extends_refl; by apply extends_logger, extends_refl. }
    destruct Hcases as (w1 & HE & Hw). split_and!.
    + apply Hlater. use_snd Hw. by apply main_cancel_loop_ext.
    + use_fst Hw. by destruct (main_cancel_loop_pc rest is_done w1) as [-> | (?&?&->)].
    + use_fst Hw.
      by destruct (main_cancel_loop_pc rest is_done w1) as [-> | (?&?&->)]; intros [? | ?].
Qed.

Section MainOwnEvents.
Context (P : event → Prop).
Hypothesis HP : ∀ ev, main_event ev → P ev.

(** A segment of the main coroutine adds only events of the main
    coroutine. *)
Lemma main_resume_events i pc w pc' w' :
  main_resume i pc w = Some (pc', w') → extends P w w'.
Proof.
  intros H.
  assert (Hlog : ∀ l m, P (EvLog l m)) by (intros; by apply HP).
  assert (Hcancel : ∀ t, P (EvCancel t)) by (intros; by apply HP).
  assert (Hwt : ∀ ts t, P (EvWaitTasks ts t)) by (intros; by apply HP).
  destruct pc as [| | | | ts | t rest | | r0],
           i as [| r | ext sd | r ed sd | r is_done | r is_done];
    try discriminate H; cbn [main_resume] in H.
  - injection H as <- <-. apply extends_emit; [by apply HP | apply extends_refl].
  - apply (inj Some) in H. use_snd H. unfold main_after_serve.
    destruct r as [[] | e |];
      [| destruct (isinstance_OSError e); [destruct (errno_is e 10048) |] |];
      cbn [snd]; repeat first [ apply extends_refl
                              | apply extends_logger; [by apply HP |]
                              | apply extends_emit; [by apply HP |] ].
  - destruct (implb sd (shutdown_event w)); [| done].
    apply (inj Some) in H. use_snd H. unfold main_after_wait.
    assert (Hseq : ∀ pending w1, extends P w w1 →
              extends P w (snd (main_shutdown_sequence pending w1))).
    { intros pending w1 H1. unfold main_shutdown_sequence. cbn [snd].
      repeat first [ apply extends_logger; [by apply HP |]
                   | apply extends_emit; [by apply HP |] ].
      assert (H2 : extends P w (if negb (shutdown_event
                                           (logger INFO Log_initiating_shutdown w1))
                                then event_set (logger INFO Log_initiating_shutdown w1)
                                else logger INFO Log_initiating_shutdown w1)).
      { destruct (negb _); by apply extends_logger. }
      revert H2. generalize (if negb (shutdown_event
                                        (logger INFO Log_initiating_shutdown w1))
                             then event_set (logger INFO Log_initiating_shutdown w1)
                             else logger INFO Log_initiating_shutdown w1).
      induction pending as [| t rest IH]; intros w2 H2; cbn [foldl]; [done |].
      apply IH. by apply extends_emit. }
    destruct ext as [[[] | e |] |]; [| | | destruct sd]; cbn [snd];
      try (apply Hseq); repeat (apply extends_logger; [by apply HP |]);
      apply extends_refl.
  - apply (inj Some) in H. use_snd H. unfold main_after_server_closed.
    destruct r as [[] | e |]; [| destruct e |]; cbn [snd]; try apply extends_refl;
      apply main_await_tasks_ext; try done; by apply extends_logger, extends_refl.
  - apply (inj Some) in H. use_snd H. unfold main_after_join.
    destruct r as [[] | e |]; [| destruct e |]; cbn [snd]; try apply extends_refl.
    + apply main_finish_ext; [done |]. apply extends_refl.
    + apply main_cancel_loop_ext; try done. by apply extends_logger, extends_refl.
  - apply (inj Some) in H. use_snd H. unfold main_after_cancelled_task.
    destruct r as [[] | e |]; apply main_cancel_loop_ext; try done;
      try apply extends_refl; by apply extends_logger, extends_refl.
Qed.
End MainOwnEvents.

Ltac use_pair H pc' w' :=
  apply (inj Some) in H;
  let Hpc := fresh in let Hw := fresh in
  assert (Hpc := f_equal fst H); assert (Hw := f_equal snd H);
  cbn [fst snd] in Hpc, Hw; clear H; subst pc' w'.

Section ReceiverOwnEvents.
Context (P : event → Prop).
Hypothesis HQ : ∀ ev, receiver_quiet_event ev → P ev.

Lemma rx_outer_loop_ext w0 w : extends P w0 w → extends P w0 (snd (rx_outer_loop w)).
Proof.
  intros H. unfold rx_outer_loop. destruct (negb (shutdown_event w)); cbn [snd].
  - apply extends_emit; [by apply HQ |]. by apply extends_logger; [apply HQ |].
  - by apply extends_logger; [apply HQ |].
Qed.

Lemma rx_after_try_ext w0 w : extends P w0 w → extends P w0 (snd (rx_after_try w)).
Proof.
  intros H. unfold rx_after_try. destruct (negb (shutdown_event w)); cbn [snd].
  - by apply extends_emit; [apply HQ |].
  - by apply rx_outer_loop_ext.
Qed.

Lemma rx_outer_except_ext e w0 w : extends P w0 w → extends P w0 (rx_outer_except e w).
Proof.
  intros H. unfold rx_outer_except. destruct (_ || _); by apply extends_logger; [apply HQ |].
Qed.

Lemma rx_inner_loop_ext w0 w : extends P w0 w → extends P w0 (snd (rx_inner_loop w)).
Proof.
  intros H. unfold rx_inner_loop, rx_leave_with.
  destruct (negb (shutdown_event w)); cbn [snd]; [done |].
  by apply extends_emit; [apply HQ |].
Qed.

Lemma rx_inner_loop_pc w m ts : fst (rx_inner_loop w) ≠ C_gather m ts.
Proof. unfold rx_inner_loop, rx_leave_with. by destruct (negb _). Qed.

Lemma rx_inner_loop_ret w : fst (rx_inner_loop w) ≠ C_returned.
Proof. unfold rx_inner_loop, rx_leave_with. by destruct (negb _). Qed.

Lemma broadcast_message_ext message_str w0 w :
  extends P w0 w → extends P w0 (snd (broadcast_message message_str w)).
Proof.
  intros H. destruct (decide (message_str = ""%string)) as [-> | Hne]; [done |].
  destruct (broadcast_message_spec message_str w Hne) as (_ & _ & Ht).
  eapply extends_trans; [exact H |]. eexists. split; [exact Ht |].
  apply Forall_forall. intros ev (c & -> & _)%list_elem_of_fmap.
  apply HQ. unfold snapshot_event. by destruct (is_open c w).
Qed.

Lemma log_send_errors_ext tasks w0 w :
  extends P w0 w → extends P w0 (log_send_errors tasks w).
Proof.
  induction tasks as [| t rest IH] in w |- *; cbn [log_send_errors]; [done |].
  intros H. destruct (task_result t) as [[[] | e |] |]; try by apply IH.
  apply IH. by apply extends_logger; [apply HQ |].
Qed.

(** The three kinds of step of the receiver: it takes a non-empty message
    and hands it to the broadcast, it runs one send of the broadcast in
    progress, or it does neither. *)
Lemma rx_resume_step i pc w pc' w' :
  rx_resume i pc w = Some (pc', w') →
  (∃ m, pc = C_recv ∧ i = C_in_recv (Returned m) ∧ m ≠ ""%string ∧
        extends P (emit (EvCallBroadcast m) w) w' ∧
        ∀ m' ts, pc' = C_gather m' ts → m' = m)
  ∨ (∃ m tasks tasks' c, pc = C_gather m tasks ∧ pc' = C_gather m tasks' ∧
                         w' = emit (EvSend c m) w)
  ∨ ((∀ m, i = C_in_recv (Returned m) → m = ""%string) ∧
     extends P w w' ∧ ∀ m ts, pc' ≠ C_gather m ts).
Proof.
  intros H.
  destruct pc as [| | | m tasks | cancelled | | | r0],
           i as [| r | r | i | | r | r]; try discriminate H; cbn [rx_resume] in H.
  - destruct (task_created _ _); [| done]. use_pair H pc' w'. right; right; split; [done |]. unfold receive_from_external_adsb. split.
    + apply rx_outer_loop_ext.
      apply extends_logger; [by apply HQ | apply extends_refl].
    + intros m ts. unfold rx_outer_loop. by destruct (negb _).
  - use_pair H pc' w'. right; right; split; [done |].
    unfold rx_after_connect. destruct r as [[] | e |]; cbn [fst snd].
    + split; [| apply rx_inner_loop_pc]. apply rx_inner_loop_ext.
      apply extends_logger; [by apply HQ | apply extends_refl].
    + split; [apply rx_after_try_ext, rx_outer_except_ext, extends_refl |].
      intros m ts. unfold rx_after_try, rx_outer_loop.
      by repeat destruct (negb _).
    + split; [apply extends_refl | done].
  - use_pair H pc' w'. unfold rx_after_recv, rx_leave_with.
    destruct r as [m | e |].
    + case_bool_decide as Hm.
      * left. exists m. split_and!; [done | done | done | |].
        -- pose proof (broadcast_message_ext m (emit (EvCallBroadcast m) w)
                         (emit (EvCallBroadcast m) w) (extends_refl _ _)) as Hb.
           destruct (broadcast_message m _) as [[m' tasks |] w1]; cbn [snd] in *;
             [done | by apply rx_inner_loop_ext].
        -- intros m' ts Hg.
           pose proof (broadcast_message_spec m (emit (EvCallBroadcast m) w) Hm)
             as (Hf & _).
           destruct (broadcast_message m _) as [[m1 tasks |] w1]; cbn [fst snd] in *.
           ++ destruct (open_snapshot _); [done |]. congruence.
           ++ by apply rx_inner_loop_pc in Hg.
      * right; right. split.
        { intros m0 [= <-]. by destruct (decide (m = ""%string)). }
        split; [apply rx_inner_loop_ext, extends_refl | apply rx_inner_loop_pc].
    + right; right; split; [done |].
      destruct e; cbn [isinstance_ConnectionClosed fst snd];
        (split; [| first [apply rx_inner_loop_pc | done]]);
        try (apply rx_inner_loop_ext, extends_refl);
        (apply extends_emit; [by apply HQ |]);
        apply extends_logger; try (by apply HQ); apply extends_refl.
    + right; right; split; [done |]. cbn [fst snd].
      split; [| done]. apply extends_emit; [by apply HQ | apply extends_refl].
  - cbn [bc_resume] in H. destruct i as [k r |].
    + destruct (run_send_task k r m tasks w) as [[tasks1 w1] |] eqn:Hrun; [| done].
      injection H as <- <-. apply run_send_task_spec in Hrun as (c & _ & _ & ->).
      right; left. by exists m, tasks, tasks1, c.
    + destruct (forallb task_done tasks); [| done]. use_pair H pc' w'.
      right; right; split; [done |].
      split; [| apply rx_inner_loop_pc].
      apply rx_inner_loop_ext, log_send_errors_ext, extends_refl.
  - injection H as <- <-. right; right; split; [done |].
    split; [| done]. apply extends_emit; [by apply HQ | apply extends_refl].
  - use_pair H pc' w'. right; right; split; [done |].
    unfold rx_after_aexit.
    destruct r as [[] | e |]; [destruct cancelled | |]; cbn [fst snd];
      try (split; [apply extends_refl | done]).
    + split; [apply rx_after_try_ext, extends_refl |].
      intros m ts. unfold rx_after_try, rx_outer_loop. by repeat destruct (negb _).
    + split; [apply rx_after_try_ext, rx_outer_except_ext, extends_refl |].
      intros m ts. unfold rx_after_try, rx_outer_loop. by repeat destruct (negb _).
  - assert (Hr : rx_after_retry_wait r w = (pc', w')).
    { destruct r as [[] | e |]; [destruct (shutdown_event w); [| done] | |];
        by apply (inj Some) in H. }
    apply (f_equal Some) in Hr. use_pair Hr pc' w'. right; right; split; [done |].
    unfold rx_after_retry_wait.
    destruct r as [[] | e |]; [| destruct e |]; cbn [fst snd];
      try (split; [apply extends_refl | done]);
      (split; [apply rx_outer_loop_ext, extends_refl |]);
      intros m ts; unfold rx_outer_loop; by destruct (negb _).
Qed.

Hypothesis HS : ∀ c m, P (EvSend c m).
Hypothesis HC : ∀ m, P (EvCallBroadcast m).

(** A step of the receiver adds only events of the receiver. *)
Lemma rx_resume_events i pc w pc' w' :
  rx_resume i pc w = Some (pc', w') → extends P w w'.
Proof.
  intros [(m & _ & _ & _ & H & _) | [(m & ts & ts' & c & _ & _ & ->) | (_ & H & _)]]%rx_resume_step;
    [| apply extends_emit; [apply HS | apply extends_refl] | done].
  eapply extends_trans; [| exact H].
  apply extends_emit; [apply HC | apply extends_refl].
Qed.
End ReceiverOwnEvents.

(** ** Invariants of all runs *)

Lemma world_events_silent evs :
  Forall world_event evs →
  sends evs = [] ∧ connect_attempts evs = [] ∧ broadcast_calls evs = [].
Proof.
  induction 1 as [| ev evs Hev _ (IH1 & IH2 & IH3)]; [done |].
  unfold sends, connect_attempts, broadcast_calls in *.
  split_and!; cbn; destruct ev; try done.
Qed.

Lemma quiet_events_silent evs :
  Forall receiver_quiet_event evs → sends evs = [] ∧ broadcast_calls evs = [].
Proof.
  induction 1 as [| ev evs Hev _ (IH1 & IH2)]; [done |].
  unfold sends, broadcast_calls in *.
  split_and!; cbn; destruct ev; try done.
Qed.

Lemma world_step_main_task a w w' :
  (∀ i, a ≠ A_main i) → world_step a w = Some w' → main_task w' = main_task w.
Proof.
  intros Ha H. destruct a as [c | c st | c i | sig | i]; cbn [world_step] in H.
  - destruct (_ && _); [| done]. by injection H as <-.
  - destruct (conn w !! c) as [old |]; [| done].
    destruct (conn_may_change old st); [| done]. by injection H as <-.
  - destruct (handlers w !! c) as [pc |]; [| done].
    destruct (rc_resume c i pc w) as [[pc' w1] |] eqn:Hr; [| done]. injection H as <-.
    apply rc_resume_spec in Hr as ((_ & _ & _ & Hm) & _). exact Hm.
  - injection H as <-. by destruct (os_signal_handler_spec sig w) as ((_ & _ & _ & Hm & _) & _).
  - by destruct (Ha i).
Qed.

(** A step of a session, of the signal handler or of the main coroutine
    adds only events of its own. *)
Lemma world_step_own_events (P : event → Prop) a w w' :
  (∀ ev, handler_event (shutdown_event w) ev → P ev) →
  ((∃ i, a = A_main i) → ∀ ev, main_event ev → P ev) →
  world_step a w = Some w' → extends P w w'.
Proof.
  intros Hh Hm H. destruct a as [c | c st | c i | sig | i]; cbn [world_step] in H.
  - destruct (_ && _); [| done]. injection H as <-. by apply extends_id.
  - destruct (conn w !! c) as [old |]; [| done].
    destruct (conn_may_change old st); [| done]. injection H as <-. by apply extends_id.
  - destruct (handlers w !! c) as [pc |]; [| done].
    destruct (rc_resume c i pc w) as [[pc' w1] |] eqn:Hr; [| done]. injection H as <-.
    apply extends_same_trace with w1; [done |].
    eapply extends_weaken; [exact Hh |]. by eapply rc_resume_events.
  - injection H as <-. destruct (os_signal_handler_trace sig w) as (l & m & Ht & Hl).
    exists (EvLog INFO (Log_received_signal sig) :: l). split; [done |].
    constructor; [by apply Hh |].
    destruct Hl as [-> | ->]; [done |]. constructor; [by apply Hh | done].
  - destruct (main_resume i (main_task w) w) as [[pc' w1] |] eqn:Hr; [| done].
    injection H as <-. apply extends_same_trace with w1; [done |].
    eapply main_resume_events; [| exact Hr]. apply Hm. by exists i.
Qed.

Lemma sys_run_flag acts s s' :
  sys_run acts s = Some s' → shutdown_event (snd s) = true → shutdown_event (snd s') = true.
Proof.
  apply (run_invariant sys_step (λ s, shutdown_event (snd s) = true)).
  intros a s1 s2 H. by apply sys_step_flag with a.
Qed.

Lemma handler_event_close_ok flag ev : handler_event flag ev → close_ok flag ev.
Proof. destruct ev as [| | | t | | | | | | | | |]; try done. Qed.

Lemma main_event_close_ok flag ev : main_event ev → close_ok flag ev.
Proof. by destruct ev. Qed.

Lemma receiver_event_close_ok flag ev : receiver_quiet_event ev → close_ok flag ev.
Proof. by destruct ev. Qed.

Lemma sys_step_closes a s s' :
  sys_step a s = Some s' → extends (close_ok (shutdown_event (snd s))) (snd s) (snd s').
Proof.
  destruct s as [pc w], a as [a | i]; cbn [sys_step fst snd]; intros H.
  - destruct (world_step a w) as [w1 |] eqn:Hw; [| done]. injection H as <-. cbn [snd].
    eapply world_step_own_events; [| | exact Hw].
    + apply handler_event_close_ok.
    + intros _ ev. apply main_event_close_ok.
  - destruct s' as [pc' w']. cbn [snd].
    eapply rx_resume_events; [| | | exact H]; [apply receiver_event_close_ok | done | done].
Qed.

(** X5: in every run, from whatever state, a client connection is closed
    by the server only with code 1012 and reason "Server shutting down",
    and only once the shutdown event is set (lines 32 and 51). *)
Theorem clients_closed_only_on_shutdown acts s s' :
  sys_run acts s = Some s' →
  ∃ evs, trace (snd s') = trace (snd s) ++ evs ∧
         ∀ c code reason, EvClose c code reason ∈ evs →
           code = 1012 ∧ reason = "Server shutting down"%string ∧
           shutdown_event (snd s') = true.
Proof.
  revert s. induction acts as [| a acts IH]; intros s H; cbn [sys_run run] in H.
  - injection H as <-. exists []. split; [by rewrite app_nil_r |].
    intros c code reason Hin. by apply elem_of_nil in Hin.
  - unfold sys_run in H. cbn [run] in H.
    destruct (sys_step a s) as [s1 |] eqn:Hstep; [| done].
    destruct (sys_step_closes a s s1 Hstep) as (evs1 & Ht1 & F1).
    destruct (IH s1 H) as (evs2 & Ht2 & H2).
    exists (evs1 ++ evs2). split; [by rewrite Ht2, Ht1, app_assoc |].
    intros c code reason [Hin | Hin]%elem_of_app; [| by apply H2 in Hin].
    rewrite Forall_forall in F1. destruct (F1 _ Hin) as (-> & -> & Hs).
    split_and!; [done | done |].
    apply (sys_run_flag acts s1 s' H). by apply sys_step_flag with a s.
Qed.

Lemma clients_closed_only_on_shutdown_witness :
  sys_run ex_life_schedule initial_system = Some ex_life_state ∧
  EvClose 1%nat 1012 "Server shutting down" ∈ trace (snd ex_life_state) ∧
  ∃ evs, trace (snd ex_life_state) = trace (snd initial_system) ++ evs ∧
         ∀ c code reason, EvClose c code reason ∈ evs →
           code = 1012 ∧ reason = "Server shutting down"%string ∧
           shutdown_event (snd ex_life_state) = true.
Proof.
  assert (H1 : sys_run ex_life_schedule initial_system = Some ex_life_state)
    by (vm_compute; reflexivity).
  assert (H2 : EvClose 1%nat 1012 "Server shutting down" ∈ trace (snd ex_life_state))
    by (apply (bool_decide_unpack _); vm_compute; exact I).
  exact (conj H1 (conj H2 (clients_closed_only_on_shutdown _ _ _ H1))).
Defined.

Lemma handler_event_not_server_close flag ev : handler_event flag ev → not_server_close ev.
Proof. by destruct ev. Qed.

Lemma receiver_event_not_server_close ev : receiver_event ev → not_server_close ev.
Proof. by destruct ev. Qed.

Lemma listener_inv_step a s s' :
  sys_step a s = Some s' → listener_inv (snd s) → listener_inv (snd s').
Proof.
  destruct s as [pc w], a as [a | i]; cbn [sys_step fst snd]; intros H (Hle & Hpc & Hset).
  - destruct (world_step a w) as [w1 |] eqn:Hw; [| done]. injection H as <-. cbn [snd].
    destruct (world_step_spec a w w1 Hw) as (_ & Hflag).
    destruct a as [c | c st | c i | sig | i].
    5: { cbn [world_step] in Hw.
         destruct (main_resume i (main_task w) w) as [[pc' w2] |] eqn:Hr; [| done].
         injection Hw as <-. unfold listener_inv in *. cbn [trace main_task set_main] in *.
         destruct (main_resume_closes _ _ _ _ _ Hr)
           as [(Hwait & -> & Hs & Hc) | (Hc & Hne & Hback)].
         - rewrite Hwait in Hpc. rewrite Hc, Hpc. split_and!; [lia | done | done].
         - rewrite Hc. split_and!; [done | | by intros ?; apply Hflag, Hset].
           destruct pc'; try done.
           + destruct Hback as [Hb | Hb]; [by left | |]; by rewrite Hb in Hpc.
           + destruct Hback as [Hb | Hb]; [by right | |]; by rewrite Hb in Hpc. }
    all: assert (Hm : main_task w1 = main_task w)
           by (by eapply world_step_main_task; [| exact Hw]).
    all: assert (Hc : server_closes (trace w1) = server_closes (trace w)).
    all: try (apply (extends_server_closes (handler_event (shutdown_event w)));
              [apply handler_event_not_server_close |];
              by eapply world_step_own_events; [| | exact Hw]; [| intros (? & ?)]).
    all: unfold listener_inv; rewrite Hm, Hc; split_and!; [done | done |];
         by intros ?; apply Hflag, Hset.
  - destruct s' as [pc' w']. cbn [snd].
    destruct (rx_resume_same_shared _ _ _ _ _ H) as (_ & Hs & _ & _ & Hm).
    assert (Hc : server_closes (trace w') = server_closes (trace w)).
    { apply (extends_server_closes receiver_event);
        [apply receiver_event_not_server_close |].
      eapply rx_resume_events; [| | | exact H]; [by intros [] | done | done]. }
    unfold listener_inv. by rewrite Hm, Hc, Hs.
Qed.

(** X6: in every run from the start of the program the listener is closed
    at most once (line 185), never while the main coroutine is before or in
    its wait at line 160, and only with the shutdown event set. *)
Theorem listener_closed_once_on_shutdown acts s' :
  sys_run acts initial_system = Some s' → listener_inv (snd s').
Proof.
  intros H. apply (run_invariant sys_step (λ s, listener_inv (snd s))) with acts initial_system.
  - intros a s1 s2. apply listener_inv_step.
  - exact H.
  - unfold listener_inv. cbn. split_and!; [lia | done | lia].
Qed.

Lemma listener_closed_once_on_shutdown_witness :
  sys_run ex_life_schedule initial_system = Some ex_life_state ∧
  server_closes (trace (snd ex_life_state)) = 1%nat ∧
  listener_inv (snd ex_life_state).
Proof.
  assert (H1 : sys_run ex_life_schedule initial_system = Some ex_life_state)
    by (vm_compute; reflexivity).
  assert (H2 : server_closes (trace (snd ex_life_state)) = 1%nat)
    by (vm_compute; reflexivity).
  exact (conj H1 (conj H2 (listener_closed_once_on_shutdown _ _ H1))).
Defined.

(** ** What is forwarded *)

Lemma extends_world_silent w w' :
  extends world_event w w' →
  sends (trace w') = sends (trace w) ∧
  connect_attempts (trace w') = connect_attempts (trace w) ∧
  broadcast_calls (trace w') = broadcast_calls (trace w).
Proof.
  intros (evs & -> & F). destruct (world_events_silent evs F) as (H1 & H2 & H3).
  by rewrite sends_app, connect_attempts_app, broadcast_calls_app, H1, H2, H3, !app_nil_r.
Qed.

Lemma extends_quiet_silent w w' :
  extends receiver_quiet_event w w' →
  sends (trace w') = sends (trace w) ∧
  broadcast_calls (trace w') = broadcast_calls (trace w).
Proof.
  intros (evs & -> & F). destruct (quiet_events_silent evs F) as (H1 & H2).
  by rewrite sends_app, broadcast_calls_app, H1, H2, !app_nil_r.
Qed.

(** What a step of the receiver adds to the sends and to the messages
    handed to the broadcast. *)
Lemma rx_resume_forward i pc w pc' w' :
  rx_resume i pc w = Some (pc', w') →
  broadcast_calls (trace w') = broadcast_calls (trace w) ++ frames (S_receiver i) ∧
  (∀ m ts, pc' = C_gather m ts →
           (∃ ts0, pc = C_gather m ts0) ∨ frames (S_receiver i) = [m]) ∧
  (sends (trace w') = sends (trace w) ∨
   ∃ c m ts, pc = C_gather m ts ∧ sends (trace w') = sends (trace w) ++ [(c, m)]).
Proof.
  intros H.
  destruct (rx_resume_step receiver_quiet_event (λ ev Hev, Hev) _ _ _ _ _ H)
    as [(m & -> & -> & Hm & Hext & Hpc) | [(m & ts & ts' & c & -> & -> & ->) |
        (Hi & Hext & Hpc)]].
  - apply extends_quiet_silent in Hext as (Hs & Hc). cbn [trace emit] in Hs, Hc.
    rewrite sends_app in Hs. rewrite broadcast_calls_app in Hc.
    cbn in Hs, Hc. rewrite app_nil_r in Hs. cbn [frames].
    rewrite bool_decide_eq_true_2 by done. split_and!; [done | | by left].
    intros m' ts ->%Hpc. by right.
  - assert (Hf : frames (S_receiver i) = []).
    { by destruct i as [| r | [m0 | e |] | i | | r | r]. }
    rewrite Hf, app_nil_r. cbn [trace emit].
    rewrite sends_app, broadcast_calls_app. cbn. rewrite app_nil_r.
    split_and!; [done | | right; by exists c, m, ts].
    intros m' ts1 [= <- _]. left. by exists ts.
  - assert (Hf : frames (S_receiver i) = []).
    { destruct i as [| r | [m0 | e |] | i | | r | r]; try done.
      cbn [frames]. rewrite (Hi m0 eq_refl). by rewrite bool_decide_eq_false_2 by (by intros ?). }
    apply extends_quiet_silent in Hext as (Hs & Hc).
    rewrite Hf, app_nil_r. split_and!; [done | | by left].
    intros m ts Hg. by destruct (Hpc m ts).
Qed.

Lemma frames_nonempty a m : m ∈ frames a → m ≠ ""%string.
Proof.
  destruct a as [a | [| r | [m0 | e |] | i | | r | r]]; cbn [frames];
    try by intros ?%elem_of_nil.
  case_bool_decide; [| by intros ?%elem_of_nil]. by intros ->%list_elem_of_singleton.
Qed.

Lemma frames_received m acts :
  m ∈ concat (map frames acts) → S_receiver (C_in_recv (Returned m)) ∈ acts.
Proof.
  induction acts as [| a acts IH]; cbn [map concat]; [by intros ?%elem_of_nil |].
  intros [Hin | Hin]%elem_of_app; [| by right; apply IH].
  destruct a as [a | [| r | [m0 | e |] | i | | r | r]]; cbn [frames] in Hin;
    try by apply elem_of_nil in Hin.
  case_bool_decide; [| by apply elem_of_nil in Hin].
  apply list_elem_of_singleton in Hin as ->. by left.
Qed.

Lemma sys_step_calls a s s' :
  sys_step a s = Some s' →
  broadcast_calls (trace (snd s')) = broadcast_calls (trace (snd s)) ++ frames a.
Proof.
  destruct s as [pc w], a as [a | i]; cbn [sys_step fst snd]; intros H.
  - destruct (world_step a w) as [w1 |] eqn:Hw; [| done]. injection H as <-. cbn [snd frames].
    destruct (world_step_spec a w w1 Hw) as (Hext & _).
    apply extends_world_silent in Hext as (_ & _ & ->). by rewrite app_nil_r.
  - destruct s' as [pc' w']. by apply rx_resume_forward in H as (H & _).
Qed.

Lemma forward_inv_step a s s' :
  sys_step a s = Some s' → forward_inv s → forward_inv s'.
Proof.
  intros H (Hsends & Hcalls & Hpc). pose proof (sys_step_calls a s s' H) as Hc.
  destruct s as [pc w], a as [a | i]; cbn [sys_step fst snd] in *.
  - destruct (world_step a w) as [w1 |] eqn:Hw; [| done]. injection H as <-.
    destruct (world_step_spec a w w1 Hw) as (Hext & _).
    apply extends_world_silent in Hext as (Hs & _ & Hb).
    unfold forward_inv. cbn [fst snd]. by rewrite Hs, Hb.
  - destruct s' as [pc' w']. cbn [fst snd] in *.
    destruct (rx_resume_forward _ _ _ _ _ H) as (_ & Hg & Hs).
    assert (Hcalls' : ∀ m, m ∈ broadcast_calls (trace w') → m ≠ ""%string).
    { intros m. rewrite Hc. intros [Hin | Hin]%elem_of_app; [by apply Hcalls |].
      by apply frames_nonempty in Hin. }
    unfold forward_inv. cbn [fst snd]. split_and!; [| done |].
    + intros c m. destruct Hs as [-> | (c0 & m0 & ts & -> & ->)].
      * intros (Hm & Hin)%Hsends. split; [done |]. rewrite Hc. apply elem_of_app. by left.
      * rewrite Hc. intros [Hin | [= -> ->]%list_elem_of_singleton]%elem_of_app.
        -- apply Hsends in Hin as (Hm & Hin). split; [done |]. apply elem_of_app. by left.
        -- destruct Hpc as (Hm & Hin). split; [done |]. apply elem_of_app. by left.
    + destruct pc' as [| | | m ts | | | |]; try done.
      assert (Hin : m ∈ broadcast_calls (trace w')); [| by split; [apply Hcalls' |]].
      rewrite Hc. apply elem_of_app.
      destruct (Hg m ts eq_refl) as [(ts0 & ->) | ->]; [left; apply Hpc | right; set_solver].
Qed.

(** X7: in every run from the start of the program, every message sent
    to a client is a non-empty message that the receiver took from the
    upstream connection and handed to [broadcast_message] (lines 111-113
    and 86): the server sends nothing of its own. *)
Theorem only_received_messages_are_sent acts s' c m :
  sys_run acts initial_system = Some s' →
  (c, m) ∈ sends (trace (snd s')) →
  m ≠ ""%string ∧ m ∈ broadcast_calls (trace (snd s')) ∧
  S_receiver (C_in_recv (Returned m)) ∈ acts.
Proof.
  intros H Hin.
  assert (Hinv : forward_inv s').
  { apply (run_invariant sys_step forward_inv) with acts initial_system;
      [intros a s1 s2; apply forward_inv_step | exact H |].
    unfold forward_inv. cbn. split_and!; [| | done]; by intros; exfalso; set_solver. }
  destruct Hinv as (Hsends & _ & _). destruct (Hsends c m Hin) as (Hm & Hcall).
  split_and!; [done | done |].
  assert (Hall : ∀ acts s, sys_run acts s = Some s' →
            broadcast_calls (trace (snd s')) =
            broadcast_calls (trace (snd s)) ++ concat (map frames acts)).
  { clear. induction acts as [| a acts IH]; intros s H; unfold sys_run in H; cbn [run] in H.
    - injection H as <-. by rewrite app_nil_r.
    - destruct (sys_step a s) as [s1 |] eqn:Hstep; [| done].
      rewrite (IH s1 H), (sys_step_calls a s s1 Hstep). cbn [map concat].
      by rewrite app_assoc. }
  rewrite (Hall acts initial_system H) in Hcall.
  change (broadcast_calls (trace (snd initial_system))) with (@nil message) in Hcall.
  by apply frames_received in Hcall.
Qed.

Lemma only_received_messages_are_sent_witness :
  sys_run ex_life_schedule initial_system = Some ex_life_state ∧
  (1%nat, ex_message) ∈ sends (trace (snd ex_life_state)) ∧
  ex_message ≠ ""%string ∧ ex_message ∈ broadcast_calls (trace (snd ex_life_state)) ∧
  S_receiver (C_in_recv (Returned ex_message)) ∈ ex_life_schedule.
Proof.
  assert (H1 : sys_run ex_life_schedule initial_system = Some ex_life_state)
    by (vm_compute; reflexivity).
  assert (H2 : (1%nat, ex_message) ∈ sends (trace (snd ex_life_state)))
    by (apply (bool_decide_unpack _); vm_compute; exact I).
  exact (conj H1 (conj H2 (only_received_messages_are_sent _ _ _ _ H1 H2))).
Defined.

(** X8: in every run, from whatever state, the messages handed to
    [broadcast_message] are exactly the non-empty frames the receiver got
    from the upstream connection, each once and in the order of receipt;
    empty frames, timeouts and failed receives hand over nothing
    (lines 111-121). *)
Theorem received_frames_are_broadcast_in_order acts s s' :
  sys_run acts s = Some s' →
  broadcast_calls (trace (snd s')) =
  broadcast_calls (trace (snd s)) ++ concat (map frames acts).
Proof.
  revert s. induction acts as [| a acts IH]; intros s H; unfold sys_run in H; cbn [run] in H.
  - injection H as <-. by rewrite app_nil_r.
  - destruct (sys_step a s) as [s1 |] eqn:Hstep; [| done].
    rewrite (IH s1 H), (sys_step_calls a s s1 Hstep). cbn [map concat].
    by rewrite app_assoc.
Qed.

Lemma received_frames_are_broadcast_in_order_witness :
  sys_run ex_life_schedule initial_system = Some ex_life_state ∧
  concat (map frames ex_life_schedule) = [ex_message] ∧
  broadcast_calls (trace (snd ex_life_state)) =
  broadcast_calls (trace (snd initial_system)) ++ concat (map frames ex_life_schedule).
Proof.
  assert (H1 : sys_run ex_life_schedule initial_system = Some ex_life_state)
    by (vm_compute; reflexivity).
  assert (H2 : concat (map frames ex_life_schedule) = [ex_message])
    by (vm_compute; reflexivity).
  exact (conj H1 (conj H2 (received_frames_are_broadcast_in_order _ _ _ H1))).
Defined.

(** ** After the shutdown event is set *)

Lemma sys_step_no_new_clients a s s' :
  shutdown_event (snd s) = true → sys_step a s = Some s' →
  CONNECTED_CLIENTS (snd s') ⊆ CONNECTED_CLIENTS (snd s).
Proof.
  destruct s as [pc w], a as [a | i]; cbn [sys_step fst snd]; intros Hset H.
  - destruct (world_step a w) as [w1 |] eqn:Hw; [| done]. injection H as <-. cbn [snd].
    destruct a as [c | c st | c i | sig | i]; cbn [world_step] in Hw.
    + destruct (_ && _); [| done]. by injection Hw as <-.
    + destruct (conn w !! c) as [old |]; [| done].
      destruct (conn_may_change old st); [| done]. by injection Hw as <-.
    + destruct (handlers w !! c) as [rpc |]; [| done].
      destruct (rc_resume c i rpc w) as [[rpc' w2] |] eqn:Hr; [| done]. injection Hw as <-.
      cbn [CONNECTED_CLIENTS set_handler].
      destruct (rc_resume_registry _ _ _ _ _ _ Hr) as [-> | [-> | (Hunset & _)]];
        [done | set_solver | congruence].
    + injection Hw as <-. destruct (os_signal_handler_spec sig w) as ((-> & _) & _). done.
    + destruct (main_resume i (main_task w) w) as [[pc' w2] |] eqn:Hr; [| done].
      injection Hw as <-. cbn [CONNECTED_CLIENTS set_main].
      by destruct (main_resume_spec _ _ _ _ _ Hr) as (-> & _).
  - destruct s' as [pc' w']. cbn [snd].
    by destruct (rx_resume_same_shared _ _ _ _ _ H) as (-> & _).
Qed.

Lemma fine_continue_clients fr s :
  CONNECTED_CLIENTS (snd (fine_continue fr s))
  = match fr with
    | Fr_register c => {[c]} ∪ CONNECTED_CLIENTS (snd s)
    | _ => CONNECTED_CLIENTS (snd s)
    end.
Proof.
  destruct s as [pc w]. destruct fr as [c | | | pending]; cbn [fine_continue fst snd];
    try done.
  pose proof (main_from_set_spec pending w) as ((H & _) & _).
  by destruct (main_from_set pending w).
Qed.

(** Once the event is set, a step adds a client to the registry only by
    finishing a segment of its handler that was interrupted between lines 29
    and 37. *)
Lemma fine_step_no_new_clients a fs fs' :
  shutdown_event (fine_world fs) = true →
  fine_step a fs = Some fs' →
  CONNECTED_CLIENTS (fine_world fs') ∪ owed_client fs'
  ⊆ CONNECTED_CLIENTS (fine_world fs) ∪ owed_client fs.
Proof.
  intros Hs. destruct fs as [s fr n].
  unfold fine_step, fine_world, fine_set_world, owed_client in *.
  cbn [fine_frame fine_handlers fine_sys] in *.
  destruct a as [a | a | sig | sig |].
  - unfold fine_idle. cbn [fine_frame fine_handlers]. destruct fr; [done |].
    destruct n; [| done].
    destruct (sys_step a s) as [s1 |] eqn:Hstep; [| done]. intros [= <-].
    cbn [fine_sys fine_frame]. pose proof (sys_step_no_new_clients a s s1 Hs Hstep).
    set_solver.
  - destruct (fine_idle _); [| done].
    destruct (fine_begin a s) as [[fr1 s1] |] eqn:Hb; [| done].
    apply fine_begin_same in Hb as (Hb & _). by rewrite Hb, Hs.
  - intros [= <-]. cbn [fine_sys fine_frame snd].
    by destruct (os_signal_handler_spec sig (snd s)) as ((-> & _) & _).
  - by rewrite shutdown_event_logger, Hs.
  - destruct n as [| n]; [destruct fr as [fr |]; [| done] |]; intros [= <-];
      cbn [fine_sys fine_frame snd fst CONNECTED_CLIENTS event_set]; [| done].
    rewrite fine_continue_clients. destruct fr; set_solver.
Qed.

(** X9: once the shutdown event is set, with signals delivered also inside
    segments, no run adds a client to the registry but the one whose
    handler had passed the test of line 29 before and has not yet reached
    line 37: whatever connects afterwards is not registered, and the event
    stays set. *)
Theorem registration_after_shutdown_only_if_under_way acts fs fs' :
  shutdown_event (fine_world fs) = true →
  fine_run acts fs = Some fs' →
  CONNECTED_CLIENTS (fine_world fs') ∪ owed_client fs'
  ⊆ CONNECTED_CLIENTS (fine_world fs) ∪ owed_client fs ∧
  shutdown_event (fine_world fs') = true.
Proof.
  revert fs. induction acts as [| a acts IH]; intros fs Hset H;
    unfold fine_run in H; cbn [run] in H.
  - by injection H as <-.
  - destruct (fine_step a fs) as [fs1 |] eqn:Hstep; [| done].
    pose proof (fine_step_flag a fs fs1 Hstep Hset) as Hset1.
    destruct (IH fs1 Hset1 H) as (Hsub & Hset').
    split; [| done]. etrans; [exact Hsub |]. by apply fine_step_no_new_clients with a.
Qed.

Lemma registration_after_shutdown_only_if_under_way_witness :
  shutdown_event (fine_world ex_late_register_start) = true ∧
  fine_run ex_late_register_schedule ex_late_register_start = Some ex_late_register_state ∧
  owed_client ex_late_register_start = {[1%nat]} ∧
  (1%nat ∉ CONNECTED_CLIENTS (fine_world ex_late_register_start)) ∧
  1%nat ∈ CONNECTED_CLIENTS (fine_world ex_late_register_state) ∧
  handlers (fine_world ex_late_register_state) !! 5%nat = Some RC_returned ∧
  CONNECTED_CLIENTS (fine_world ex_late_register_state) ∪ owed_client ex_late_register_state
  ⊆ CONNECTED_CLIENTS (fine_world ex_late_register_start)
    ∪ owed_client ex_late_register_start ∧
  shutdown_event (fine_world ex_late_register_state) = true.
Proof.
  assert (H1 : shutdown_event (fine_world ex_late_register_start) = true)
    by (vm_compute; reflexivity).
  assert (H2 : fine_run ex_late_register_schedule ex_late_register_start
               = Some ex_late_register_state) by (vm_compute; reflexivity).
  assert (H3 : owed_client ex_late_register_start = {[1%nat]})
    by (vm_compute; reflexivity).
  assert (H4 : 1%nat ∉ CONNECTED_CLIENTS (fine_world ex_late_register_start))
    by (apply (bool_decide_unpack _); vm_compute; exact I).
  assert (H5 : 1%nat ∈ CONNECTED_CLIENTS (fine_world ex_late_register_state))
    by (apply (bool_decide_unpack _); vm_compute; exact I).
  assert (H6 : handlers (fine_world ex_late_register_state) !! 5%nat = Some RC_returned)
    by (vm_compute; reflexivity).
  exact (conj H1 (conj H2 (conj H3 (conj H4 (conj H5 (conj H6
          (registration_after_shutdown_only_if_under_way _ _ _ H1 H2))))))).
Defined.

(** X10: the sessions, the signal handler and the main coroutine never
    send a message to a client, never hand a message to the broadcast and
    never connect upstream: whatever they do, the three observations of the
    trace stay as they are. *)
Theorem sessions_and_main_never_send acts w w' :
  world_run acts w = Some w' →
  sends (trace w') = sends (trace w) ∧
  connect_attempts (trace w') = connect_attempts (trace w) ∧
  broadcast_calls (trace w') = broadcast_calls (trace w).
Proof.
  revert w. induction acts as [| a acts IH]; intros w H; unfold world_run in H; cbn [run] in H.
  - by injection H as <-.
  - destruct (world_step a w) as [w1 |] eqn:Hw; [| done].
    destruct (IH w1 H) as (-> & -> & ->).
    destruct (world_step_spec a w w1 Hw) as (Hext & _).
    by apply extends_world_silent.
Qed.

Lemma sessions_and_main_never_send_witness :
  world_run ex_late_actions ex_set_world = Some ex_late_world ∧
  EvClose 1%nat 1012 "Server shutting down" ∈ trace ex_late_world ∧
  sends (trace ex_late_world) = sends (trace ex_set_world) ∧
  connect_attempts (trace ex_late_world) = connect_attempts (trace ex_set_world) ∧
  broadcast_calls (trace ex_late_world) = broadcast_calls (trace ex_set_world).
Proof.
  assert (H1 : world_run ex_late_actions ex_set_world = Some ex_late_world)
    by (vm_compute; reflexivity).
  assert (H2 : EvClose 1%nat 1012 "Server shutting down" ∈ trace ex_late_world)
    by (apply (bool_decide_unpack _); vm_compute; exact I).
  exact (conj H1 (conj H2 (sessions_and_main_never_send _ _ _ H1))).
Defined.

(** ** The trace of a broadcast that runs undisturbed *)

Lemma trace_emits evs w : trace (emits evs w) = trace w ++ evs.
Proof.
  revert w. induction evs as [| ev evs IH]; intros w; cbn [emits foldl].
  - by rewrite app_nil_r.
  - fold (emits evs (emit ev w)). rewrite IH. cbn [trace emit]. by rewrite <- app_assoc.
Qed.

Lemma same_shared_emits evs w : same_shared w (emits evs w).
Proof.
  assert (H : ∀ w0, same_shared w w0 → same_shared w (emits evs w0));
    [| apply H, same_shared_refl].
  induction evs as [| ev evs IH]; intros w0 H0; cbn [emits foldl]; [done |].
  apply IH. by apply same_shared_emit.
Qed.

Lemma log_send_errors_trace tasks w :
  trace (log_send_errors tasks w) = trace w ++ send_error_events tasks.
Proof.
  revert w. induction tasks as [| t rest IH]; intros w;
    cbn [log_send_errors send_error_events omap].
  - by rewrite app_nil_r.
  - destruct t as [c [[[] | e |] |]]; cbn [task_result]; rewrite IH; try done.
    rewrite logger_ERROR. cbn [trace emit]. by rewrite <- app_assoc.
Qed.

Lemma finished_tasks_done results cs k0 :
  forallb task_done (imap (λ k c, mkTask c (Some (results (k0 + k)%nat))) cs) = true.
Proof.
  revert k0. induction cs as [| c cs IH]; intros k0; [done |].
  cbn [imap forallb task_done task_result andb].
  rewrite <- (IH (S k0)). f_equal. apply imap_ext. intros k c' _. cbn.
  by rewrite Nat.add_succ_r.
Qed.

Lemma pending_from_fresh results m cs : ∀ pre w,
  bc_run (pending_from results (length pre) (map (λ c, mkTask c None) cs))
         (BC_gather m (pre ++ map (λ c, mkTask c None) cs), w)
  = Some (BC_gather m (pre ++ imap (λ k c, mkTask c (Some (results (length pre + k)%nat))) cs),
          emits (map (λ c, EvSend c m) cs) w).
Proof.
  induction cs as [| c cs IH]; intros pre w; [done |].
  cbn [map pending_from task_done task_result app emits foldl imap].
  unfold bc_run. cbn [run bc_step fst snd bc_resume]. unfold run_send_task.
  rewrite list_lookup_middle by done.
  rewrite insert_app_r_alt, Nat.sub_diag by done. cbn [insert list_insert].
  specialize (IH (pre ++ [mkTask c (Some (results (length pre)))]) (emit (EvSend c m) w)).
  rewrite length_app in IH. cbn [length] in IH. rewrite Nat.add_1_r in IH.
  rewrite <- !app_assoc in IH. cbn [app] in IH.
  unfold bc_run in IH. rewrite IH, Nat.add_0_r.
  assert (E : imap (λ k c0, mkTask c0 (Some (results (S (length pre) + k)%nat))) cs
              = imap ((λ k c0, mkTask c0 (Some (results (length pre + k)%nat))) ∘ S) cs).
  { apply imap_ext. intros k c' _. cbn. by rewrite Nat.add_succ_r. }
  by rewrite E.
Qed.

(** X11: a broadcast of a non-empty message that runs undisturbed to its
    end leaves the shared state as it is and adds to the trace, in this
    order: one record per registered client of the snapshot (a task
    creation if it is open, a warning if it is closed, lines 84-88), one
    send per open client in snapshot order (line 91), and one error record
    per send that raised, in task order and with the name of its task
    (lines 92-96); nothing else. *)
Theorem broadcast_trace_in_order message_str w results :
  message_str ≠ ""%string →
  ∃ w', bc_run (finish_schedule results (fst (broadcast_message message_str w)))
               (broadcast_message message_str w) = Some (BC_returned, w') ∧
        trace w' = trace w
                   ++ map (snapshot_event w) (elements (CONNECTED_CLIENTS w))
                   ++ map (λ c, EvSend c message_str) (open_snapshot w)
                   ++ send_error_events (finished_tasks results (open_snapshot w)) ∧
        same_shared w w'.
Proof.
  intros Hne. destruct (broadcast_message_spec message_str w Hne) as (Hf & Hsh & Ht).
  destruct (broadcast_message message_str w) as [pc w0]. cbn [fst snd] in *.
  destruct (open_snapshot w) as [| c cs] eqn:Hos.
  - subst pc. exists w0. split_and!; [done | | done].
    rewrite Ht. cbn. by rewrite app_nil_r.
  - subst pc. unfold finish_schedule, bc_run. rewrite run_app.
    pose proof (pending_from_fresh results message_str (c :: cs) [] w0) as Hrun.
    cbn [length app] in Hrun. unfold bc_run in Hrun. rewrite Hrun.
    cbn [run bc_step fst snd bc_resume].
    rewrite (finished_tasks_done results (c :: cs) 0).
    eexists. split_and!; [reflexivity | |].
    + rewrite log_send_errors_trace, trace_emits, Ht. by rewrite <- !app_assoc.
    + destruct (log_send_errors_spec
                  (imap (λ k c0, mkTask c0 (Some (results (0 + k)%nat))) (c :: cs))
                  (emits (map (λ c0, EvSend c0 message_str) (c :: cs)) w0)) as (Hl & _).
      pose proof (same_shared_emits (map (λ c0, EvSend c0 message_str) (c :: cs)) w0) as He.
      destruct Hsh as (? & ? & ? & ? & ?), He as (? & ? & ? & ? & ?), Hl as (? & ? & ? & ? & ?).
      split_and!; congruence.
Qed.

Lemma broadcast_trace_in_order_witness :
  ex_message ≠ ""%string ∧
  ∃ w', bc_run (finish_schedule ex_results (fst (broadcast_message ex_message ex_world)))
               (broadcast_message ex_message ex_world) = Some (BC_returned, w') ∧
        trace w' = trace ex_world
                   ++ map (snapshot_event ex_world) (elements (CONNECTED_CLIENTS ex_world))
                   ++ map (λ c, EvSend c ex_message) (open_snapshot ex_world)
                   ++ send_error_events (finished_tasks ex_results (open_snapshot ex_world)) ∧
        same_shared ex_world w'.
Proof.
  assert (H1 : ex_message ≠ ""%string) by done.
  exact (conj H1 (broadcast_trace_in_order ex_message ex_world ex_results H1)).
Defined.

(** ** How the main coroutine and the receiver end *)

Lemma trace_logger_INFO m w : trace (logger INFO m w) = trace w ++ [EvLog INFO m].
Proof. reflexivity. Qed.

Lemma main_finish_last w :
  last (trace (snd (main_finish w))) = Some (EvLog INFO Log_shutdown_complete).
Proof. unfold main_finish. cbn [snd]. by rewrite trace_logger_INFO, last_snoc. Qed.

Lemma main_cancel_loop_last todo is_done w :
  fst (main_cancel_loop todo is_done w) = M_returned →
  last (trace (snd (main_cancel_loop todo is_done w)))
  = Some (EvLog INFO Log_shutdown_complete).
Proof.
  induction todo as [| t rest IH]; cbn [main_cancel_loop].
  - intros _. apply main_finish_last.
  - destruct (negb (is_done t)); [done | exact IH].
Qed.

Lemma main_await_tasks_last ed sd w :
  fst (main_await_tasks ed sd w) = M_returned →
  last (trace (snd (main_await_tasks ed sd w))) = Some (EvLog INFO Log_shutdown_complete).
Proof.
  unfold main_await_tasks. destruct ed, sd; cbn [app fst]; try done.
  intros _. apply main_finish_last.
Qed.

Lemma main_resume_from_wait i w pc' w' :
  main_resume i M_wait w = Some (pc', w') →
  (pc' = M_server_wait_closed ∧ shutdown_event w' = true ∧
   server_closes (trace w') = S (server_closes (trace w))) ∨
  ∃ r, pc' = M_raised r.
Proof.
  destruct i as [| r | ext sd | r ed sd | r is_done | r is_done]; try done.
  cbn [main_resume]. destruct (implb sd (shutdown_event w)); [| done]. intros H.
  assert (Hshut : ∀ pending w1,
            server_closes (trace w1) = server_closes (trace w) →
            main_shutdown_sequence pending w1 = (pc', w') →
            pc' = M_server_wait_closed ∧ shutdown_event w' = true ∧
            server_closes (trace w') = S (server_closes (trace w))).
  { intros pending w1 Hc1 Hseq.
    destruct (main_shutdown_sequence_spec pending w1 w1 (keeps_clients_refl _ _))
      as (_ & Hset & Hpc).
    rewrite Hseq in Hset, Hpc. cbn [fst snd] in *. split_and!; try done.
    unfold main_shutdown_sequence in Hseq. injection Hseq as _ <-. wsimpl.
    rewrite !server_closes_app.
    rewrite cancel_all_server_closes. destruct (negb (shutdown_event _));
      cbn [trace emit event_set]; rewrite ?server_closes_app, Hc1; cbn; lia. }
  unfold main_after_wait in H.
  destruct ext as [[[] | e |] |]; [| | | destruct sd]; apply (inj Some) in H.
  3: { injection H as <- <-. right. by eexists. }
  all: left; eapply Hshut; [| exact H]; wsimpl; rewrite ?server_closes_app; cbn; lia.
Qed.

Lemma main_resume_returned i pc w w' :
  main_resume i pc w = Some (M_returned, w') →
  pc = M_serve ∨ last (trace w') = Some (EvLog INFO Log_shutdown_complete).
Proof.
  intros H.
  destruct pc as [| | | | ts | t rest | | r0],
           i as [| r | ext sd | r ed sd | r is_done | r is_done];
    try discriminate H; cbn [main_resume] in H.
  - by left.
  - by destruct (main_resume_from_wait (M_in_wait ext sd) w M_returned w' H)
      as [(? & _) | (? & ?)].
  - right. apply (inj Some) in H.
    assert (Hpc := f_equal fst H). assert (Hw := f_equal snd H). cbn [fst snd] in Hpc, Hw.
    rewrite <- Hw. unfold main_after_server_closed in *.
    destruct r as [[] | e |]; [| destruct e |]; try done; by apply main_await_tasks_last.
  - right. apply (inj Some) in H.
    assert (Hpc := f_equal fst H). assert (Hw := f_equal snd H). cbn [fst snd] in Hpc, Hw.
    rewrite <- Hw. unfold main_after_join in *.
    destruct r as [[] | e |]; [| destruct e |]; try done;
      [apply main_finish_last | by apply main_cancel_loop_last].
  - right. apply (inj Some) in H.
    assert (Hpc := f_equal fst H). assert (Hw := f_equal snd H). cbn [fst snd] in Hpc, Hw.
    rewrite <- Hw. unfold main_after_cancelled_task in *.
    destruct r as [[] | e |]; by apply main_cancel_loop_last.
Qed.

Lemma after_wait_inv_step c0 i s s' :
  main_resume i (fst s) (snd s) = Some s' → after_wait_inv c0 s → after_wait_inv c0 s'.
Proof.
  destruct s as [pc w], s' as [pc' w']. cbn [fst snd]. intros H HJ.
  pose proof (main_resume_spec _ _ _ _ _ H) as (_ & _ & _ & _ & Hflag & _).
  assert (pc = M_wait ∨ pc ≠ M_wait) as [-> | Hnw]
    by (destruct pc; first [by left | by right]).
  - unfold after_wait_inv in *. cbn [fst snd] in *.
    destruct (main_resume_from_wait _ _ _ _ H) as [(-> & Hs & Hc) | (r & ->)]; [| done].
    by rewrite Hc, HJ.
  - assert (HJ' : shutdown_event w = true ∧ server_closes (trace w) = S c0).
    { unfold after_wait_inv in HJ. cbn [fst snd] in HJ.
      destruct pc; try done; by destruct i. }
    destruct HJ' as (Hs & Hc0). specialize (Hflag Hs).
    destruct (main_resume_closes _ _ _ _ _ H) as [(? & _) | (Hc & Hne & Hback)]; [done |].
    assert (Hpc : pc ≠ M_not_started ∧ pc ≠ M_serve).
    { unfold after_wait_inv in HJ. cbn [fst snd] in HJ. by destruct pc. }
    unfold after_wait_inv. cbn [fst snd]. rewrite Hc.
    destruct pc' as [| | | | ts | t rest | | r0]; try done.
    + destruct Hback as [? | ?]; [by left | |]; by destruct Hpc.
    + destruct Hback as [? | ?]; [by right | |]; by destruct Hpc.
    + split_and!; [done | done |].
      destruct (main_resume_returned _ _ _ _ H) as [? | ?]; [by destruct Hpc | done].
Qed.

(** X12: whenever the main coroutine, resumed from its wait at line 160,
    returns normally, whatever ended the wait and whatever the awaited
    calls gave, the shutdown event is set, the listener has been closed
    exactly once on the way (line 185), and the last record is "Server
    shutdown process complete." (line 218). *)
Theorem completed_shutdown_shape inputs w w' :
  main_run inputs (M_wait, w) = Some (M_returned, w') →
  shutdown_event w' = true ∧
  server_closes (trace w') = S (server_closes (trace w)) ∧
  last (trace w') = Some (EvLog INFO Log_shutdown_complete).
Proof.
  intros H.
  apply (run_invariant (λ i s, main_resume i (fst s) (snd s))
           (after_wait_inv (server_closes (trace w)))) in H.
  - exact H.
  - intros i s1 s2. apply after_wait_inv_step.
  - reflexivity.
Qed.

Lemma completed_shutdown_shape_witness :
  main_run (signal_shutdown_inputs (Returned tt) false (λ _, true)) (M_wait, ex_set_world)
  = Some (M_returned, ex_shutdown_done_world) ∧
  shutdown_event ex_shutdown_done_world = true ∧
  server_closes (trace ex_shutdown_done_world) = S (server_closes (trace ex_set_world)) ∧
  last (trace ex_shutdown_done_world) = Some (EvLog INFO Log_shutdown_complete).
Proof.
  assert (H1 : main_run (signal_shutdown_inputs (Returned tt) false (λ _, true))
                 (M_wait, ex_set_world) = Some (M_returned, ex_shutdown_done_world))
    by (vm_compute; reflexivity).
  exact (conj H1 (completed_shutdown_shape _ _ _ H1)).
Defined.

Lemma rx_outer_loop_returned w :
  fst (rx_outer_loop w) = C_returned →
  shutdown_event (snd (rx_outer_loop w)) = true ∧
  last (trace (snd (rx_outer_loop w))) = Some (EvLog INFO Log_receiver_stopped).
Proof.
  unfold rx_outer_loop. destruct (shutdown_event w) eqn:Hs; cbn [negb fst snd]; [| done].
  intros _. split; [done |]. by rewrite trace_logger_INFO, last_snoc.
Qed.

Lemma rx_after_try_returned w :
  fst (rx_after_try w) = C_returned →
  shutdown_event (snd (rx_after_try w)) = true ∧
  last (trace (snd (rx_after_try w))) = Some (EvLog INFO Log_receiver_stopped).
Proof.
  unfold rx_after_try. destruct (negb (shutdown_event w)); cbn [fst snd]; [done |].
  apply rx_outer_loop_returned.
Qed.

(** The receiver returns only from the head of its outer loop, with the
    event set. *)
Lemma rx_resume_returned i pc w w' :
  rx_resume i pc w = Some (C_returned, w') →
  shutdown_event w' = true ∧ last (trace w') = Some (EvLog INFO Log_receiver_stopped).
Proof.
  intros H.
  destruct pc as [| | | m tasks | cancelled | | | r0],
           i as [| r | r | i | | r | r]; try discriminate H; cbn [rx_resume] in H.
  - destruct (task_created _ _); [| done]. apply (inj Some) in H.
    assert (Hpc := f_equal fst H). assert (Hw := f_equal snd H). cbn [fst snd] in Hpc, Hw.
    rewrite <- Hw. by apply rx_outer_loop_returned.
  - apply (inj Some) in H.
    assert (Hpc := f_equal fst H). assert (Hw := f_equal snd H). cbn [fst snd] in Hpc, Hw.
    rewrite <- Hw. unfold rx_after_connect in *.
    destruct r as [[] | e |]; [by apply rx_inner_loop_ret in Hpc | | done].
    by apply rx_after_try_returned.
  - apply (inj Some) in H. assert (Hpc := f_equal fst H). cbn [fst] in Hpc.
    exfalso. unfold rx_after_recv, rx_leave_with in Hpc.
    destruct r as [m | e |]; [| | done].
    + case_bool_decide; [| by apply rx_inner_loop_ret in Hpc].
      destruct (broadcast_message m _) as [[m' tasks |] w1]; [done |].
      by apply rx_inner_loop_ret in Hpc.
    + destruct e; cbn [isinstance_ConnectionClosed fst] in Hpc; try done;
        by apply rx_inner_loop_ret in Hpc.
  - destruct (bc_resume i (BC_gather m tasks) w) as [[[m' tasks' |] w1] |]; try done.
    apply (inj Some) in H. assert (Hpc := f_equal fst H). cbn [fst] in Hpc.
    by apply rx_inner_loop_ret in Hpc.
  - apply (inj Some) in H.
    assert (Hpc := f_equal fst H). assert (Hw := f_equal snd H). cbn [fst snd] in Hpc, Hw.
    rewrite <- Hw. unfold rx_after_aexit in *.
    destruct r as [[] | e |]; [destruct cancelled | |]; try done;
      by apply rx_after_try_returned.
  - assert (Hr : rx_after_retry_wait r w = (C_returned, w')).
    { destruct r as [[] | e |]; [destruct (shutdown_event w); [| done] | |];
        by apply (inj Some) in H. }
    assert (Hpc := f_equal fst Hr). assert (Hw := f_equal snd Hr). cbn [fst snd] in Hpc, Hw.
    rewrite <- Hw. unfold rx_after_retry_wait in *.
    destruct r as [[] | e |]; [| destruct e |]; try done; by apply rx_outer_loop_returned.
Qed.

(** X13: the receiver task returns normally only once the shutdown event
    is set: in every run that takes it from a state where it has not
    returned to its return, the event is set at the end and the record
    "External ADS-B receiver task stopped." has been logged (lines 104
    and 132); no failure of the upstream connection ends the task. *)
Theorem receiver_returns_only_on_shutdown acts s s' :
  fst s ≠ C_returned →
  sys_run acts s = Some s' →
  fst s' = C_returned →
  shutdown_event (snd s') = true ∧ EvLog INFO Log_receiver_stopped ∈ trace (snd s').
Proof.
  intros Hs H.
  apply (run_invariant sys_step
           (λ s, fst s = C_returned →
                 shutdown_event (snd s) = true ∧
                 EvLog INFO Log_receiver_stopped ∈ trace (snd s))) with acts s;
    [| exact H | done].
  clear. intros a [pc w] s' Hstep HI. destruct a as [a | i]; cbn [sys_step fst snd] in *.
  - destruct (world_step a w) as [w1 |] eqn:Hw; [| done]. injection Hstep as <-.
    cbn [fst snd]. intros Hpc. destruct (HI Hpc) as (Hset & Hin).
    destruct (world_step_spec a w w1 Hw) as (Hext & Hflag).
    split; [by apply Hflag | by eapply extends_elem_of].
  - destruct s' as [pc' w']. cbn [fst snd]. intros ->.
    destruct (rx_resume_returned _ _ _ _ Hstep) as (Hset & Hlast).
    split; [done |]. apply last_Some in Hlast as (l & ->). set_solver.
Qed.

Lemma receiver_returns_only_on_shutdown_witness :
  fst (C_recv, ex_world) ≠ C_returned ∧
  sys_run ex_stop_schedule (C_recv, ex_world) = Some ex_stop_state ∧
  fst ex_stop_state = C_returned ∧
  shutdown_event (snd ex_stop_state) = true ∧
  EvLog INFO Log_receiver_stopped ∈ trace (snd ex_stop_state).
Proof.
  assert (H1 : fst (C_recv, ex_world) ≠ C_returned) by discriminate.
  assert (H2 : sys_run ex_stop_schedule (C_recv, ex_world) = Some ex_stop_state)
    by (vm_compute; reflexivity).
  assert (H3 : fst ex_stop_state = C_returned) by (vm_compute; reflexivity).
  exact (conj H1 (conj H2 (conj H3
          (receiver_returns_only_on_shutdown _ _ _ H1 H2 H3)))).
Defined.
